(** * lightlab.util.io : sweep progress counter, file helpers, JSON pickling

    A shallow embedding of [lightlab/util/io.py].

    - [ProgressWriter] : the n-dimensional sweep counter of class
      [ProgressWriter] ([__init__], [update], [__updateOneInternal]); what
      it prints and writes is kept as a list of outputs.
    - [Files] : [_makeFileExist], [savePickle]/[loadPickle],
      [_gzfilename], [savePickleGzip]/[loadPickleGzip], [saveMat]/[loadMat]
      over a file system given as the regular files and the directories
      by path, with a log of the calls.
    - [JSONpickleable] : [__getstate__], [__setstate__], [_fromJSONcheck]
      over a heap of insertion-ordered dictionaries.
    - [JSONfile] : [copy], [save], [load] over the heap and text files by
      name; [Pickled] gives the states of the two pickling methods in
      closed form.

    Libraries the module calls ([pathlib], [pickle], [gzip], [scipy.io],
    [dill], [jsonpickle]) and the clock are interfaces here: the properties
    hold for every implementation, and [Example] gives small ones to run.
    Integers held in numpy arrays are int64 with wrap-around; [ofTotal] and
    [steps] are Python integers. *)

From Stdlib Require Import ZArith Lia String Ascii List.
From stdpp Require Import base tactics option numbers list strings gmap pretty.

Local Open Scope Z_scope.

(** ** Exceptions and results shared by the three parts *)

Inductive exn : Type :=
  | Exception (msg : string)
  | IndexError
  | TypeError (msg : string)
  | FileNotFoundError (path : string)
  | FileExistsError (path : string)
  | IsADirectoryError (path : string)
  | NotADirectoryError (path : string)
  | OverflowError (msg : string)
  | PicklingError
  | UnpicklingError
  | KeyError (key : string)
  | AttributeError (attr : string)
  | OSError (msg : string).

(** A call either returns, or raises with the store as it was when the
    exception left the function. *)
Inductive res (S A : Type) : Type :=
  | Done (a : A) (s : S)
  | Raised (e : exn) (s : S).
Arguments Done {S A} a s.
Arguments Raised {S A} e s.

Definition res_state {S A} (r : res S A) : S :=
  match r with Done _ s => s | Raised _ s => s end.

Definition raised {S A} (r : res S A) : bool :=
  match r with Done _ _ => false | Raised _ _ => true end.

(** ** numpy's int64 *)

(** [np.array] of a tuple of Python ints that fit 64 bits has dtype int64;
    arithmetic on its entries and [np.prod] over it wrap around. *)
Definition wrap64 (z : Z) : Z := (z + 2 ^ 63) mod 2 ^ 64 - 2 ^ 63.

(** [np.prod]: the running product, reduced in int64. *)
Definition np_prod (l : list Z) : Z :=
  fold_right (fun s acc => wrap64 (s * acc)) 1 l.

(** The mathematical product, for comparison. *)
Definition prod (l : list Z) : Z := fold_right Z.mul 1 l.

Module ProgressWriter.

(** What the reporter sends out: a line on stdout, or a rewrite of the
    monitor page.  The page's text depends on the clock; the event keeps the
    counter it was rendered from.  Printing, and opening and writing the
    page file, are taken to succeed; rendering the page is not, see
    [Clock]. *)
Inductive output : Type :=
  | Print (line : string)
  | PrintUrl                                  (* print(self.getUrl()) *)
  | HtmlProgress (pnt : list Z) (ofTotal : Z)
  | HtmlEnd.

(** The attributes of a [ProgressWriter] ([startTime] and [filePath] only
    feed the page's text and are left out). *)
Record t : Type := mk {
  name : string;
  size : list Z;            (* np.array(swpSize), int64 *)
  currentPnt : list Z;      (* np.zeros_like(size), int64 *)
  totalSize : Z;            (* np.prod(size), int64 *)
  ofTotal : Z;              (* Python int *)
  completed : bool;
  serving : bool;
  printing : bool;
  out : list output         (* everything written so far, oldest first *)
}.

Definition emit (o : output) (st : t) : t :=
  mk (name st) (size st) (currentPnt st) (totalSize st) (ofTotal st)
     (completed st) (serving st) (printing st) (out st ++ [o]).

Definition set_currentPnt (cur : list Z) (st : t) : t :=
  mk (name st) (size st) cur (totalSize st) (ofTotal st)
     (completed st) (serving st) (printing st) (out st).

(** [swpSize] is a scalar or a tuple. *)
Inductive swp : Type :=
  | Scalar (n : Z)
  | Sizes (l : list Z).

Definition sizes_of (s : swp) : list Z :=
  match s with Scalar n => [n] | Sizes l => l end.

(** [__writeStdio]: one "cur+1/size..." group per dimension. *)
Definition stdio_line (sz cur : list Z) : string :=
  fold_right String.append EmptyString
    (zip_with (fun c s => pretty (wrap64 (c + 1)) +:+ "/" +:+ pretty s +:+ "...")
              cur sz).

Definition writeStdio (st : t) : t :=
  emit (Print (stdio_line (size st) (currentPnt st))) st.

Definition writeStdioEnd (st : t) : t := emit (Print "Sweep completed!") st.
Definition writeHtmlEnd (st : t) : t := emit HtmlEnd st.

(** The header printed by [__init__] when [stdoutPrint] is set. *)
Definition dim_header (n : nat) : string :=
  fold_right String.append EmptyString
    (map (fun i : nat => "Dim-" +:+ pretty i +:+ "...") (seq 0 n)).

Definition when (b : bool) (f : t -> t) (st : t) : t := if b then f st else st.

(** The clock's part in [__writeHtml].  The page shows the expected
    completion time [startTime + tSinceStart / completeRatio], formatted by
    [tims]; with few of very many points done it lies so far ahead that
    [time.localtime] or [time.strftime] raises (OverflowError, OSError).
    The clock is not part of a reporter's state: [tims_error st] is the
    exception [tims(endTime)] raises when [__writeHtml] runs on the
    reporter as it is in [st], or [None] when it formats. *)
Class Clock : Type := {
  tims_error : t → option exn
}.

Section reporter.
Context `{Clock}.

(** [__writeHtml]: the page is rendered, then written when serving.
    [completeRatio = (ofTotal + 1) / totalSize] divides by an int64: for
    [totalSize = 0] it is [inf], and the expected completion time is the
    start time, which formats. *)
Definition writeHtml (st : t) : res t unit :=
  match (if totalSize st =? 0 then None else tims_error st) with
  | Some e => Raised e st
  | None =>
    Done tt (if serving st then emit (HtmlProgress (currentPnt st) (ofTotal st)) st
             else st)
  end.

(** [__init__]; the state is the object under construction. *)
Definition __init__ (nm : string) (swpSize : swp) (runServer stdoutPrint : bool) :
    res t unit :=
  let sz := sizes_of swpSize in
  let st := mk nm sz (map (fun _ => 0) sz) (np_prod sz) 0 false
               runServer stdoutPrint [] in
  match (if runServer
         then writeHtml (emit PrintUrl (emit (Print "See sweep progress online at") st))
         else Done tt st) with
  | Raised e st => Raised e st
  | Done _ st =>
    Done tt (when stdoutPrint
               (fun st => writeStdio (emit (Print (dim_header (length sz)))
                                           (emit (Print nm) st))) st)
  end.

(** The reporter as the constructor leaves it. *)
Definition init (nm : string) (swpSize : swp) (runServer stdoutPrint : bool) : t :=
  res_state (__init__ nm swpSize runServer stdoutPrint).

End reporter.

(** [a[-i-1]] on an array of length [n]: position [n-i-1], or out of range. *)
Definition from_end (n i : nat) : option nat :=
  if (i <? n)%nat then Some (n - i - 1)%nat else None.

(** The [for i in range(len(self.size))] loop of [__updateOneInternal],
    entered at iteration [i] with [rem] iterations to go.  [break] is the
    [Done] of the first branch. *)
Fixpoint odometer (rem i : nat) (sz cur : list Z) : res (list Z) unit :=
  match rem with
  | O => Done tt cur
  | S rem' =>
    match from_end (length cur) i ≫= (fun j => pair j <$> cur !! j),
          from_end (length sz) i ≫= (fun j => sz !! j) with
    | Some (j, c), Some s =>
      if c <? wrap64 (s - 1) then Done tt (<[j := wrap64 (c + 1)]> cur)
      else odometer rem' (S i) sz (<[j := 0]> cur)
    | _, _ => Raised IndexError cur
    end
  end.

(** [__updateOneInternal] *)
Definition updateOneInternal (st : t) : res t unit :=
  match odometer (length (size st)) 0 (size st) (currentPnt st) with
  | Raised e cur => Raised e (set_currentPnt cur st)
  | Done _ cur =>
    let n := ofTotal st + 1 in
    Done tt (mk (name st) (size st) cur (totalSize st) n
                (if n =? totalSize st then true else completed st)
                (serving st) (printing st) (out st))
  end.

(** [for i in range(steps): self.__updateOneInternal()] *)
Fixpoint updateSteps (n : nat) (st : t) : res t unit :=
  match n with
  | O => Done tt st
  | S n' =>
    match updateOneInternal st with
    | Done _ st' => updateSteps n' st'
    | Raised e st' => Raised e st'
    end
  end.

Section update.
Context `{Clock}.

(** The report at the end of [update]: the page, then the line. *)
Definition report (st : t) : res t unit :=
  if completed st then
    Done tt (when (printing st) writeStdioEnd (when (serving st) writeHtmlEnd st))
  else
    match (if serving st then writeHtml st else Done tt st) with
    | Raised e st => Raised e st
    | Done _ st => Done tt (when (printing st) writeStdio st)
    end.

(** [update] *)
Definition update (steps : Z) (st : t) : res t unit :=
  if completed st then
    Raised (Exception "This sweep has supposedly completed. Make a new object to go again") st
  else
    match updateSteps (Z.to_nat steps) st with
    | Raised e st' => Raised e st'
    | Done _ st' => report st'
    end.

(** [k] successive calls [update()] (default [steps=1]); a caller stops at
    the first call that raises. *)
Definition calls (k : N) (st : t) : res t unit :=
  N.iter k (fun r => match r with
                     | Done _ s => update 1 s
                     | Raised e s => Raised e s
                     end) (Done tt st).

(** No page is to be written, or the clock never makes [tims] fail. *)
Definition page_renders (st : t) : Prop :=
  serving st = true → ∀ s, tims_error s = None.

End update.

(** *** The counter read least-significant digit first

    [incr sz cur] is one pass of the loop of [__updateOneInternal] over the
    reversed arrays: the first digit below its bound is bumped, the digits
    before it are reset. *)
Fixpoint incr (sz cur : list Z) : list Z :=
  match cur, sz with
  | c :: cur', s :: sz' =>
    if c <? wrap64 (s - 1) then wrap64 (c + 1) :: cur' else 0 :: incr sz' cur'
  | _, _ => cur
  end.

(** The state [__updateOneInternal] leaves when the loop runs through. *)
Definition step_state (st : t) : t :=
  mk (name st) (size st)
     (rev (incr (rev (size st)) (rev (currentPnt st))))
     (totalSize st) (ofTotal st + 1)
     (if ofTotal st + 1 =? totalSize st then true else completed st)
     (serving st) (printing st) (out st).

(** *** Mixed-radix numerals

    The representation of [k] in bases [sz], most significant digit first:
    digit [i] is [k] divided by the product of the later bases, modulo
    base [i]. *)
Fixpoint mixed_radix (sz : list Z) (k : Z) : list Z :=
  match sz with
  | [] => []
  | s :: rest => (k / prod rest) mod s :: mixed_radix rest k
  end.

(** The same digits, least significant first, by repeated division. *)
Fixpoint le_digits (sz : list Z) (k : Z) : list Z :=
  match sz with
  | [] => []
  | s :: sz' => k mod s :: le_digits sz' (k / s)
  end.

(** Every coordinate of the counter is a valid index of its dimension. *)
Definition bounded (st : t) : Prop :=
  Forall2 (fun c s => 0 ≤ c ≤ s - 1) (currentPnt st) (size st).

(** A dimension size that numpy stores as a positive int64. *)
Definition int64_size (s : Z) : Prop := 1 ≤ s < 2 ^ 63.

(** The reporter has counted [k] points of a sweep of shape [sz]. *)
Definition at_count (sz : list Z) (k : Z) (st : t) : Prop :=
  size st = sz ∧ currentPnt st = mixed_radix sz k ∧
  totalSize st = prod sz ∧ ofTotal st = k.

(** Two states that differ at most in what has been written out. *)
Definition same_counter (st st' : t) : Prop :=
  size st' = size st ∧ currentPnt st' = currentPnt st ∧
  totalSize st' = totalSize st ∧ ofTotal st' = ofTotal st ∧
  completed st' = completed st ∧ serving st' = serving st ∧
  printing st' = printing st.

End ProgressWriter.

(** ** Python strings *)

Module PyStr.

(** [skip n s]: [s] without its first [n] characters. *)
Fixpoint skip (n : nat) (s : string) : string :=
  match n, s with
  | O, _ => s
  | S n', String _ s' => skip n' s'
  | S _, EmptyString => EmptyString
  end.

(** [keep n s]: the first [n] characters of [s]. *)
Fixpoint keep (n : nat) (s : string) : string :=
  match n, s with
  | O, _ => EmptyString
  | S n', String c s' => String c (keep n' s')
  | S _, EmptyString => EmptyString
  end.

(** Where a slice bound [i] falls in a string of length [len]: negative
    bounds count from the end, and both ends clamp. *)
Definition slice_bound (len : nat) (i : Z) : nat :=
  if i <? 0 then Z.to_nat (Z.max 0 (Z.of_nat len + i))
  else Nat.min (Z.to_nat i) len.

(** [s[i:]] *)
Definition slice_from (i : Z) (s : string) : string :=
  skip (slice_bound (String.length s) i) s.

(** [s[:i]] *)
Definition slice_to (i : Z) (s : string) : string :=
  keep (slice_bound (String.length s) i) s.

(** [s.endswith(suf)] *)
Definition endswith (s suf : string) : bool :=
  (String.length suf <=? String.length s)%nat
  && String.eqb (skip (String.length s - String.length suf) s) suf.

(** [s] ends in [suf]. *)
Definition ends_with (s suf : string) : Prop := ∃ pre, s = pre +:+ suf.

End PyStr.

(** ** File functions *)

Module Files.
Import PyStr.

Definition bytes : Type := list Byte.byte.

(** [pathlib]'s part: [fileDir / filename], [Path.resolve()] and
    [Path.parents], the directories above a path, nearest first (none above
    the root).  A resolved path names the file itself; [touch], [exists]
    and [open] follow links the same way, so the file system below is keyed
    by resolved paths, and the directory that holds a file is the parent of
    its resolved path. *)
Class Pathlib : Type := {
  joinpath : string → string → string;
  resolve : string → string;
  parents : string → list string
}.

(** [pickle.dump] / [pickle.load] on values of type [V]. *)
Class Pickle (V : Type) : Type := {
  dumps : V → option bytes;        (* None: PicklingError *)
  loads : bytes → option V         (* None: UnpicklingError *)
}.

(** What [gzip.open] does to the bytes that pass through it. *)
Class Gzip : Type := {
  compress : bytes → bytes;
  decompress : bytes → option bytes
}.

(** [scipy.io.savemat] / [loadmat] on arrays of type [A], and [np.squeeze].
    Both are taken to access exactly the path they are handed. *)
Class Scipy (A : Type) : Type := {
  mat_encode : gmap string A → bytes;
  mat_decode : bytes → option (gmap string A);
  squeeze : A → A
}.

Inductive io : Type :=
  | Makedirs (dir : string)
  | Touch (rp : string)
  | Write (rp : string) (data : bytes)
  | Read (rp : string).

(** The module global [fileDir] and the file system: at a resolved path
    there is a regular file, a directory, or nothing.  The process may read
    and write wherever it looks: permissions are not modelled. *)
Record env : Type := mkEnv {
  fileDir : string;
  files : gmap string bytes;      (* regular files by resolved path *)
  dirs : gset string;             (* directories by resolved path *)
  log : list io                   (* file system calls that went through,
                                     oldest first *)
}.

Section files.
Context `{Pathlib}.

Definition logged (ev : io) (e : env) : env :=
  mkEnv (fileDir e) (files e) (dirs e) (log e ++ [ev]).

(** [Path.parent]: the nearest of the directories above, the path itself
    at the root. *)
Definition parent (p : string) : string := default p (head (parents p)).

(** Where a regular file stands in the way: going up from [child] through
    [ancestors], the path just below the first regular file. *)
Fixpoint blocked (fs : gmap string bytes) (child : string) (ancestors : list string)
    : option string :=
  match ancestors with
  | [] => None
  | a :: ancestors =>
    if fs !! a is Some _ then Some child else blocked fs a ancestors
  end.

(** The directories there are once [d] and the directories above it have
    been made. *)
Definition made (d : string) (e : env) : gset string :=
  {[resolve d]} ∪ list_to_set (parents (resolve d)) ∪ dirs e.

(** [os.makedirs(d, mode=0o775, exist_ok=True)] makes [d] and the
    directories above it that are missing.  A regular file in the place of
    [d] is FileExistsError; a regular file above [d] is NotADirectoryError
    from the [mkdir] just below it. *)
Definition makedirs (d : string) (e : env) : res env unit :=
  let rd := resolve d in
  match files e !! rd with
  | Some _ => Raised (FileExistsError d) e
  | None =>
    match blocked (files e) rd (parents rd) with
    | Some child => Raised (NotADirectoryError child) e
    | None =>
      Done tt (logged (Makedirs d)
                 (mkEnv (fileDir e) (files e) (made d e) (log e)))
    end
  end.

(** What creating a file raises when the directory to hold it is not
    there: a regular file somewhere above is NotADirectoryError, a missing
    directory FileNotFoundError. *)
Definition no_directory (p rp : string) (e : env) : exn :=
  if blocked (files e) rp (parents rp) is Some _ then NotADirectoryError p
  else FileNotFoundError p.

(** [p.touch()]: on a directory or a file that is there it sets the times;
    an absent file is created empty, which needs the directory that is to
    hold it. *)
Definition touch (p : string) (e : env) : res env unit :=
  let rp := resolve p in
  if decide (rp ∈ dirs e) then Done tt (logged (Touch rp) e)
  else
    match files e !! rp with
    | Some _ => Done tt (logged (Touch rp) e)
    | None =>
      if decide (parent rp ∈ dirs e) then
        Done tt (logged (Touch rp)
                   (mkEnv (fileDir e) (<[rp := []]> (files e)) (dirs e) (log e)))
      else Raised (no_directory p rp e) e
    end.

(** Opening [rp] for writing, which empties or creates the file, and
    writing [data]. *)
Definition write (rp : string) (data : bytes) (e : env) : res env unit :=
  if decide (rp ∈ dirs e) then Raised (IsADirectoryError rp) e
  else
    match files e !! rp with
    | None =>
      if decide (parent rp ∈ dirs e) then
        Done tt (logged (Write rp data)
                   (mkEnv (fileDir e) (<[rp := data]> (files e)) (dirs e) (log e)))
      else Raised (no_directory rp rp e) e
    | Some _ =>
      Done tt (logged (Write rp data)
                 (mkEnv (fileDir e) (<[rp := data]> (files e)) (dirs e) (log e)))
    end.

(** [p.exists()], asked of a path that holds a regular file or nothing. *)
Definition path_exists (p : string) (e : env) : bool :=
  bool_decide (is_Some (files e !! resolve p)).

(** Opening for reading and reading everything, at a path that holds a
    regular file or nothing. *)
Definition read (rp : string) (e : env) : res env bytes :=
  match files e !! rp with
  | Some data => Done data (logged (Read rp) e)
  | None => Raised (FileNotFoundError rp) e
  end.

Definition _makeFileExist (filename : string) (e : env) : res env string :=
  let p := joinpath (fileDir e) filename in
  match makedirs (fileDir e) e with
  | Raised x e => Raised x e
  | Done _ e =>
    match touch p e with
    | Raised x e => Raised x e
    | Done _ e =>
      let rp := resolve p in
      Done rp e
    end
  end.

(** A file can be made and written at [fileDir / filename]: no regular
    file is in the place of [fileDir] or above it, the resolved path is not
    a directory, and the file is there already or the directory to hold it
    is, where [os.makedirs] has seen to [fileDir] and the directories above
    it. *)
Definition makeable (filename : string) (e : env) : Prop :=
  let rp := resolve (joinpath (fileDir e) filename) in
  let ds := made (fileDir e) e in
  files e !! resolve (fileDir e) = None
  ∧ blocked (files e) (resolve (fileDir e)) (parents (resolve (fileDir e))) = None
  ∧ (rp ∉ ds)
  ∧ (is_Some (files e !! rp) ∨ parent rp ∈ ds).

Section pickle.
Context {V : Type} `{Pickle V}.

(** [with rp.open('wb') as fx: pickle.dump(dataTuple, fx)]: the file is
    opened, and so emptied, before [pickle] runs. *)
Definition savePickle (filename : string) (dataTuple : V) (e : env) : res env unit :=
  match _makeFileExist filename e with
  | Raised x e => Raised x e
  | Done rp e =>
    match dumps dataTuple with
    | Some data => write rp data e
    | None =>
      match write rp [] e with
      | Raised x e => Raised x e
      | Done _ e => Raised PicklingError e
      end
    end
  end.

Definition loadPickle (filename : string) (e : env) : res env V :=
  let p := joinpath (fileDir e) filename in
  let rp := resolve p in
  match read rp e with
  | Raised x e => Raised x e
  | Done data e =>
    match loads data with
    | Some v => Done v e
    | None => Raised UnpicklingError e
    end
  end.

Definition _gzfilename (filename : string) : string :=
  let fname := filename in
  if endswith fname ".gz" then fname else fname +:+ ".gz".

Context `{Gzip}.

Definition loadPickleGzip (filename : string) (e : env) : res env V :=
  let p := joinpath (fileDir e) (_gzfilename filename) in
  let rp := resolve p in
  match read rp e with
  | Raised x e => Raised x e
  | Done data e =>
    match decompress data with
    | None => Raised (OSError "Not a gzipped file") e
    | Some raw =>
      match loads raw with
      | Some v => Done v e
      | None => Raised UnpicklingError e
      end
    end
  end.

Definition savePickleGzip (filename : string) (dataTuple : V) (e : env) : res env unit :=
  match _makeFileExist (_gzfilename filename) e with
  | Raised x e => Raised x e
  | Done rp e =>
    match dumps dataTuple with
    | Some data => write rp (compress data) e
    | None =>
      match write rp (compress []) e with
      | Raised x e => Raised x e
      | Done _ e => Raised PicklingError e
      end
    end
  end.

End pickle.

Section mat.
Context {A : Type} `{Scipy A}.

(** The name both Mat functions work on:
    [if filename[-4:] != '.mat': filename += '.mat'] *)
Definition matname (filename : string) : string :=
  if negb (String.eqb (slice_from (-4) filename) ".mat")
  then filename +:+ ".mat" else filename.

Definition saveMat (filename : string) (dataDict : gmap string A) (e : env) : res env unit :=
  let filename := matname filename in
  match _makeFileExist filename e with
  | Raised x e => Raised x e
  | Done rp e => write rp (mat_encode dataDict) e
  end.

Definition loadMat (filename : string) (e : env) : res env (gmap string A) :=
  let filename := matname filename in
  let p := joinpath (fileDir e) filename in
  let rp := resolve p in
  if negb (path_exists p e) then Raised (FileNotFoundError p) e
  else
    match read rp e with
    | Raised x e => Raised x e
    | Done raw e =>
      match mat_decode raw with
      | Some data => Done (squeeze <$> data) e
      | None => Raised (Exception "loadmat: not a MAT-file") e
      end
    end.

End mat.
End files.

End Files.

(** ** JSONpickleable *)

Module JSONpickleable.
Import PyStr.

(** The attribute values the methods tell apart.  [VObject] is any other
    object, of a class named [klass] whose MRO goes on with [bases]; it is
    not a container.  A value that is itself a class is a [VObject] whose
    class is a metaclass: "type" is along its MRO. *)
Inductive pyval : Type :=
  | VNone
  | VBytes (b : string)
  | VFunction (module_level : bool) (src : string)
  | VHardwareReference (klassname : string)
  | VSet (names : gset string)
  | VObject (klass : string) (bases : list string) (repr : string).

(** [val.__class__.__name__] *)
Definition class_name (v : pyval) : string :=
  match v with
  | VNone => "NoneType"
  | VBytes _ => "bytes"
  | VFunction _ _ => "function"
  | VHardwareReference _ => "HardwareReference"
  | VSet _ => "set"
  | VObject k _ _ => k
  end.

(** The names along [val.__class__.mro()] *)
Definition class_mro (v : pyval) : list string :=
  match v with
  | VObject k bases _ => k :: bases
  | _ => [class_name v; "object"]
  end.

(** [isinstance(val, HardwareReference)] *)
Definition is_HardwareReference (v : pyval) : bool :=
  match v with VHardwareReference _ => true | _ => false end.

(** The value is an instrument: its class, or a class along the MRO of
    its class, is named VISAObject. *)
Definition is_VISAObject (v : pyval) : bool :=
  String.eqb (class_name v) "VISAObject"
  || existsb (fun b => String.eqb b "VISAObject") (class_mro v).

(** The value is a class: [val.__class__] is a metaclass. *)
Definition is_class (v : pyval) : bool :=
  bool_decide ("type" ∈ class_mro v).

(** [val.__class__.__name__ == 'VISAObject' or
     any(base.__name__ == 'VISAObject' for base in val.__class__.mro())].
    When the name differs the MRO is asked for; on a metaclass
    [val.__class__.mro()] is a call without its argument, and raises
    TypeError: [None]. *)
Definition VISAObject_test (v : pyval) : option bool :=
  if String.eqb (class_name v) "VISAObject" then Some true
  else if is_class v then None
  else Some (existsb (fun b => String.eqb b "VISAObject") (class_mro v)).

(** [jsonpickle.util.is_function], [jsonpickle.util.is_module_function] *)
Definition is_function (v : pyval) : bool :=
  match v with VFunction _ _ => true | _ => false end.
Definition is_module_function (v : pyval) : bool :=
  match v with VFunction m _ => m | _ => false end.

(** *** Dictionaries

    A Python dict keeps its keys in insertion order and the loops below
    assign while they walk a copy, so a dict is the list of its items, in
    that order; the keys of a dict are pairwise distinct ([NoDup (keys d)]),
    which the operations preserve. *)
Abbreviation dict := (list (string * pyval)).

Definition keys (d : dict) : list string := d.*1.

(** [d.get(k)] *)
Fixpoint dict_get (k : string) (d : dict) : option pyval :=
  match d with
  | [] => None
  | (k', v) :: d' => if decide (k = k') then Some v else dict_get k d'
  end.

(** [d[k] = v]: in place for a key already there, else at the end. *)
Fixpoint dict_set (k : string) (v : pyval) (d : dict) : dict :=
  match d with
  | [] => [(k, v)]
  | (k', v') :: d' =>
    if decide (k = k') then (k, v) :: d' else (k', v') :: dict_set k v d'
  end.

Definition dict_remove (k : string) (d : dict) : dict :=
  filter (fun kv => kv.1 ≠ k) d.

(** [del d[k]]: [None] is KeyError. *)
Definition dict_del (k : string) (d : dict) : option dict :=
  if decide (k ∈ keys d) then Some (dict_remove k d) else None.

(** [d.update(other)] *)
Definition dict_update (other d : dict) : dict :=
  foldl (fun d kv => dict_set kv.1 kv.2 d) d other.

(** *** Classes, objects and the heap *)

(** A class along an MRO: its name and what [base.notPickled] evaluates to
    ([None]: AttributeError). *)
Record klass : Type := mkKlass {
  klass_name : string;
  klass_notPickled : option (gset string)
}.

#[global] Instance klass_eq_dec : EqDecision klass.
Proof. solve_decision. Defined.

(** An instance: [type(self).mro()], own class first, and the address of
    its [__dict__]. *)
Record obj : Type := mkObj {
  obj_mro : list klass;
  obj_dict : positive
}.

(** Dict objects by address. *)
Abbreviation heap := (gmap positive dict).

Definition deref (l : positive) (h : heap) : dict := default [] (h !! l).

Definition store (l : positive) (d : dict) (h : heap) : heap := <[l := d]> h.

(** [self.notPickled] on an instance that has no attribute of that name
    of its own: found on its class. *)
Definition self_notPickled (self : obj) : option (gset string) :=
  match obj_mro self with
  | c :: _ => klass_notPickled c
  | [] => None
  end.

(** [self.notPickled]: an entry of the instance's own [__dict__] hides the
    class's. *)
Definition instance_notPickled (self : obj) (h : heap) : option pyval :=
  match dict_get "notPickled" (deref (obj_dict self) h) with
  | Some v => Some v
  | None => VSet <$> self_notPickled self
  end.

(** [type(self).__name__] *)
Definition type_name (self : obj) : string :=
  match obj_mro self with
  | c :: _ => klass_name c
  | [] => "object"
  end.

(** The union [__getstate__] builds over the MRO. *)
Definition allNotPickled (start : gset string) (mro : list klass) : gset string :=
  foldl (fun acc base =>
           match klass_notPickled base with
           | Some theirs => acc ∪ theirs
           | None => acc
           end) start mro.

(** What the module takes from elsewhere: [dill], [jsonpickle]'s unpickler,
    and the attribute names [Hashable.__getstate__] strips for an instance
    of a class with the given MRO names. *)
Class Libs : Type := {
  dill_dumps : pyval → option string;       (* None: dill cannot pickle it *)
  dill_loads : string → option pyval;
  restore : string → heap → res heap obj;
  stripped : list string → string → bool
}.

Section methods.
Context `{Libs}.

(** Modelled from the spec: [Hashable.__getstate__] (class [Hashable] of
    [lightlab.laboratory] is not part of this file).  It hands out a new
    dict with the instance's attributes, without the ones [Hashable]
    strips ("attributes beginning with __"). *)
Definition Hashable_getstate (self : obj) (h : heap) : positive * heap :=
  let state :=
    filter (fun kv => stripped (klass_name <$> obj_mro self) kv.1 = false)
           (deref (obj_dict self) h) in
  let l := fresh (dom h) in
  (l, store l state h).

(** Modelled from the spec: [Hashable.__setstate__] (not part of this
    file).  The entries of [state] become attributes of the object. *)
Definition Hashable_setstate (self : obj) (state : positive) (h : heap) : heap :=
  store (obj_dict self) (dict_update (deref state h) (deref (obj_dict self) h)) h.

(** One turn of the loop of [__getstate__] on the dict at [state]; the
    result is [keys_to_delete]. *)
Definition getstate_item (np : gset string) (state : positive)
    (h : heap) (keys_to_delete : gset string) (kv : string * pyval) :
    res heap (gset string) :=
  let '(key, val) := kv in
  if decide (key ∈ np) then
    Done ({[key]} ∪ keys_to_delete) h
  else
    match VISAObject_test val with
    | None => Raised (TypeError "unbound method type.mro() needs an argument") h
    | Some true =>
      let klassname := class_name val in
      Done keys_to_delete
           (store state
              (dict_set key (VHardwareReference ("Reference to a " +:+ klassname))
                        (deref state h)) h)
    | Some false =>
      if is_function val && negb (is_module_function val) then
        match dill_dumps val with
        | None => Raised PicklingError h
        | Some dump =>
          Done ({[key]} ∪ keys_to_delete)
               (store state
                  (dict_set (key +:+ "_dilled") (VBytes dump) (deref state h)) h)
        end
      else Done keys_to_delete h
    end.

(** [for key, val in state.copy().items()] over the items of the copy. *)
Fixpoint getstate_loop (np : gset string) (state : positive) (items : dict)
    (h : heap) (keys_to_delete : gset string) : res heap (gset string) :=
  match items with
  | [] => Done keys_to_delete h
  | kv :: items' =>
    match getstate_item np state h keys_to_delete kv with
    | Raised e h => Raised e h
    | Done keys_to_delete h => getstate_loop np state items' h keys_to_delete
    end
  end.

(** [for key in keys_to_delete: del state[key]] *)
Fixpoint delete_keys (ks : list string) (state : positive) (h : heap) : res heap unit :=
  match ks with
  | [] => Done tt h
  | k :: ks' =>
    match dict_del k (deref state h) with
    | Some d => delete_keys ks' state (store state d h)
    | None => Raised (KeyError k) h
    end
  end.

(** [__getstate__]; the result is the address of the state dict.  With
    an instance attribute [notPickled] that is not a set, [union] raises
    the AttributeError the loop over the MRO passes over, and the first
    [key in allNotPickled] raises TypeError. *)
Definition __getstate__ (self : obj) (h : heap) : res heap positive :=
  let notPickled := instance_notPickled self h in
  let '(state, h) := Hashable_getstate self h in
  match notPickled with
  | None => Raised (AttributeError "notPickled") h
  | Some (VSet mine) =>
    let np := allNotPickled mine (obj_mro self) in
    match getstate_loop np state (deref state h) h ∅ with
    | Raised e h => Raised e h
    | Done keys_to_delete h =>
      match delete_keys (elements keys_to_delete) state h with
      | Done _ h => Done state h
      | Raised e h => Raised e h
      end
    end
  | Some _ =>
    match deref state h with
    | [] => Done state h
    | _ :: _ => Raised (TypeError "argument is not iterable") h
    end
  end.

(** One turn of the loop shared by [__setstate__] (on the state dict, with
    [del state[key]]) and [_fromJSONcheck] (on the object's [__dict__], with
    [delattr]), on the dict at [l]; [missing] is what deleting an absent key
    raises. *)
Definition restore_item (missing : string → exn) (l : positive) (h : heap)
    (kv : string * pyval) : res heap unit :=
  let '(key, val) := kv in
  if is_HardwareReference val then
    Done tt (store l (dict_set key VNone (deref l h)) h)
  else if String.eqb (slice_from (-7) key) "_dilled" then
    match val with
    | VBytes b =>
      match dill_loads b with
      | Some f =>
        let h := store l (dict_set (slice_to (-7) key) f (deref l h)) h in
        match dict_del key (deref l h) with
        | Some d => Done tt (store l d h)
        | None => Raised (missing key) h
        end
      | None => Raised UnpicklingError h
      end
    | _ => Raised (TypeError "a bytes-like object is required") h
    end
  else Done tt h.

Fixpoint restore_items (missing : string → exn) (items : dict) (l : positive)
    (h : heap) : res heap unit :=
  match items with
  | [] => Done tt h
  | kv :: items' =>
    match restore_item missing l h kv with
    | Done _ h => restore_items missing items' l h
    | Raised e h => Raised e h
    end
  end.

(** [for a in notPickled: d[a] = None] on the dict at [l].  A set has no
    order of its own; the walk takes the one [elements] gives. *)
Definition set_none (np : gset string) (l : positive) (h : heap) : heap :=
  foldl (fun h a => store l (dict_set a VNone (deref l h)) h) h (elements np).

(** [__setstate__]; it runs on an object that is being restored, which
    has no [notPickled] of its own. *)
Definition __setstate__ (self : obj) (state : positive) (h : heap) : res heap unit :=
  match restore_items KeyError (deref state h) state h with
  | Raised e h => Raised e h
  | Done _ h =>
    match self_notPickled self with
    | None => Raised (AttributeError "notPickled") h
    | Some np =>
      let h := set_none np state h in
      Done tt (Hashable_setstate self state h)
    end
  end.

(** [isinstance(restored_object, cls)] *)
Definition isinstance (o : obj) (cls : klass) : bool :=
  bool_decide (cls ∈ obj_mro o).

(** [_fromJSONcheck] *)
Definition _fromJSONcheck (cls : klass) (json_string : string) (h : heap) : res heap obj :=
  match restore json_string h with
  | Raised e h => Raised e h
  | Done restored_object h =>
    if negb (isinstance restored_object cls)
       && negb (String.eqb (type_name restored_object) (klass_name cls))
    then Raised (TypeError "Loaded class is different than intended.") h
    else
      match klass_notPickled cls with
      | None => Raised (AttributeError "notPickled") h
      | Some np =>
        let l := obj_dict restored_object in
        let h := set_none np l h in
        match restore_items AttributeError (deref l h) l h with
        | Raised e h => Raised e h
        | Done _ h => Done restored_object h
        end
      end
  end.

End methods.

(** *** Notions used to state what the methods guarantee *)

(** [k] is in the [notPickled] set of some class along the instance's MRO
    (its own class comes first there). *)
Definition notPickled_somewhere (self : obj) (k : string) : Prop :=
  ∃ c np, c ∈ obj_mro self ∧ klass_notPickled c = Some np ∧ k ∈ np.

(** [k] is the key under which [__getstate__] files the [dill] dump of a
    function-valued attribute [a] that is not itself in [np]. *)
Definition synthesized (np : gset string) (attrs : dict) (k : string) : Prop :=
  ∃ a src, k = a +:+ "_dilled" ∧ (a ∉ np) ∧ (a, VFunction false src) ∈ attrs.

(** No entry of [d] is a [HardwareReference]. *)
Definition no_HardwareReference (d : dict) : Prop :=
  ∀ k v, dict_get k d = Some v → is_HardwareReference v = false.

End JSONpickleable.

(** ** A small concrete setting for examples *)

Module Example.
Import Files JSONpickleable.

(** The part of a path before its last "/": the path without its last
    component (["/"] for a name directly below the root). *)
Fixpoint dirname_from (seen : string) (p : string) : option string :=
  match p with
  | EmptyString => None
  | String c rest =>
    match dirname_from (seen +:+ String c EmptyString) rest with
    | Some d => Some d
    | None => if Ascii.eqb c "/" then Some seen else None
    end
  end.

Definition dirname (p : string) : string :=
  match dirname_from "" p with
  | Some "" => "/"
  | Some d => d
  | None => "."
  end.

(** The directories above [p], nearest first, up to the root; [n] bounds
    their number. *)
Fixpoint parents_from (n : nat) (p : string) : list string :=
  match n with
  | O => []
  | S n =>
    if String.eqb p "/" || String.eqb p "." then []
    else dirname p :: parents_from n (dirname p)
  end.

(** POSIX paths that involve no links and no dot segments: an empty right
    operand adds nothing, an absolute one replaces the left one, and
    resolving changes nothing. *)
Definition posix : Pathlib :=
  {| joinpath d f :=
       if String.eqb f "" then d
       else if String.prefix "/" f then f else d +:+ "/" +:+ f;
     resolve p := p;
     parents p := parents_from (String.length p) p |}.

(** Byte strings, pickled as themselves. *)
Definition raw_pickle : Pickle bytes :=
  {| dumps v := Some v; loads data := Some data |}.

(** Floats as far as [==] goes: NaN, which equals nothing, or a small
    number; pickled with a tag byte. *)
Inductive pyfloat : Type :=
  | NaN
  | Small (b : Byte.byte).

Definition py_eq (a b : pyfloat) : bool :=
  match a, b with
  | Small x, Small y => Byte.eqb x y
  | _, _ => false
  end.

Definition float_pickle : Pickle pyfloat :=
  {| dumps v :=
       Some match v with
            | NaN => [Byte.x00]
            | Small b => [Byte.x01; b]
            end;
     loads data :=
       match data with
       | [Byte.x00] => Some NaN
       | [Byte.x01; b] => Some (Small b)
       | _ => None
       end |}.

Definition stored_gzip : Gzip :=
  {| compress data := data; decompress data := Some data |}.

(** A stand-in codec: every dictionary is stored as an empty file, and no
    file decodes. *)
Definition scalar_mat : Scipy Z :=
  {| mat_encode d := [];
     mat_decode data := None;
     squeeze a := a |}.

(** A fresh data directory: nothing is there but the root. *)
Definition empty_env : env := mkEnv "/data" ∅ {["/"]} [].

(** A clock that never makes [tims] fail, and one on which the expected
    completion time is out of range when more than 2^40 times the points
    done so far are still to come. *)
Definition steady : ProgressWriter.Clock :=
  {| ProgressWriter.tims_error _ := None |}.
Definition bounded_clock : ProgressWriter.Clock :=
  {| ProgressWriter.tims_error st :=
       if 2 ^ 40 <? ProgressWriter.totalSize st / (ProgressWriter.ofTotal st + 1)
       then Some (OverflowError "timestamp out of range for platform time_t")
       else None |}.

(** An instrument bench: class [Bench] with the given [notPickled], below
    [JSONpickleable], [Hashable] and [object]. *)
Definition bench_mro (np : gset string) : list klass :=
  [mkKlass "Bench" (Some np); mkKlass "JSONpickleable" (Some ∅);
   mkKlass "Hashable" None; mkKlass "object" None].

(** [dill] keeps the source text of a function, and pickles nothing else;
    [Hashable] strips names that start with two underscores; the unpickler
    knows one document, a bench with a placeholder for its scope. *)
Definition libs : Libs :=
  {| dill_dumps v := match v with VFunction _ src => Some src | _ => None end;
     dill_loads b := Some (VFunction false b);
     restore json h :=
       if String.eqb json "{bench}" then
         let l := fresh (dom h) in
         Done (mkObj (bench_mro {["laser"]}) l)
              (store l [("scope", VHardwareReference "Reference to a Scope");
                        ("gain", VObject "int" ["object"] "3")] h)
       else Raised (TypeError "not a pickled object") h;
     stripped mro k := String.prefix "__" k |}.

(** A bench whose laser is a live instrument and is not to be pickled. *)
Definition bench : obj := mkObj (bench_mro {["laser"]}) 1.
Definition bench_heap : heap :=
  {[ 1%positive := [("laser", VObject "Laser" ["VISAObject"; "object"] "GPIB::3");
                    ("gain", VObject "int" ["object"] "3")] ]}.

(** A bench that declares the name [f_dilled] not pickled and holds a
    lambda in [f]. *)
Definition lambda_bench : obj := mkObj (bench_mro {["f_dilled"]}) 1.
Definition lambda_heap : heap :=
  {[ 1%positive := [("f", VFunction false "lambda x: x")] ]}.

(** A new, still empty bench at address 1 and a stored state at address 2
    with a placeholder for the scope. *)
Definition stored_heap (state : dict) : heap :=
  {[ 1%positive := []; 2%positive := state ]}.
Definition scope_state : dict :=
  [("scope", VHardwareReference "Reference to a Scope");
   ("gain", VObject "int" ["object"] "3")].

(** The same state with a dill dump filed under [scope_dilled]. *)
Definition clashing_state : dict :=
  [("scope", VHardwareReference "Reference to a Scope");
   ("scope_dilled", VBytes "lambda: 0")].

End Example.

(** ** Pickled states in closed form *)

(** What [__getstate__] and [__setstate__] compute, entry by entry, to
    compare with the loops above. *)
Module Pickled.
Import PyStr JSONpickleable.

(** The attribute is dumped with [dill]: rule 3 of [__getstate__]. *)
Definition dilled_attr (np : gset string) (k : string) (v : pyval) : Prop :=
  (k ∉ np) ∧ is_VISAObject v = false
  ∧ is_function v && negb (is_module_function v) = true.

Section entries.
Context `{Libs}.

(** What [__getstate__] is to hold under key [k], read off the instance's
    attributes [attrs]: [np] is the union of the [notPickled] sets and
    [mro] the class names along the MRO. *)
Definition state_entry (np : gset string) (mro : list string) (attrs : dict)
    (k : string) : option pyval :=
  match dict_get k attrs with
  | Some v =>
    if stripped mro k || bool_decide (k ∈ np) then None
    else if is_VISAObject v
         then Some (VHardwareReference ("Reference to a " +:+ class_name v))
    else if is_function v && negb (is_module_function v) then None
    else Some v
  | None =>
    if String.eqb (slice_from (-7) k) "_dilled" then
      let a := slice_to (-7) k in
      match dict_get a attrs with
      | Some f =>
        if negb (stripped mro a) && negb (bool_decide (a ∈ np))
           && negb (is_VISAObject f)
           && (is_function f && negb (is_module_function f))
        then VBytes <$> dill_dumps f else None
      | None => None
      end
    else None
  end.

(** A state as [__getstate__] leaves it: distinct keys, and every key that
    ends in "_dilled" carries bytes that [dill] can load and has no entry
    under its stem. *)
Definition tidy (S : dict) : Prop :=
  NoDup (keys S)
  ∧ ∀ k v, (k, v) ∈ S → slice_from (-7) k = "_dilled" →
           (∃ b f, v = VBytes b ∧ dill_loads b = Some f)
           ∧ slice_to (-7) k ∉ keys S.

(** The entry under [k] once the restoring loop has walked [S]. *)
Definition after_restore (S : dict) (k : string) : option pyval :=
  match dict_get k S with
  | Some v =>
    if is_HardwareReference v then Some VNone
    else if String.eqb (slice_from (-7) k) "_dilled" then None
    else Some v
  | None =>
    match dict_get (k +:+ "_dilled") S with
    | Some (VBytes b) => dill_loads b
    | _ => None
    end
  end.

(** The attribute under [k] of an object restored from the state of an
    instance with attributes [attrs]; [mine] is the [notPickled] of the
    instance's own class, [np] the union along its MRO. *)
Definition restored_entry (mine np : gset string) (mro : list string)
    (attrs : dict) (k : string) : option pyval :=
  if bool_decide (k ∈ mine) then Some VNone
  else
    match dict_get k attrs with
    | Some v =>
      if stripped mro k || bool_decide (k ∈ np) then None
      else if is_VISAObject v || is_HardwareReference v then Some VNone
      else Some v
    | None => None
    end.

End entries.

End Pickled.

(** ** [JSONpickleable.copy], [save] and [load] *)

Module JSONfile.
Import PyStr JSONpickleable.

(** The builtin [open(name)] in text mode on a POSIX host: written text is
    stored as it is, and reading turns ["\r\n"] and a lone ["\r"] into
    ["\n"]. *)
Fixpoint universal_newlines (s : string) : string :=
  match s with
  | EmptyString => EmptyString
  | String c rest =>
    if Ascii.eqb c "013" then
      String "010"
        match rest with
        | String c' rest' =>
          if Ascii.eqb c' "010" then universal_newlines rest'
          else universal_newlines rest
        | EmptyString => EmptyString
        end
    else String c (universal_newlines rest)
  end.

(** The dicts on the heap and the text files by name.  [save] and [load]
    hand the name to [open] as it is: [fileDir] plays no part. *)
Record world : Type := mkWorld {
  objects : heap;
  texts : gmap string string
}.

(** A result over the heap, in the world with the text files [t]. *)
Definition with_texts {A : Type} (t : gmap string string) (r : res heap A) :
    res world A :=
  match r with
  | Done a h => Done a (mkWorld h t)
  | Raised e h => Raised e (mkWorld h t)
  end.

(** What the three methods take from elsewhere: [_toJSON], inherited from
    [Hashable], and whether [open(name, 'w')] can make the file. *)
Class Host : Type := {
  _toJSON : obj → heap → res heap string;
  creatable : string → bool
}.

(** [type(self)] *)
Definition type_of (self : obj) : klass :=
  match obj_mro self with
  | c :: _ => c
  | [] => mkKlass "object" None
  end.

(** [if filename[-5:] != '.json': filename += '.json'] *)
Definition json_name (filename : string) : string :=
  if negb (String.eqb (slice_from (-5) filename) ".json")
  then filename +:+ ".json" else filename.

Section methods.
Context `{Libs} `{Host}.

(** [copy] *)
Definition copy (self : obj) (h : heap) : res heap obj :=
  match _toJSON self h with
  | Raised e h => Raised e h
  | Done json h => _fromJSONcheck (type_of self) json h
  end.

(** [save]: the file is opened, and so emptied, before [_toJSON] runs. *)
Definition save (self : obj) (filename : string) (w : world) : res world unit :=
  let filename := json_name filename in
  if creatable filename then
    let t := <[filename := ""]> (texts w) in
    match _toJSON self (objects w) with
    | Raised e h => Raised e (mkWorld h t)
    | Done json h => Done tt (mkWorld h (<[filename := json]> t))
    end
  else Raised (OSError filename) w.

(** [load] *)
Definition load (cls : klass) (filename : string) (w : world) : res world obj :=
  let filename := json_name filename in
  match texts w !! filename with
  | None => Raised (FileNotFoundError filename) w
  | Some text =>
    let frozen := universal_newlines text in
    with_texts (texts w) (_fromJSONcheck cls frozen (objects w))
  end.

End methods.

End JSONfile.

(** ** More to run *)

Module Scenario.
Import Files JSONpickleable JSONfile.

(** A bench with a live laser, a gain and a lambda, and next to it, at
    address 2, the still empty dict of a second bench. *)
Definition workshop : heap :=
  {[ 1%positive := [("laser", VObject "Laser" ["VISAObject"; "object"] "GPIB::3");
                    ("gain", VObject "int" ["object"] "3");
                    ("f", VFunction false "lambda x: x")];
     2%positive := [] ]}.
Definition twin : obj := mkObj (Example.bench_mro {["laser"]}) 2.

(** A bench that keeps the class of its gain in an attribute. *)
Definition typed_workshop : heap :=
  {[ 1%positive := [("gain", VObject "int" ["object"] "3");
                    ("kind", VObject "type" ["object"] "<class 'int'>")] ]}.


(** A stored state whose dump is a [str], not bytes. *)
Definition broken_state : dict :=
  [("gain", VObject "int" ["object"] "3");
   ("f_dilled", VObject "str" ["object"] "lambda x: x")].

(** An instance of a class without [notPickled]. *)
Definition plain : obj :=
  mkObj [mkKlass "Hashable" None; mkKlass "object" None] 1.

(** [_toJSON] asks for the state and renders every state as the one
    document [Example.libs] restores; files can be made below [/data]. *)
Definition host : Host :=
  {| _toJSON self h :=
       match @__getstate__ Example.libs self h with
       | Done _ h => Done "{bench}" h
       | Raised e h => Raised e h
       end;
     creatable name := String.prefix "/data/" name |}.

(** The bench of [Example] in a world without files, and in one where it
    was saved before. *)
Definition empty_world : world := mkWorld Example.bench_heap ∅.
Definition saved_world : world :=
  mkWorld Example.bench_heap {[ "/data/bench.json" := "{bench}" ]}.

End Scenario.

(** * Properties *)

(** ** The sweep counter *)

Module ProgressWriterFacts.
Import ProgressWriter.

(** *** int64 arithmetic *)

Lemma wrap64_range z : - 2 ^ 63 ≤ wrap64 z < 2 ^ 63.
Proof. unfold wrap64. pose proof (Z.mod_pos_bound (z + 2 ^ 63) (2 ^ 64)). lia. Qed.

Lemma wrap64_small z : - 2 ^ 63 ≤ z < 2 ^ 63 → wrap64 z = z.
Proof. intros H. unfold wrap64. rewrite Z.mod_small; lia. Qed.

Lemma wrap64_le z : 0 ≤ z → wrap64 z ≤ z.
Proof.
  intros H. unfold wrap64.
  pose proof (Z.mod_le (z + 2 ^ 63) (2 ^ 64)). lia.
Qed.

Lemma wrap64_mod z : wrap64 z mod 2 ^ 64 = z mod 2 ^ 64.
Proof.
  unfold wrap64.
  rewrite Zminus_mod_idemp_l. f_equal. lia.
Qed.

(** *** The loop of [__updateOneInternal] is [incr] on the reversed arrays *)

Lemma from_end_last (n i : nat) : from_end (n + 1 + i) i = Some n.
Proof.
  unfold from_end. destruct (Nat.ltb_spec i (n + 1 + i)); [f_equal; lia | lia].
Qed.

Lemma odometer_incr (rc rs ssuf suf : list Z) :
  length rc = length rs → length ssuf = length suf →
  odometer (length rc) (length suf) (rev rs ++ ssuf) (rev rc ++ suf)
  = Done tt (rev (incr rs rc) ++ suf).
Proof.
  revert rs ssuf suf. induction rc as [|c rc IH]; intros [|s rs] ssuf suf Hl Hs;
    simpl in Hl; try discriminate; [reflexivity|].
  injection Hl as Hl.
  cbn [rev]. rewrite <- !app_assoc. cbn [app length odometer].
  rewrite !length_app, !length_rev. cbn [length].
  rewrite Hs, <- Hl.
  replace (length rc + S (length suf))%nat with (length rc + 1 + length suf)%nat by lia.
  rewrite from_end_last. cbn [mbind option_bind].
  rewrite !list_lookup_middle by (rewrite length_rev; lia).
  cbn [fmap option_fmap option_map incr].
  destruct (c <? wrap64 (s - 1)).
  - f_equal. cbn [rev]. rewrite <- app_assoc. cbn [app].
    replace (length rc) with (length (rev rc) + 0)%nat at 1 by (rewrite length_rev; lia).
    rewrite insert_app_r. reflexivity.
  - replace (length rc) with (length (rev rc) + 0)%nat at 2 by (rewrite length_rev; lia).
    rewrite insert_app_r.
    change (<[0%nat:=0]> (c :: suf)) with (0 :: suf).
    specialize (IH rs (s :: ssuf) (0 :: suf) Hl). cbn [length] in IH.
    rewrite IH by (simpl; lia).
    cbn [rev]. rewrite <- app_assoc. reflexivity.
Qed.

Lemma odometer_spec (sz cur : list Z) :
  length cur = length sz →
  odometer (length sz) 0 sz cur = Done tt (rev (incr (rev sz) (rev cur))).
Proof.
  intros Hl.
  pose proof (odometer_incr (rev cur) (rev sz) [] []) as H.
  rewrite !rev_involutive, !app_nil_r, !length_rev in H.
  rewrite <- Hl. apply H; [lia | reflexivity].
Qed.

(** *** [np.prod] against the mathematical product *)

Lemma wrap64_mul_r a b : wrap64 (a * wrap64 b) = wrap64 (a * b).
Proof.
  unfold wrap64 at 1 3. f_equal.
  rewrite <- (Zplus_mod_idemp_l (a * wrap64 b)), <- (Zplus_mod_idemp_l (a * b)).
  f_equal. f_equal.
  rewrite <- (Zmult_mod_idemp_r (wrap64 b)), wrap64_mod, Zmult_mod_idemp_r.
  reflexivity.
Qed.

Lemma np_prod_wrap l : np_prod l = wrap64 (prod l).
Proof.
  induction l as [|s l IH]; [reflexivity|].
  cbn [np_prod prod fold_right]. fold (np_prod l). fold (prod l).
  rewrite IH. apply wrap64_mul_r.
Qed.

Lemma prod_pos l : Forall (fun s => 1 ≤ s) l → 1 ≤ prod l.
Proof.
  induction 1 as [|s l Hs Hl IH]; cbn [prod fold_right]; [lia|].
  fold (prod l). nia.
Qed.

Lemma prod_app l1 l2 : prod (l1 ++ l2) = prod l1 * prod l2.
Proof.
  induction l1 as [|s l1 IH]; cbn [prod fold_right app].
  - fold (prod l2). lia.
  - fold (prod (l1 ++ l2)). fold (prod l1). rewrite IH. lia.
Qed.

Lemma prod_rev l : prod (rev l) = prod l.
Proof.
  induction l as [|s l IH]; [reflexivity|].
  cbn [rev]. rewrite prod_app, IH. cbn [prod fold_right]. fold (prod l). lia.
Qed.

Lemma prod_ge_elem l s :
  Forall (fun s => 1 ≤ s) l → s ∈ l → s ≤ prod l.
Proof.
  induction 1 as [|x l Hx Hl IH]; intros Hin.
  - inversion Hin.
  - cbn [prod fold_right]. fold (prod l). pose proof (prod_pos l Hl).
    apply elem_of_cons in Hin as [->|Hin]; [nia|].
    specialize (IH Hin). nia.
Qed.

(** *** One step of the counter *)

Lemma Forall2_rev_intro {A B} (R : A → B → Prop) l k :
  Forall2 R l k → Forall2 R (rev l) (rev k).
Proof.
  induction 1 as [|x y l k Hxy Hlk IH]; cbn [rev]; [constructor|].
  apply Forall2_app; [exact IH | repeat constructor; exact Hxy].
Qed.

Lemma incr_length sz cur : length (incr sz cur) = length cur.
Proof.
  revert sz. induction cur as [|c cur IH]; intros [|s sz]; cbn [incr]; try reflexivity.
  destruct (c <? wrap64 (s - 1)); cbn [length]; [reflexivity | by rewrite IH].
Qed.

Lemma incr_bounded sz cur :
  Forall2 (fun c s => 0 ≤ c ≤ s - 1) cur sz →
  Forall2 (fun c s => 0 ≤ c ≤ s - 1) (incr sz cur) sz.
Proof.
  induction 1 as [|c s cur sz Hc Hrest IH]; cbn [incr]; [constructor|].
  destruct (Z.ltb_spec c (wrap64 (s - 1))) as [Hlt|Hge].
  - constructor; [|exact Hrest].
    pose proof (wrap64_le (s - 1)) as Hle.
    pose proof (wrap64_range (s - 1)) as Hr.
    rewrite wrap64_small; lia.
  - constructor; [lia | exact IH].
Qed.

Lemma le_digits_length sz k : length (le_digits sz k) = length sz.
Proof.
  revert k. induction sz as [|s sz IH]; intros k; cbn [le_digits length]; [reflexivity|].
  by rewrite IH.
Qed.

Lemma succ_div_mod (k s : Z) :
  0 ≤ k → 0 < s →
  (k mod s < s - 1 ∧ (k + 1) mod s = k mod s + 1 ∧ (k + 1) / s = k / s) ∨
  (k mod s = s - 1 ∧ (k + 1) mod s = 0 ∧ (k + 1) / s = k / s + 1).
Proof.
  intros Hk Hs.
  pose proof (Z.div_mod k s ltac:(lia)) as Hdm.
  pose proof (Z.mod_pos_bound k s Hs) as Hb.
  destruct (Z.eq_dec (k mod s) (s - 1)) as [He|Hne].
  - right. split; [exact He|].
    assert (k + 1 = s * (k / s + 1) + 0) as Heq by lia.
    split.
    + symmetry. apply (Z.mod_unique_pos _ _ (k / s + 1)); lia.
    + symmetry. apply (Z.div_unique_pos _ _ _ 0); lia.
  - left. split; [lia|].
    assert (k + 1 = s * (k / s) + (k mod s + 1)) as Heq by lia.
    split.
    + symmetry. apply (Z.mod_unique_pos _ _ (k / s)); lia.
    + symmetry. apply (Z.div_unique_pos _ _ _ (k mod s + 1)); lia.
Qed.

Lemma incr_le_digits sz k :
  Forall int64_size sz → 0 ≤ k →
  incr sz (le_digits sz k) = le_digits sz (k + 1).
Proof.
  intros Hsz. revert k. induction Hsz as [|s sz Hs Hsz IH]; intros k Hk; [reflexivity|].
  cbn [le_digits incr]. unfold int64_size in Hs.
  rewrite (wrap64_small (s - 1)) by lia.
  pose proof (Z.mod_pos_bound k s ltac:(lia)) as Hb.
  destruct (succ_div_mod k s Hk ltac:(lia)) as [(Hlt & Hm & Hd)|(Heq & Hm & Hd)].
  - destruct (Z.ltb_spec (k mod s) (s - 1)); [|lia].
    rewrite wrap64_small by lia. by rewrite Hm, Hd.
  - destruct (Z.ltb_spec (k mod s) (s - 1)); [lia|].
    rewrite Hm, Hd. f_equal. apply IH.
    apply Z.div_pos; lia.
Qed.

Lemma le_digits_snoc l s k :
  Forall (fun s => 1 ≤ s) l →
  le_digits (l ++ [s]) k = le_digits l k ++ [(k / prod l) mod s].
Proof.
  intros Hl. revert k. induction Hl as [|a l Ha Hl IH]; intros k.
  - cbn. by rewrite Z.div_1_r.
  - cbn [app le_digits prod fold_right]. fold (prod l). rewrite IH.
    pose proof (prod_pos l Hl).
    rewrite Z.div_div by lia. reflexivity.
Qed.

Lemma le_digits_rev sz k :
  Forall (fun s => 1 ≤ s) sz →
  le_digits (rev sz) k = rev (mixed_radix sz k).
Proof.
  induction 1 as [|s sz Hs Hsz IH]; [reflexivity|].
  cbn [rev mixed_radix]. rewrite le_digits_snoc, prod_rev, IH; [reflexivity|].
  by apply Forall_rev.
Qed.

(** *** Steps of the reporter *)

Lemma updateOneInternal_step st :
  length (currentPnt st) = length (size st) →
  updateOneInternal st = Done tt (step_state st).
Proof.
  intros Hl. unfold updateOneInternal. by rewrite odometer_spec.
Qed.

Lemma step_state_bounded st : bounded st → bounded (step_state st).
Proof.
  unfold bounded. cbn [step_state currentPnt size]. intros H.
  rewrite <- (rev_involutive (size st)) at 2.
  apply Forall2_rev_intro, incr_bounded, Forall2_rev_intro, H.
Qed.

Lemma bounded_length st : bounded st → length (currentPnt st) = length (size st).
Proof. apply Forall2_length. Qed.

Lemma updateSteps_bounded n st :
  bounded st →
  ∃ st', updateSteps n st = Done tt st' ∧ bounded st' ∧ size st' = size st.
Proof.
  revert st. induction n as [|n IH]; intros st Hb; cbn [updateSteps].
  - by exists st.
  - rewrite updateOneInternal_step by by apply bounded_length.
    destruct (IH (step_state st) (step_state_bounded st Hb)) as (st' & -> & Hb' & Hs).
    by exists st'.
Qed.

Lemma step_state_length st :
  length (currentPnt st) = length (size st) →
  length (currentPnt (step_state st)) = length (size (step_state st)).
Proof.
  intros Hl. cbn [step_state currentPnt size].
  by rewrite length_rev, incr_length, length_rev.
Qed.

Lemma updateSteps_length n st :
  length (currentPnt st) = length (size st) →
  ∃ st', updateSteps n st = Done tt st'
         ∧ length (currentPnt st') = length (size st').
Proof.
  revert st. induction n as [|n IH]; intros st Hl; cbn [updateSteps].
  - by exists st.
  - rewrite updateOneInternal_step by done. by apply IH, step_state_length.
Qed.

Lemma same_counter_refl st : same_counter st st.
Proof. by repeat split. Qed.

Lemma same_counter_sym s s' : same_counter s s' → same_counter s' s.
Proof. unfold same_counter. intros (-> & -> & -> & -> & -> & -> & ->). done. Qed.

Lemma same_counter_trans s1 s2 s3 :
  same_counter s1 s2 → same_counter s2 s3 → same_counter s1 s3.
Proof.
  unfold same_counter.
  intros (<- & <- & <- & <- & <- & <- & <-) (<- & <- & <- & <- & <- & <- & <-). done.
Qed.

Lemma same_counter_bounded st st' : same_counter st st' → bounded st → bounded st'.
Proof. unfold bounded. intros (-> & -> & _). done. Qed.

Lemma emit_same_counter o st : same_counter st (emit o st).
Proof. by repeat split. Qed.

Lemma when_emit_same_counter b o st : same_counter st (when b (emit o) st).
Proof. destruct b; [apply emit_same_counter | apply same_counter_refl]. Qed.

Lemma mixed_radix_length sz k : length (mixed_radix sz k) = length sz.
Proof. induction sz as [|s sz IH]; cbn [mixed_radix length]; congruence. Qed.

Lemma mixed_radix_0 sz : mixed_radix sz 0 = map (fun _ => 0) sz.
Proof.
  induction sz as [|s sz IH]; [reflexivity|].
  cbn [mixed_radix map]. by rewrite IH, Zdiv_0_l, Zmod_0_l.
Qed.

Lemma fits_int64 sz :
  Forall (fun s => 1 ≤ s) sz → prod sz < 2 ^ 63 → Forall int64_size sz.
Proof.
  intros Hpos Hfit. apply Forall_forall. intros s Hs.
  pose proof (prod_ge_elem sz s Hpos Hs).
  pose proof (proj1 (Forall_forall _ _) Hpos s Hs). unfold int64_size. simpl in *. lia.
Qed.

Lemma mixed_radix_succ sz k :
  Forall int64_size sz → 0 ≤ k →
  rev (incr (rev sz) (rev (mixed_radix sz k))) = mixed_radix sz (k + 1).
Proof.
  intros Hsz Hk.
  assert (Forall (fun s => 1 ≤ s) sz) as Hpos.
  { eapply Forall_impl; [exact Hsz|]. unfold int64_size. simpl. lia. }
  rewrite <- !le_digits_rev by done.
  rewrite incr_le_digits; [| by apply Forall_rev | done].
  rewrite le_digits_rev by done. apply rev_involutive.
Qed.

Lemma step_at_count sz k st :
  Forall int64_size sz → 0 ≤ k →
  at_count sz k st → at_count sz (k + 1) (step_state st).
Proof.
  intros Hsz Hk (Hs & Hc & Ht & Ho). unfold at_count. cbn [step_state size currentPnt totalSize ofTotal].
  rewrite Hs, Hc, Ho, mixed_radix_succ by done. done.
Qed.

Lemma at_count_same_counter sz k st st' :
  same_counter st st' → at_count sz k st → at_count sz k st'.
Proof. unfold at_count. intros (-> & -> & -> & -> & _). done. Qed.

(** *** The report, and the clock *)

Section clock.
Context `{Clock}.

Lemma writeHtml_same_counter st : same_counter st (res_state (writeHtml st)).
Proof.
  unfold writeHtml. destruct (if totalSize st =? 0 then None else tims_error st);
    cbn [res_state]; [apply same_counter_refl|].
  destruct (serving st); [apply emit_same_counter | apply same_counter_refl].
Qed.

(** The page is written when nothing is to be rendered ([totalSize = 0])
    or the clock lets [tims] format. *)
Lemma writeHtml_Done st :
  totalSize st = 0 ∨ tims_error st = None →
  writeHtml st
  = Done tt (if serving st then emit (HtmlProgress (currentPnt st) (ofTotal st)) st
             else st).
Proof.
  unfold writeHtml. intros [-> | ->]; [reflexivity|].
  by destruct (totalSize st =? 0).
Qed.


Lemma report_same_counter st : same_counter st (res_state (report st)).
Proof.
  unfold report. destruct (completed st); cbn [res_state].
  { eapply same_counter_trans; [|apply when_emit_same_counter].
    apply when_emit_same_counter. }
  destruct (serving st) eqn:Es.
  - pose proof (writeHtml_same_counter st) as Hw.
    destruct (writeHtml st) as [[] st'|e st']; cbn [res_state] in *; [|done].
    eapply same_counter_trans; [exact Hw|]. unfold when, writeStdio.
    destruct (printing st'); [apply emit_same_counter | apply same_counter_refl].
  - unfold when, writeStdio.
    destruct (printing st); [apply emit_same_counter | apply same_counter_refl].
Qed.

(** A report that does not ask the clock, or is let through by it,
    returns. *)
Lemma report_Done st :
  completed st = true ∨ serving st = false ∨ totalSize st = 0 ∨ tims_error st = None →
  raised (report st) = false.
Proof.
  unfold report. intros Hok. destruct (completed st); [done|].
  destruct (serving st); [|done].
  rewrite writeHtml_Done; [done|].
  destruct Hok as [?|[?|[?|?]]]; [done | done | by left | by right].
Qed.


Lemma page_renders_same_counter st st' :
  same_counter st st' → page_renders st → page_renders st'.
Proof. unfold page_renders. intros (_ & _ & _ & _ & _ & -> & _). done. Qed.

Lemma page_renders_step st : page_renders st → page_renders (step_state st).
Proof. done. Qed.

Lemma report_Done_renders st : page_renders st → raised (report st) = false.
Proof.
  intros Hp. apply report_Done. destruct (serving st) eqn:Es; [|tauto].
  right. right. right. by apply Hp.
Qed.

(** What a result is when it is known not to have raised. *)
Lemma not_raised {S} (r : res S unit) : raised r = false → r = Done tt (res_state r).
Proof. by destruct r as [[] s|e s]. Qed.

(** *** The constructor *)

Lemma init_same_counter nm swp rs sp :
  same_counter
    (mk nm (sizes_of swp) (map (fun _ => 0) (sizes_of swp)) (np_prod (sizes_of swp))
        0 false rs sp [])
    (init nm swp rs sp).
Proof.
  unfold init, __init__. cbv zeta.
  set (st0 := mk _ _ _ _ _ _ _ _ _). destruct rs.
  - set (st1 := emit PrintUrl _).
    assert (same_counter st0 st1) as H01.
    { subst st1. eapply same_counter_trans; apply emit_same_counter. }
    pose proof (writeHtml_same_counter st1) as Hw.
    destruct (writeHtml st1) as [[] st2|e st2]; cbn [res_state] in *.
    + eapply same_counter_trans; [exact H01|]. eapply same_counter_trans; [exact Hw|].
      unfold when. destruct sp; [|apply same_counter_refl].
      unfold writeStdio.
      eapply same_counter_trans; [apply emit_same_counter|].
      eapply same_counter_trans; apply emit_same_counter.
    + eapply same_counter_trans; [exact H01 | exact Hw].
  - cbn [res_state]. unfold when. destruct sp; [|apply same_counter_refl].
    unfold writeStdio.
    eapply same_counter_trans; [apply emit_same_counter|].
    eapply same_counter_trans; apply emit_same_counter.
Qed.

Lemma init_counters nm swp rs sp :
  size (init nm swp rs sp) = sizes_of swp
  ∧ currentPnt (init nm swp rs sp) = map (fun _ => 0) (sizes_of swp)
  ∧ totalSize (init nm swp rs sp) = np_prod (sizes_of swp)
  ∧ ofTotal (init nm swp rs sp) = 0
  ∧ completed (init nm swp rs sp) = false
  ∧ serving (init nm swp rs sp) = rs
  ∧ printing (init nm swp rs sp) = sp.
Proof. apply (init_same_counter nm swp rs sp). Qed.

Lemma init_length nm swp rs sp :
  length (currentPnt (init nm swp rs sp)) = length (size (init nm swp rs sp)).
Proof.
  destruct (init_counters nm swp rs sp) as (-> & -> & _). apply length_map.
Qed.

Lemma init_bounded nm swp rs sp :
  Forall (fun s => 1 ≤ s) (sizes_of swp) → bounded (init nm swp rs sp).
Proof.
  intros Hpos. unfold bounded.
  destruct (init_counters nm swp rs sp) as (-> & -> & _).
  induction Hpos; cbn [map]; constructor; [lia | assumption].
Qed.

Lemma init_at_count nm swp rs sp :
  Forall (fun s => 1 ≤ s) (sizes_of swp) → prod (sizes_of swp) < 2 ^ 63 →
  at_count (sizes_of swp) 0 (init nm swp rs sp)
  ∧ completed (init nm swp rs sp) = false.
Proof.
  intros Hpos Hfit.
  assert (np_prod (sizes_of swp) = prod (sizes_of swp)) as Hnp.
  { rewrite np_prod_wrap. pose proof (prod_pos _ Hpos). apply wrap64_small. lia. }
  unfold at_count. rewrite mixed_radix_0, <- Hnp.
  destruct (init_counters nm swp rs sp) as (-> & -> & -> & -> & -> & _). done.
Qed.

(** The constructor returns when no page is to be written, when there is
    nothing to render, or when the clock lets [tims] format. *)
Lemma init_Done nm swp rs sp :
  rs = false ∨ np_prod (sizes_of swp) = 0 ∨ (∀ s, tims_error s = None) →
  __init__ nm swp rs sp = Done tt (init nm swp rs sp).
Proof.
  intros Hok. unfold init. apply not_raised. unfold __init__. cbv zeta.
  destruct rs; [|done].
  rewrite writeHtml_Done; [done|].
  destruct Hok as [?|[?|?]]; [done | by left | by right].
Qed.

(** *** Calls of [update] *)

Lemma update_unfold steps st :
  completed st = false → length (currentPnt st) = length (size st) →
  ∃ st1, updateSteps (Z.to_nat steps) st = Done tt st1
         ∧ update steps st = report st1.
Proof.
  intros Hc Hl. unfold update. rewrite Hc.
  destruct (updateSteps_length (Z.to_nat steps) st Hl) as (st1 & Hrun & _).
  exists st1. by rewrite Hrun.
Qed.

Lemma update1_unfold st :
  completed st = false → length (currentPnt st) = length (size st) →
  update 1 st = report (step_state st).
Proof.
  intros Hc Hl. unfold update. rewrite Hc.
  change (Z.to_nat 1) with 1%nat. cbn [updateSteps].
  by rewrite updateOneInternal_step.
Qed.

Lemma update1_at_count sz k st :
  Forall int64_size sz → 0 ≤ k →
  at_count sz k st → completed st = false →
  at_count sz (k + 1) (res_state (update 1 st))
  ∧ completed (res_state (update 1 st)) = (k + 1 =? prod sz).
Proof.
  intros Hsz Hk Hat Hc. rewrite update1_unfold; [|done|].
  2:{ destruct Hat as (-> & -> & _). apply mixed_radix_length. }
  pose proof (step_at_count sz k st Hsz Hk Hat) as Hat'.
  pose proof (report_same_counter (step_state st)) as Hsame.
  split; [by eapply at_count_same_counter|].
  destruct Hsame as (_ & _ & _ & _ & -> & _).
  cbn [step_state completed]. rewrite Hc.
  destruct Hat as (_ & _ & -> & ->). by destruct (k + 1 =? prod sz).
Qed.

Lemma update1_Done st :
  completed st = false → length (currentPnt st) = length (size st) →
  serving st = false ∨ totalSize st = 0 ∨ (∀ s, tims_error s = None) →
  update 1 st = Done tt (res_state (update 1 st)).
Proof.
  intros Hc Hl Hok. apply not_raised. rewrite update1_unfold by done.
  apply report_Done. cbn [step_state serving totalSize].
  destruct Hok as [?|[?|?]]; [tauto | tauto |]. right. right. right. done.
Qed.

Lemma calls_succ n st :
  calls (N.succ n) st =
  match calls n st with
  | Done _ s => update 1 s
  | Raised e s => Raised e s
  end.
Proof. unfold calls. by rewrite N.iter_succ. Qed.

(** Calls that have all returned have counted. *)
Lemma calls_at_count nm swp rs sp (n : N) st' :
  Forall (fun s => 1 ≤ s) (sizes_of swp) → prod (sizes_of swp) < 2 ^ 63 →
  Z.of_N n < prod (sizes_of swp) →
  calls n (init nm swp rs sp) = Done tt st' →
  at_count (sizes_of swp) (Z.of_N n) st' ∧ completed st' = false.
Proof.
  intros Hpos Hfit. revert st'.
  induction n as [|n IH] using N.peano_ind; intros st' Hn.
  - intros [= <-]. by apply init_at_count.
  - rewrite calls_succ. destruct (calls n (init nm swp rs sp)) as [[] st|e st]; [|done].
    destruct (IH st ltac:(lia) eq_refl) as [Hat Hc]. intros Hrun.
    destruct (update1_at_count _ (Z.of_N n) st (fits_int64 _ Hpos Hfit) ltac:(lia) Hat Hc)
      as [Hat' Hc'].
    rewrite Hrun in Hat', Hc'. cbn [res_state] in Hat', Hc'.
    rewrite N2Z.inj_succ. split; [exact Hat'|].
    rewrite Hc'. apply Z.eqb_neq. lia.
Qed.

(** With the pages rendering, they all return. *)
Lemma calls_Done nm swp rs sp (n : N) :
  Forall (fun s => 1 ≤ s) (sizes_of swp) → prod (sizes_of swp) < 2 ^ 63 →
  (rs = true → ∀ s, tims_error s = None) →
  Z.of_N n < prod (sizes_of swp) →
  ∃ st', calls n (init nm swp rs sp) = Done tt st'
         ∧ serving st' = rs.
Proof.
  intros Hpos Hfit Hclock.
  induction n as [|n IH] using N.peano_ind; intros Hn.
  - exists (init nm swp rs sp). split; [reflexivity|].
    by destruct (init_counters nm swp rs sp) as (_ & _ & _ & _ & _ & -> & _).
  - destruct IH as (st & Hcalls & Hs); [lia|].
    destruct (calls_at_count nm swp rs sp n st Hpos Hfit ltac:(lia) Hcalls) as [Hat Hc].
    rewrite calls_succ, Hcalls.
    assert (length (currentPnt st) = length (size st)) as Hl.
    { destruct Hat as (-> & -> & _). apply mixed_radix_length. }
    rewrite update1_Done; [|done|done|].
    2:{ destruct rs; [right; right; by apply Hclock | by left]. }
    eexists. split; [reflexivity|].
    rewrite update1_unfold by done.
    destruct (report_same_counter (step_state st)) as (_ & _ & _ & _ & _ & -> & _).
    exact Hs.
Qed.

Lemma calls_never_complete (n : N) st :
  bounded st → totalSize st ≤ ofTotal st → completed st = false →
  serving st = false ∨ totalSize st = 0 ∨ (∀ s, tims_error s = None) →
  ∃ st', calls n st = Done tt st' ∧ completed st' = false.
Proof.
  intros Hb Ht Hc Hok.
  cut (∃ st', calls n st = Done tt st' ∧ completed st' = false
              ∧ bounded st' ∧ totalSize st' ≤ ofTotal st'
              ∧ serving st' = serving st ∧ totalSize st' = totalSize st).
  { intros (st' & ? & ? & _). by exists st'. }
  induction n as [|n IH] using N.peano_ind.
  - by exists st.
  - destruct IH as (s & Hcalls & Hcs & Hbs & Hts & Hss & Hsz).
    rewrite calls_succ, Hcalls.
    rewrite update1_Done; [|done|by apply bounded_length|by rewrite Hss, Hsz].
    eexists. split; [reflexivity|].
    rewrite update1_unfold by (done || by apply bounded_length).
    pose proof (report_same_counter (step_state s)) as Hsame.
    pose proof (same_counter_bounded _ _ Hsame (step_state_bounded s Hbs)) as Hb'.
    destruct Hsame as (_ & _ & E3 & E4 & E5 & E6 & _).
    rewrite E3, E4, E5, E6. cbn [step_state completed totalSize ofTotal serving].
    split; [|split; [exact Hb'|split; [lia|done]]].
    rewrite Hcs. destruct (Z.eqb_spec (ofTotal s + 1) (totalSize s)); [lia|done].
Qed.

(** *** The claims *)

(** C5. For a reporter built from dimension sizes that are all at least 1,
    every coordinate satisfies [0 <= currentPnt[i] <= size[i] - 1] after
    construction, and a call [update(steps)] keeps it so (and leaves [size]
    alone), whether the call returns or raises. *)
Theorem counter_stays_within_bounds :
  (∀ nm swp rs sp,
      Forall (fun s => 1 ≤ s) (sizes_of swp) → bounded (init nm swp rs sp)) ∧
  (∀ st steps,
      bounded st → 0 < steps →
      bounded (res_state (update steps st)) ∧
      size (res_state (update steps st)) = size st).
Proof.
  split; [exact init_bounded|].
  intros st steps Hb _. unfold update.
  destruct (completed st); [by split|].
  destruct (updateSteps_bounded (Z.to_nat steps) st Hb) as (st' & -> & Hb' & Hs).
  pose proof (report_same_counter st') as Hsame. split.
  - eapply same_counter_bounded; eauto.
  - destruct Hsame as (-> & _). done.
Qed.

(** C9. [update] on a reporter whose [completed] flag is set raises, for
    any [steps], and the reporter is exactly as it was. *)
Theorem update_after_completion_raises st steps :
  completed st = true →
  ∃ msg, update steps st = Raised (Exception msg) st.
Proof. intros Hc. unfold update. rewrite Hc. eauto. Qed.

(** C4 (amended). When all dimension sizes are at least 1 and their product
    fits int64 (is below 2^63), then for every [k] with
    [0 <= k < prod(swpSize)]: if the first [k] calls [update()] on the new
    reporter have all returned, [currentPnt] is the mixed-radix numeral of
    [k] in bases [swpSize], last dimension least significant, and [ofTotal]
    is [k]; and the constructor and those calls do return when
    [runServer] is off, or the clock never makes the expected completion
    time fail to format. *)
Theorem counter_is_mixed_radix nm swp rs sp (k : Z) :
  Forall (fun s => 1 ≤ s) (sizes_of swp) →
  prod (sizes_of swp) < 2 ^ 63 →
  0 ≤ k < prod (sizes_of swp) →
  (∀ st', calls (Z.to_N k) (init nm swp rs sp) = Done tt st' →
          currentPnt st' = mixed_radix (sizes_of swp) k ∧ ofTotal st' = k)
  ∧ ((rs = true → ∀ s, tims_error s = None) →
     __init__ nm swp rs sp = Done tt (init nm swp rs sp)
     ∧ ∃ st', calls (Z.to_N k) (init nm swp rs sp) = Done tt st').
Proof.
  intros Hpos Hfit Hk. split.
  - intros st' Hrun.
    destruct (calls_at_count nm swp rs sp (Z.to_N k) st' Hpos Hfit ltac:(lia) Hrun)
      as [Hat _].
    rewrite Z2N.id in Hat by lia. destruct Hat as (_ & ? & _ & ?). done.
  - intros Hclock. split.
    + apply init_Done. destruct rs; [right; right; by apply Hclock | by left].
    + destruct (calls_Done nm swp rs sp (Z.to_N k) Hpos Hfit Hclock ltac:(lia))
        as (st' & Hrun & _).
      by exists st'.
Qed.

(** C1 (amended). When all dimension sizes are at least 1 and their product
    fits int64 (is below 2^63): if the first [k <= prod(swpSize)] calls
    [update()] on the new reporter have all returned, [completed] is [True]
    exactly when [k = prod(swpSize)]; and the constructor and the first
    [prod(swpSize)] calls do return when [runServer] is off, or the clock
    never makes the expected completion time fail to format.  For
    [swpSize = (2, 3)] that is [True] after 6 calls and [False] after 5. *)
Theorem completed_after_all_points nm swp rs sp :
  Forall (fun s => 1 ≤ s) (sizes_of swp) →
  prod (sizes_of swp) < 2 ^ 63 →
  (∀ k st', 0 ≤ k ≤ prod (sizes_of swp) →
            calls (Z.to_N k) (init nm swp rs sp) = Done tt st' →
            (completed st' = true ↔ k = prod (sizes_of swp)))
  ∧ ((rs = true → ∀ s, tims_error s = None) →
     __init__ nm swp rs sp = Done tt (init nm swp rs sp)
     ∧ ∀ k, 0 ≤ k ≤ prod (sizes_of swp) →
            ∃ st', calls (Z.to_N k) (init nm swp rs sp) = Done tt st').
Proof.
  intros Hpos Hfit. pose proof (prod_pos _ Hpos) as Hp.
  assert (∀ k st', 0 ≤ k < prod (sizes_of swp) →
            calls (N.succ (Z.to_N k)) (init nm swp rs sp) = Done tt st' →
            completed st' = (k + 1 =? prod (sizes_of swp))) as Hlast.
  { intros k st' Hk. rewrite calls_succ.
    destruct (calls (Z.to_N k) (init nm swp rs sp)) as [[] st|e st] eqn:Hrun; [|done].
    destruct (calls_at_count nm swp rs sp (Z.to_N k) st Hpos Hfit ltac:(lia) Hrun)
      as [Hat Hc].
    destruct (update1_at_count _ (Z.of_N (Z.to_N k)) st (fits_int64 _ Hpos Hfit)
                ltac:(lia) Hat Hc) as [_ Hc'].
    intros Hup. rewrite Hup in Hc'. cbn [res_state] in Hc'.
    rewrite Hc'. by rewrite Z2N.id by lia. }
  split.
  - intros k st' Hk Hrun.
    destruct (decide (k = prod (sizes_of swp))) as [->|Hne].
    + split; [done|]. intros _.
      replace (Z.to_N (prod (sizes_of swp)))
        with (N.succ (Z.to_N (prod (sizes_of swp) - 1))) in Hrun by lia.
      rewrite (Hlast (prod (sizes_of swp) - 1) st' ltac:(lia) Hrun).
      apply Z.eqb_eq. lia.
    + destruct (calls_at_count nm swp rs sp (Z.to_N k) st' Hpos Hfit ltac:(lia) Hrun)
        as [_ Hc].
      rewrite Hc. split; [done | by intros ?].
  - intros Hclock. split.
    { apply init_Done. destruct rs; [right; right; by apply Hclock | by left]. }
    intros k Hk. destruct (decide (k = prod (sizes_of swp))) as [->|Hne].
    + replace (Z.to_N (prod (sizes_of swp)))
        with (N.succ (Z.to_N (prod (sizes_of swp) - 1))) by lia.
      destruct (calls_Done nm swp rs sp (Z.to_N (prod (sizes_of swp) - 1))
                  Hpos Hfit Hclock ltac:(lia)) as (st & Hrun & Hs).
      destruct (calls_at_count nm swp rs sp (Z.to_N (prod (sizes_of swp) - 1)) st
                  Hpos Hfit ltac:(lia) Hrun) as [Hat Hc].
      rewrite calls_succ, Hrun. rewrite update1_Done; [by eexists|done| |].
      * destruct Hat as (-> & -> & _). apply mixed_radix_length.
      * destruct rs; [right; right; by apply Hclock | by left].
    + destruct (calls_Done nm swp rs sp (Z.to_N k) Hpos Hfit Hclock ltac:(lia))
        as (st' & Hrun & _).
      by exists st'.
Qed.

End clock.

(** *** Runs of a 2 x 3 sweep, on a clock that lets every page render *)

#[local] Existing Instance Example.steady.

Example odometer_order :
  map (fun k => currentPnt (res_state (calls k (init "sweep" (Sizes [2; 3]) false false))))
      [0; 1; 2; 3; 4; 5]%N
  = [[0; 0]; [0; 1]; [0; 2]; [1; 0]; [1; 1]; [1; 2]].
Proof. reflexivity. Qed.

Example stdout_of_two_updates :
  out (res_state (calls 2 (init "sweep" (Sizes [2; 3]) false true)))
  = [Print "sweep"; Print "Dim-0...Dim-1..."; Print "1/2...1/3...";
     Print "1/2...2/3..."; Print "1/2...3/3..."].
Proof. reflexivity. Qed.

Example last_update_reports_the_end :
  out (res_state (update 6 (init "sweep" (Scalar 6) true false)))
  = [Print "See sweep progress online at"; PrintUrl; HtmlProgress [0] 0; HtmlEnd].
Proof. reflexivity. Qed.

(** More steps than points left: the counter wraps and [ofTotal] runs past
    [totalSize]. *)
Example update_past_the_end :
  let st := res_state (update 10 (init "sweep" (Sizes [2; 3]) false false)) in
  currentPnt st = [1; 1] ∧ ofTotal st = 10 ∧ completed st = true.
Proof. repeat split. Qed.

(** With 2^62 points to go the page of the first update does not render on
    a clock with a bounded range: the constructor raises when serving. *)
Example constructor_raises_on_long_sweep :
  raised (@__init__ Example.bounded_clock "sweep" (Sizes [2 ^ 31; 2 ^ 31]) true false)
  = true.
Proof. vm_compute. reflexivity. Qed.

(** *** Witnesses and counterexamples *)

Lemma counter_stays_within_bounds_witness :
  Forall (fun s => 1 ≤ s) (sizes_of (Sizes [2; 3])) ∧ 0 < 4 ∧
  bounded (res_state (update 4 (init "sweep" (Sizes [2; 3]) true true))).
Proof.
  assert (Forall (fun s => 1 ≤ s) (sizes_of (Sizes [2; 3]))) as Hpos
    by (repeat constructor; lia).
  split; [exact Hpos|]. split; [lia|].
  apply (proj2 counter_stays_within_bounds); [|lia].
  apply (proj1 counter_stays_within_bounds), Hpos.
Defined.

Lemma update_after_completion_raises_witness :
  let st := res_state (calls 6 (init "sweep" (Sizes [2; 3]) false false)) in
  completed st = true ∧ ∃ msg, update 3 st = Raised (Exception msg) st.
Proof.
  cbv zeta. split; [reflexivity|].
  apply update_after_completion_raises. reflexivity.
Defined.

Lemma counter_is_mixed_radix_witness :
  Forall (fun s => 1 ≤ s) (sizes_of (Sizes [2; 3])) ∧
  prod (sizes_of (Sizes [2; 3])) < 2 ^ 63 ∧
  0 ≤ 4 < prod (sizes_of (Sizes [2; 3])) ∧
  (∀ s, @tims_error Example.steady s = None) ∧
  ∃ st', calls (Z.to_N 4) (init "sweep" (Sizes [2; 3]) true false) = Done tt st'
         ∧ currentPnt st' = mixed_radix (sizes_of (Sizes [2; 3])) 4
         ∧ ofTotal st' = 4.
Proof.
  assert (Forall (fun s => 1 ≤ s) (sizes_of (Sizes [2; 3]))) as Hpos
    by (repeat constructor; lia).
  assert (prod (sizes_of (Sizes [2; 3])) < 2 ^ 63) as Hfit by reflexivity.
  assert (0 ≤ 4 < prod (sizes_of (Sizes [2; 3]))) as Hk
    by (split; [discriminate | reflexivity]).
  split; [exact Hpos|]. split; [exact Hfit|]. split; [exact Hk|].
  split; [reflexivity|].
  destruct (counter_is_mixed_radix "sweep" (Sizes [2; 3]) true false 4 Hpos Hfit Hk)
    as [Hcount Hret].
  destruct (Hret (fun _ _ => eq_refl)) as (_ & st' & Hrun).
  exists st'. split; [exact Hrun|]. exact (Hcount st' Hrun).
Defined.

(** C4 as stated fails when the product overflows int64.  274177 *
    67280421310721 is 2^64 + 1, so [np.prod] gives [totalSize = 1]: the first
    [update()] sets [completed], the second one raises and leaves
    [currentPnt = [0; 1]] and [ofTotal = 1], where the numeral of 2 is
    [[0; 2]].  No page is written here: [runServer] is off. *)
Lemma second_update_raises_on_overflow :
  let swpSize := Sizes [274177; 67280421310721] in
  let st := res_state (calls (Z.to_N 2) (init "sweep" swpSize false false)) in
  Forall (fun s => 1 ≤ s) (sizes_of swpSize) ∧
  0 ≤ 2 < prod (sizes_of swpSize) ∧
  raised (calls (Z.to_N 2) (init "sweep" swpSize false false)) = true ∧
  currentPnt st = [0; 1] ∧
  mixed_radix (sizes_of swpSize) 2 = [0; 2] ∧
  ofTotal st = 1.
Proof.
  cbv zeta. split; [repeat constructor; lia|].
  split; [vm_compute; split; congruence|].
  vm_compute. done.
Qed.

Lemma completed_after_all_points_witness :
  Forall (fun s => 1 ≤ s) (sizes_of (Sizes [2; 3])) ∧
  prod (sizes_of (Sizes [2; 3])) < 2 ^ 63 ∧
  (∀ s, @tims_error Example.steady s = None) ∧
  (∃ st', calls 6 (init "sweep" (Sizes [2; 3]) true false) = Done tt st'
          ∧ completed st' = true) ∧
  (∃ st', calls 5 (init "sweep" (Sizes [2; 3]) true false) = Done tt st'
          ∧ completed st' = false).
Proof.
  assert (Forall (fun s => 1 ≤ s) (sizes_of (Sizes [2; 3]))) as Hpos
    by (repeat constructor; lia).
  assert (prod (sizes_of (Sizes [2; 3])) < 2 ^ 63) as Hfit by reflexivity.
  split; [exact Hpos|]. split; [exact Hfit|]. split; [reflexivity|].
  destruct (completed_after_all_points "sweep" (Sizes [2; 3]) true false Hpos Hfit)
    as [Hiff Hret].
  destruct (Hret (fun _ _ => eq_refl)) as [_ Hruns].
  assert (0 ≤ 6 ≤ prod (sizes_of (Sizes [2; 3]))) as H6
    by (split; discriminate).
  assert (0 ≤ 5 ≤ prod (sizes_of (Sizes [2; 3]))) as H5
    by (split; discriminate).
  split.
  - destruct (Hruns 6 H6) as [st' Hrun]. exists st'. split; [exact Hrun|].
    apply (Hiff 6 st' H6 Hrun). reflexivity.
  - destruct (Hruns 5 H5) as [st' Hrun]. exists st'. split; [exact Hrun|].
    destruct (completed st') eqn:Hc; [|reflexivity].
    pose proof (proj1 (Hiff 5 st' H5 Hrun) Hc) as Habs. discriminate Habs.
Defined.

(** C1 as stated fails when the product overflows int64.
    For [swpSize = (2^32, 2^32)] [np.prod] gives [totalSize = 0], which
    [ofTotal] never equals: after [prod(swpSize) = 2^64] calls [completed]
    is still [False].
    For [swpSize = (274177, 67280421310721)], whose product is [2^64 + 1],
    [totalSize] is 1: [completed] is set by the first of the [2^64 + 1]
    calls and the second call raises.  No page is written here:
    [runServer] is off. *)
Lemma completion_fails_on_overflow :
  (let swpSize := Sizes [2 ^ 32; 2 ^ 32] in
   Forall (fun s => 1 ≤ s) (sizes_of swpSize) ∧
   completed (res_state (calls (Z.to_N (prod (sizes_of swpSize)))
                               (init "sweep" swpSize false false))) = false)
  ∧
  (let swpSize := Sizes [274177; 67280421310721] in
   Forall (fun s => 1 ≤ s) (sizes_of swpSize) ∧
   1 < prod (sizes_of swpSize) ∧
   completed (res_state (calls 1 (init "sweep" swpSize false false))) = true ∧
   raised (calls 2 (init "sweep" swpSize false false)) = true).
Proof.
  cbv zeta. split.
  - split; [repeat constructor; lia|].
    destruct (calls_never_complete (Z.to_N (prod (sizes_of (Sizes [2 ^ 32; 2 ^ 32]))))
                (init "sweep" (Sizes [2 ^ 32; 2 ^ 32]) false false))
      as (st' & Hcalls & Hc).
    + apply init_bounded. repeat constructor; lia.
    + vm_compute. discriminate.
    + reflexivity.
    + by left.
    + rewrite Hcalls. exact Hc.
  - split; [repeat constructor; lia|]. split; [reflexivity|].
    split; vm_compute; reflexivity.
Qed.

End ProgressWriterFacts.


(** ** Python strings *)

Module PyStrFacts.
Import PyStr.

Lemma app_str_cons c a b : String c a +:+ b = String c (a +:+ b).
Proof. reflexivity. Qed.

Lemma app_str_nil b : EmptyString +:+ b = b.
Proof. reflexivity. Qed.

Lemma length_app_str a b :
  String.length (a +:+ b) = (String.length a + String.length b)%nat.
Proof.
  induction a as [|c a IH]; [reflexivity|].
  rewrite app_str_cons. simpl. by rewrite IH.
Qed.

Lemma keep_skip n s : keep n s +:+ skip n s = s.
Proof.
  revert s. induction n as [|n IH]; intros [|c s]; try reflexivity.
  cbn [keep skip]. by rewrite app_str_cons, IH.
Qed.

Lemma skip_app_length pre suf : skip (String.length pre) (pre +:+ suf) = suf.
Proof.
  induction pre as [|c pre IH]; [by destruct suf|].
  rewrite app_str_cons. exact IH.
Qed.

Lemma keep_app_length pre suf : keep (String.length pre) (pre +:+ suf) = pre.
Proof.
  induction pre as [|c pre IH]; [by destruct suf|].
  rewrite app_str_cons. cbn [String.length keep]. by rewrite IH.
Qed.

Lemma skip_ends_with n s : ends_with s (skip n s).
Proof. exists (keep n s). symmetry. apply keep_skip. Qed.

Lemma endswith_spec s suf : endswith s suf = true ↔ ends_with s suf.
Proof.
  unfold endswith. rewrite andb_true_iff, Nat.leb_le, String.eqb_eq. split.
  - intros [_ <-]. apply skip_ends_with.
  - intros [pre ->]. rewrite length_app_str. split; [lia|].
    replace (String.length pre + String.length suf - String.length suf)%nat
      with (String.length pre) by lia.
    apply skip_app_length.
Qed.

Lemma slice_from_neg_spec (n : nat) s suf :
  String.length suf = n → (0 < n)%nat →
  slice_from (- Z.of_nat n) s = suf ↔ ends_with s suf.
Proof.
  intros Hn Hpos. unfold slice_from, slice_bound.
  destruct (Z.ltb_spec (- Z.of_nat n) 0) as [_|]; [|lia]. split.
  - intros <-. apply skip_ends_with.
  - intros [pre ->]. rewrite length_app_str, Hn.
    replace (Z.to_nat (Z.max 0 (Z.of_nat (String.length pre + n) + - Z.of_nat n)))
      with (String.length pre) by lia.
    apply skip_app_length.
Qed.

Lemma slice_to_neg_app (n : nat) pre suf :
  String.length suf = n → (0 < n)%nat →
  slice_to (- Z.of_nat n) (pre +:+ suf) = pre.
Proof.
  intros Hn Hpos. unfold slice_to, slice_bound.
  destruct (Z.ltb_spec (- Z.of_nat n) 0) as [_|]; [|lia].
  rewrite length_app_str, Hn.
  replace (Z.to_nat (Z.max 0 (Z.of_nat (String.length pre + n) + - Z.of_nat n)))
    with (String.length pre) by lia.
  apply keep_app_length.
Qed.

Lemma slice_split i s : slice_to i s +:+ slice_from i s = s.
Proof. apply keep_skip. Qed.

Lemma app_str_neq s suf : suf ≠ EmptyString → s +:+ suf ≠ s.
Proof.
  intros Hne Heq. apply (f_equal String.length) in Heq.
  rewrite length_app_str in Heq. destruct suf; [done|]. simpl in Heq. lia.
Qed.

End PyStrFacts.

(** ** The file functions *)

Module FilesFacts.
Import PyStr PyStrFacts Files.

Lemma gzfilename_ends f : ends_with (_gzfilename f) ".gz".
Proof.
  unfold _gzfilename. destruct (endswith f ".gz") eqn:E.
  - by apply endswith_spec.
  - by exists f.
Qed.

Lemma gzfilename_fixed f : _gzfilename f = f ↔ ends_with f ".gz".
Proof.
  unfold _gzfilename. destruct (endswith f ".gz") eqn:E.
  - split; [intros _; by apply endswith_spec | done].
  - split.
    + intros Heq. by apply app_str_neq in Heq.
    + intros Hend%endswith_spec. congruence.
Qed.

Lemma matname_spec f :
  matname f = if endswith f ".mat" then f else f +:+ ".mat".
Proof.
  unfold matname.
  destruct (String.eqb_spec (slice_from (-4) f) ".mat") as [Heq|Hne]; cbn [negb].
  - apply (slice_from_neg_spec 4 f ".mat" eq_refl ltac:(lia)), endswith_spec in Heq.
    by rewrite Heq.
  - destruct (endswith f ".mat") eqn:E; [|done].
    apply endswith_spec, (slice_from_neg_spec 4 f ".mat" eq_refl ltac:(lia)) in E.
    done.
Qed.

Lemma matname_ends f : ends_with (matname f) ".mat".
Proof.
  rewrite matname_spec. destruct (endswith f ".mat") eqn:E.
  - by apply endswith_spec.
  - by exists f.
Qed.

Example gzfilename_examples :
  map _gzfilename ["run1.pkl"; "run1.pkl.gz"; ""; ".gz"]
  = ["run1.pkl.gz"; "run1.pkl.gz"; ".gz"; ".gz"].
Proof. reflexivity. Qed.

Example matname_examples :
  map matname ["sweep"; "sweep.mat"; "mat"; ".mat"; ""]
  = ["sweep.mat"; "sweep.mat"; "mat.mat"; ".mat"; ".mat"].
Proof. reflexivity. Qed.

Section files.
Context `{Pathlib}.

(** *** The file system calls *)

Lemma makedirs_Done d e e1 :
  makedirs d e = Done tt e1 →
  files e !! resolve d = None
  ∧ blocked (files e) (resolve d) (parents (resolve d)) = None
  ∧ e1 = mkEnv (fileDir e) (files e) (made d e) (log e ++ [Makedirs d]).
Proof.
  unfold makedirs. cbv zeta. destruct (files e !! resolve d); [done|].
  destruct (blocked (files e) _ _); [done|]. by intros [= <-].
Qed.

Lemma makedirs_Raised d e x e1 : makedirs d e = Raised x e1 → e1 = e.
Proof.
  unfold makedirs. cbv zeta. destruct (files e !! resolve d); [by intros [= _ <-]|].
  destruct (blocked (files e) _ _); [by intros [= _ <-] | done].
Qed.

Lemma makedirs_clear d e :
  files e !! resolve d = None →
  blocked (files e) (resolve d) (parents (resolve d)) = None →
  makedirs d e
  = Done tt (mkEnv (fileDir e) (files e) (made d e) (log e ++ [Makedirs d])).
Proof. intros Hf Hb. unfold makedirs. cbv zeta. by rewrite Hf, Hb. Qed.

Lemma touch_Done p e e1 :
  touch p e = Done tt e1 →
  fileDir e1 = fileDir e ∧ dirs e1 = dirs e
  ∧ log e1 = log e ++ [Touch (resolve p)]
  ∧ (∀ q, q ≠ resolve p → files e1 !! q = files e !! q)
  ∧ (resolve p ∈ dirs e ∧ files e1 = files e
     ∨ (resolve p ∉ dirs e) ∧ files e1 !! resolve p = Some (default [] (files e !! resolve p))).
Proof.
  unfold touch. cbv zeta. destruct (decide (resolve p ∈ dirs e)) as [Hd|Hd].
  { intros [= <-]. repeat split; try done. by left. }
  destruct (files e !! resolve p) as [data|] eqn:E.
  { intros [= <-]. repeat split; try done. right. split; [done|]. exact E. }
  destruct (decide (parent (resolve p) ∈ dirs e)); [|done].
  intros [= <-]. cbn. repeat split; try done.
  - intros q Hq. by rewrite lookup_insert_ne.
  - right. split; [done|]. by rewrite lookup_insert_eq.
Qed.

Lemma touch_Raised p e x e1 : touch p e = Raised x e1 → e1 = e.
Proof.
  unfold touch. cbv zeta. destruct (decide (resolve p ∈ dirs e)); [done|].
  destruct (files e !! resolve p); [done|].
  destruct (decide (parent (resolve p) ∈ dirs e)); [done|].
  by intros [= _ <-].
Qed.

Lemma write_Done rp data e e1 :
  write rp data e = Done tt e1 →
  (rp ∉ dirs e)
  ∧ e1 = mkEnv (fileDir e) (<[rp := data]> (files e)) (dirs e) (log e ++ [Write rp data]).
Proof.
  unfold write. destruct (decide (rp ∈ dirs e)); [done|].
  destruct (files e !! rp); [by intros [= <-]|].
  destruct (decide (parent rp ∈ dirs e)); [by intros [= <-] | done].
Qed.

Lemma write_Raised rp data e x e1 : write rp data e = Raised x e1 → e1 = e.
Proof.
  unfold write. destruct (decide (rp ∈ dirs e)); [by intros [= _ <-]|].
  destruct (files e !! rp); [done|].
  destruct (decide (parent rp ∈ dirs e)); [done | by intros [= _ <-]].
Qed.

(** Writing to a file that is there, and is no directory, goes through. *)
Lemma write_existing rp data e :
  rp ∉ dirs e → is_Some (files e !! rp) →
  write rp data e
  = Done tt (mkEnv (fileDir e) (<[rp := data]> (files e)) (dirs e)
                   (log e ++ [Write rp data])).
Proof.
  intros Hd [old Hf]. unfold write. rewrite decide_False by done. by rewrite Hf.
Qed.

Lemma write_directory rp data e :
  rp ∈ dirs e → write rp data e = Raised (IsADirectoryError rp) e.
Proof. intros Hd. unfold write. by rewrite decide_True. Qed.

Lemma write_other rp data e q :
  q ≠ rp → files (res_state (write rp data e)) !! q = files e !! q.
Proof.
  intros Hq. destruct (write rp data e) as [[] e1|x e1] eqn:E; cbn [res_state].
  - apply write_Done in E as [_ ->]. cbn. by rewrite lookup_insert_ne.
  - by apply write_Raised in E as ->.
Qed.

Lemma write_fileDir rp data e : fileDir (res_state (write rp data e)) = fileDir e.
Proof.
  destruct (write rp data e) as [[] e1|x e1] eqn:E; cbn [res_state].
  - by apply write_Done in E as [_ ->].
  - by apply write_Raised in E as ->.
Qed.

(** *** [_makeFileExist] *)

Lemma makeFileExist_Done filename e rp e1 :
  _makeFileExist filename e = Done rp e1 →
  rp = resolve (joinpath (fileDir e) filename)
  ∧ files e !! resolve (fileDir e) = None
  ∧ fileDir e1 = fileDir e
  ∧ dirs e1 = made (fileDir e) e
  ∧ log e1 = log e ++ [Makedirs (fileDir e); Touch rp]
  ∧ (∀ q, q ≠ rp → files e1 !! q = files e !! q)
  ∧ (rp ∈ dirs e1 ∧ files e1 = files e
     ∨ (rp ∉ dirs e1) ∧ files e1 !! rp = Some (default [] (files e !! rp))).
Proof.
  unfold _makeFileExist.
  destruct (makedirs (fileDir e) e) as [[] e0|x e0] eqn:Em; [|done].
  apply makedirs_Done in Em as (Hfile & _ & ->).
  destruct (touch _ _) as [[] e1'|x e1'] eqn:Et; [|done].
  apply touch_Done in Et as (Hdir & Hdirs & Hlog & Hother & Hrp). cbn in *.
  intros [= <- <-]. rewrite Hdirs, Hlog, <- app_assoc. done.
Qed.

Lemma makeFileExist_Raised filename e x e1 :
  _makeFileExist filename e = Raised x e1 →
  fileDir e1 = fileDir e ∧ files e1 = files e
  ∧ (log e1 = log e ∨ log e1 = log e ++ [Makedirs (fileDir e)]).
Proof.
  unfold _makeFileExist.
  destruct (makedirs (fileDir e) e) as [[] e0|x0 e0] eqn:Em.
  - apply makedirs_Done in Em as (_ & _ & ->).
    destruct (touch _ _) as [[] e1'|x1 e1'] eqn:Et; [done|].
    apply touch_Raised in Et as ->. intros [= _ <-]. cbn. split; [done|]. split; [done|].
    by right.
  - apply makedirs_Raised in Em as ->. intros [= _ <-]. split; [done|]. split; [done|].
    by left.
Qed.

(** Where a file can be made, [_makeFileExist] returns and the file is
    there. *)
Lemma makeFileExist_makeable filename e :
  makeable filename e →
  let rp := resolve (joinpath (fileDir e) filename) in
  ∃ e1, _makeFileExist filename e = Done rp e1
        ∧ fileDir e1 = fileDir e
        ∧ (rp ∉ dirs e1)
        ∧ files e1 !! rp = Some (default [] (files e !! rp))
        ∧ (∀ q, q ≠ rp → files e1 !! q = files e !! q)
        ∧ log e1 = log e ++ [Makedirs (fileDir e); Touch rp].
Proof.
  intros (Hfile & Hclear & Hnd & Hcan). cbv zeta in *.
  set (rp := resolve (joinpath (fileDir e) filename)) in *.
  assert (∃ e1, _makeFileExist filename e = Done rp e1) as [e1 Hrun].
  { unfold _makeFileExist. rewrite makedirs_clear by done.
    unfold touch. cbn. fold rp. rewrite decide_False by done.
    destruct (files e !! rp) as [data|] eqn:E; [by eexists|].
    destruct Hcan as [[? ?]|Hparent]; [done|].
    rewrite decide_True by done. by eexists. }
  exists e1. split; [done|].
  destruct (makeFileExist_Done _ _ _ _ Hrun) as (_ & _ & Hdir & Hdirs & Hlog & Hother & Hrp).
  rewrite Hdirs. split; [done|]. split; [done|].
  destruct Hrp as [[Hin _]|[_ Hrp]]; [by rewrite Hdirs in Hin|].
  done.
Qed.

Lemma makeFileExist_other filename e q :
  q ≠ resolve (joinpath (fileDir e) filename) →
  files (res_state (_makeFileExist filename e)) !! q = files e !! q.
Proof.
  intros Hq. destruct (_makeFileExist filename e) as [rp e1|x e1] eqn:E; cbn [res_state].
  - destruct (makeFileExist_Done _ _ _ _ E) as (-> & _ & _ & _ & _ & Hother & _).
    by apply Hother.
  - by destruct (makeFileExist_Raised _ _ _ _ E) as (_ & -> & _).
Qed.

Lemma makeFileExist_fileDir filename e :
  fileDir (res_state (_makeFileExist filename e)) = fileDir e.
Proof.
  destruct (_makeFileExist filename e) as [rp e1|x e1] eqn:E; cbn [res_state].
  - by destruct (makeFileExist_Done _ _ _ _ E) as (_ & _ & -> & _).
  - by destruct (makeFileExist_Raised _ _ _ _ E) as (-> & _).
Qed.

Lemma read_files rp e :
  files (res_state (read rp e)) = files e
  ∧ fileDir (res_state (read rp e)) = fileDir e.
Proof. unfold read. by destruct (files e !! rp). Qed.

Section pickle.
Context {V : Type} `{Pickle V} `{Gzip}.

(** What a save that returns has done: from the bytes [pickled] that
    [pickle] made, [stored] is what went to the file. *)
Lemma save_Done (name : string) (e : env) (stored : bytes → bytes) (v : V) e1 :
  match _makeFileExist name e with
  | Raised x e => Raised x e
  | Done rp e =>
    match dumps v with
    | Some data => write rp (stored data) e
    | None =>
      match write rp (stored []) e with
      | Raised x e => Raised x e
      | Done _ e => Raised PicklingError e
      end
    end
  end = Done tt e1 →
  let rp := resolve (joinpath (fileDir e) name) in
  ∃ data, dumps v = Some data
          ∧ fileDir e1 = fileDir e
          ∧ files e1 !! rp = Some (stored data)
          ∧ log e1 = log e ++ [Makedirs (fileDir e); Touch rp; Write rp (stored data)].
Proof.
  cbv zeta. destruct (_makeFileExist name e) as [rp e0|x e0] eqn:Em; [|done].
  destruct (makeFileExist_Done _ _ _ _ Em) as (-> & _ & Hdir & _ & Hlog & _).
  destruct (dumps v) as [data|].
  - intros [_ ->]%write_Done. exists data. cbn. rewrite lookup_insert_eq, Hlog, <- app_assoc.
    done.
  - by destruct (write _ _ e0).
Qed.

(** Where a file can be made, a save of a value that [pickle] dumps
    returns. *)
Lemma save_makeable (name : string) (e : env) (stored : bytes → bytes) (v : V) data :
  makeable name e → dumps v = Some data →
  ∃ e1,
    match _makeFileExist name e with
    | Raised x e => Raised x e
    | Done rp e =>
      match dumps v with
      | Some data => write rp (stored data) e
      | None =>
        match write rp (stored []) e with
        | Raised x e => Raised x e
        | Done _ e => Raised PicklingError e
        end
      end
    end = Done tt e1.
Proof.
  intros Hmake Hd.
  destruct (makeFileExist_makeable name e Hmake) as (e0 & -> & _ & Hnd & Hf & _).
  rewrite Hd. rewrite write_existing by (done || by eexists). by eexists.
Qed.

(** A save changes no file but its own, and does not move [fileDir],
    whether it returns or raises. *)
Lemma save_frame (name : string) (e : env) (stored : bytes → bytes) (v : V) :
  let r :=
    match _makeFileExist name e with
    | Raised x e => Raised x e
    | Done rp e =>
      match dumps v with
      | Some data => write rp (stored data) e
      | None =>
        match write rp (stored []) e with
        | Raised x e => Raised x e
        | Done _ e => Raised PicklingError e
        end
      end
    end in
  fileDir (res_state r) = fileDir e
  ∧ ∀ q, q ≠ resolve (joinpath (fileDir e) name) →
         files (res_state r) !! q = files e !! q.
Proof.
  cbv zeta.
  pose proof (makeFileExist_fileDir name e) as Hdir.
  pose proof (makeFileExist_other name e) as Hother.
  destruct (_makeFileExist name e) as [rp e0|x e0] eqn:Em; cbn [res_state] in *;
    [|done].
  destruct (makeFileExist_Done _ _ _ _ Em) as (-> & _).
  destruct (dumps v) as [data|].
  - split; [by rewrite write_fileDir|]. intros q Hq. rewrite write_other by done.
    by apply Hother.
  - pose proof (write_fileDir (resolve (joinpath (fileDir e) name)) (stored []) e0) as Hw.
    pose proof (write_other (resolve (joinpath (fileDir e) name)) (stored []) e0) as Ho.
    destruct (write _ _ e0) as [[] e1|x e1]; cbn [res_state] in *.
    + split; [congruence|]. intros q Hq. rewrite Ho by done. by apply Hother.
    + split; [congruence|]. intros q Hq. rewrite Ho by done. by apply Hother.
Qed.

(** C6 (amended). For a value [v] that pickles to [data] and a file name
    [f] under which a file can be made: [savePickle(f, v)] returns, leaves
    [fileDir] as it was and [data] in the file, and [loadPickle(f)] then
    gives what [pickle] loads from [data]; the save wrote and the load read
    the one resolved path [fileDir / f]. *)
Theorem pickle_round_trip (f : string) (v : V) (data : bytes) (e : env) :
  makeable f e → dumps v = Some data →
  let rp := resolve (joinpath (fileDir e) f) in
  ∃ e1 e2,
    savePickle f v e = Done tt e1
    ∧ fileDir e1 = fileDir e
    ∧ files e1 !! rp = Some data
    ∧ loadPickle f e1 = match loads data with
                         | Some v' => Done v' e2
                         | None => Raised UnpicklingError e2
                         end
    ∧ log e2 = log e ++ [Makedirs (fileDir e); Touch rp; Write rp data; Read rp].
Proof.
  intros Hmake Hd. cbv zeta.
  destruct (save_makeable f e (fun b => b) v data Hmake Hd) as [e1 Hsave].
  destruct (save_Done f e (fun b => b) v e1 Hsave) as (data' & Hd' & Hdir & Hfile & Hlog).
  assert (data' = data) as -> by congruence.
  exists e1, (logged (Read (resolve (joinpath (fileDir e) f))) e1).
  split; [exact Hsave|]. split; [done|]. split; [done|].
  unfold loadPickle, read. rewrite Hdir, Hfile.
  split; [by destruct (loads data)|].
  cbn [logged log]. rewrite Hlog, <- !app_assoc. reflexivity.
Qed.

(** C8. [_gzfilename] is total; its result ends in ".gz"; applying it twice
    is applying it once; it returns its argument exactly when that already
    ends in ".gz", and the argument with ".gz" appended otherwise.
    [savePickleGzip] changes no file but the one at the resolved path
    [fileDir / _gzfilename(filename)], whether it returns or raises; when
    it returns it has written that path; and it returns where a file can be
    made under that name, for a value that pickles.  [loadPickleGzip]
    reads that path when a file is there, and fails to find it when
    nothing is. *)
Theorem gzfilename_normalises (f : string) :
  ends_with (_gzfilename f) ".gz"
  ∧ _gzfilename (_gzfilename f) = _gzfilename f
  ∧ (_gzfilename f = f ↔ ends_with f ".gz")
  ∧ (¬ ends_with f ".gz" → _gzfilename f = f +:+ ".gz")
  ∧ ∀ (v : V) (e : env),
      let rp := resolve (joinpath (fileDir e) (_gzfilename f)) in
      (∀ q, q ≠ rp → files (res_state (savePickleGzip f v e)) !! q = files e !! q)
      ∧ (∀ e1, savePickleGzip f v e = Done tt e1 →
               ∃ data, files e1 !! rp = Some data
                       ∧ log e1 = log e ++ [Makedirs (fileDir e); Touch rp; Write rp data])
      ∧ (makeable (_gzfilename f) e → is_Some (dumps v) →
         ∃ e1, savePickleGzip f v e = Done tt e1)
      ∧ (is_Some (files e !! rp) →
         log (res_state (loadPickleGzip f e)) = log e ++ [Read rp])
      ∧ (files e !! rp = None → rp ∉ dirs e →
         loadPickleGzip f e = Raised (FileNotFoundError rp) e).
Proof.
  split; [apply gzfilename_ends|]. split; [apply gzfilename_fixed, gzfilename_ends|].
  split; [apply gzfilename_fixed|]. split.
  { intros Hend. unfold _gzfilename. destruct (endswith f ".gz") eqn:E; [|done].
    by apply endswith_spec in E. }
  intros v e. cbv zeta. split; [|split; [|split; [|split]]].
  - apply (save_frame (_gzfilename f) e compress v).
  - intros e1 Hrun. destruct (save_Done (_gzfilename f) e compress v e1 Hrun)
      as (data & _ & _ & Hfile & Hlog).
    by exists (compress data).
  - intros Hmake [data Hd]. apply (save_makeable (_gzfilename f) e compress v data Hmake Hd).
  - intros [raw Hraw]. unfold loadPickleGzip, read. rewrite Hraw.
    destruct (decompress raw) as [unzipped|]; [|done].
    by destruct (loads unzipped).
  - intros Hnone _. unfold loadPickleGzip, read. by rewrite Hnone.
Qed.

End pickle.

Section mat.
Context {A : Type} `{Scipy A}.

(** C2. When the file [fileDir / name] does not exist, where [name] is
    [filename] with ".mat" appended unless it already ends in ".mat",
    [loadMat(filename)] raises FileNotFoundError for that path, and the
    file system has seen no call: nothing was read. *)
Theorem loadMat_missing_file (f : string) (e : env) :
  let name := if endswith f ".mat" then f else f +:+ ".mat" in
  files e !! resolve (joinpath (fileDir e) name) = None →
  loadMat f e = Raised (FileNotFoundError (joinpath (fileDir e) name)) e
  ∧ log (res_state (loadMat f e)) = log e.
Proof.
  cbv zeta. rewrite <- matname_spec. intros Hnone.
  assert (loadMat f e = Raised (FileNotFoundError (joinpath (fileDir e) (matname f))) e) as ->.
  { unfold loadMat, path_exists. rewrite Hnone.
    rewrite bool_decide_eq_false_2; [reflexivity|]. by intros [? ?]. }
  done.
Qed.

(** C7. Both Mat functions work on [filename + ".mat"] when [filename] does
    not end in ".mat" and on [filename] itself when it does.  [saveMat(f, d)]
    changes no file but the one at the resolved path [fileDir / name],
    whether it returns or raises; when it returns it has written that path,
    and a following [loadMat(f)] reads that same path; and it returns where
    a file can be made under that name. *)
Theorem mat_functions_share_name (f : string) :
  matname f = (if endswith f ".mat" then f else f +:+ ".mat")
  ∧ ends_with (matname f) ".mat"
  ∧ ∀ (d : gmap string A) (e : env),
      let rp := resolve (joinpath (fileDir e) (matname f)) in
      (∀ q, q ≠ rp → files (res_state (saveMat f d e)) !! q = files e !! q)
      ∧ (∀ e1, saveMat f d e = Done tt e1 →
               files e1 !! rp = Some (mat_encode d)
               ∧ log e1 = log e ++ [Makedirs (fileDir e); Touch rp; Write rp (mat_encode d)]
               ∧ log (res_state (loadMat f e1)) = log e1 ++ [Read rp])
      ∧ (makeable (matname f) e → ∃ e1, saveMat f d e = Done tt e1).
Proof.
  split; [apply matname_spec|]. split; [apply matname_ends|]. intros d e. cbv zeta.
  unfold saveMat. split; [|split].
  - intros q Hq.
    pose proof (makeFileExist_other (matname f) e q Hq) as Hother.
    destruct (_makeFileExist (matname f) e) as [rp e0|x e0] eqn:Em; cbn [res_state] in *;
      [|done].
    destruct (makeFileExist_Done _ _ _ _ Em) as (-> & _).
    by rewrite write_other.
  - intros e1.
    destruct (_makeFileExist (matname f) e) as [rp e0|x e0] eqn:Em; [|done].
    destruct (makeFileExist_Done _ _ _ _ Em) as (-> & _ & Hdir & _ & Hlog & _).
    intros [_ ->]%write_Done. cbn [files log fileDir].
    rewrite lookup_insert_eq, Hlog, <- app_assoc. split; [done|]. split; [done|].
    unfold loadMat, path_exists, read. cbn [files log fileDir]. rewrite Hdir.
    rewrite lookup_insert_eq.
    rewrite bool_decide_eq_true_2 by eauto. cbn [negb].
    by destruct (mat_decode (mat_encode d)).
  - intros Hmake.
    destruct (makeFileExist_makeable (matname f) e Hmake) as (e0 & -> & _ & Hnd & Hf & _).
    rewrite write_existing by (done || by eexists). by eexists.
Qed.

End mat.
End files.

Lemma pickle_round_trip_witness :
  let v := [Byte.x01; Byte.x02] in
  let rp := "/data/run1.pkl" in
  @makeable Example.posix "run1.pkl" Example.empty_env
  ∧ @dumps _ Example.raw_pickle v = Some v
  ∧ ∃ e1 e2,
      @savePickle Example.posix _ Example.raw_pickle "run1.pkl" v Example.empty_env
      = Done tt e1
      ∧ fileDir e1 = "/data"
      ∧ @loadPickle Example.posix _ Example.raw_pickle "run1.pkl" e1 = Done v e2
      ∧ log e2 = [Makedirs "/data"; Touch rp; Write rp v; Read rp].
Proof.
  cbv zeta.
  assert (@makeable Example.posix "run1.pkl" Example.empty_env) as Hmake.
  { split; [vm_compute; reflexivity|]. split; [vm_compute; reflexivity|]. split.
    - apply (bool_decide_unpack _). vm_compute. exact I.
    - right. apply (bool_decide_unpack _). vm_compute. exact I. }
  split; [exact Hmake|]. split; [reflexivity|].
  destruct (@pickle_round_trip Example.posix _ Example.raw_pickle "run1.pkl"
              [Byte.x01; Byte.x02] [Byte.x01; Byte.x02] Example.empty_env
              Hmake eq_refl) as (e1 & e2 & Hsave & Hdir & _ & Hload & Hlog).
  exists e1, e2. split; [exact Hsave|]. split; [exact Hdir|].
  split; [exact Hload | exact Hlog].
Defined.

(** C6 as stated fails.  A name below a directory that is not there: in a
    new [fileDir], [savePickle("sub/run1.pkl", v)] raises
    FileNotFoundError in [touch] and writes no file, so the load finds
    none.  And a value that pickles but is not equal to itself: NaN comes
    back as NaN, and [NaN == NaN] is [False]. *)
Lemma nested_name_and_NaN_do_not_round_trip :
  (let v := [Byte.x01; Byte.x02] in
   @dumps _ Example.raw_pickle v = Some v
   ∧ @loads _ Example.raw_pickle v = Some v
   ∧ raised (@savePickle Example.posix _ Example.raw_pickle "sub/run1.pkl" v
               Example.empty_env) = true
   ∧ raised (@loadPickle Example.posix _ Example.raw_pickle "sub/run1.pkl"
               (res_state (@savePickle Example.posix _ Example.raw_pickle
                             "sub/run1.pkl" v Example.empty_env))) = true)
  ∧ ∃ e1 e2 v',
      @savePickle Example.posix _ Example.float_pickle "run1.pkl" Example.NaN
        Example.empty_env = Done tt e1
      ∧ @loadPickle Example.posix _ Example.float_pickle "run1.pkl" e1 = Done v' e2
      ∧ Example.py_eq v' Example.NaN = false.
Proof.
  cbv zeta. split.
  - split; [reflexivity|]. split; [reflexivity|]. split; vm_compute; reflexivity.
  - eexists _, _, _. split; [vm_compute; reflexivity|].
    split; vm_compute; reflexivity.
Qed.

Lemma loadMat_missing_file_witness :
  files Example.empty_env !! "/data/sweep.mat" = None
  ∧ @loadMat Example.posix _ Example.scalar_mat "sweep" Example.empty_env
    = Raised (FileNotFoundError "/data/sweep.mat") Example.empty_env
  ∧ log (res_state (@loadMat Example.posix _ Example.scalar_mat "sweep"
                             Example.empty_env)) = [].
Proof.
  split; [reflexivity|].
  exact (@loadMat_missing_file Example.posix _ Example.scalar_mat "sweep"
           Example.empty_env eq_refl).
Defined.

End FilesFacts.


(** ** Dictionaries and the heap *)

Module DictFacts.
Import PyStr JSONpickleable.

Lemma keys_cons k v (d : dict) : keys ((k, v) :: d) = k :: keys d.
Proof. reflexivity. Qed.

Lemma dict_get_None k d : dict_get k d = None ↔ k ∉ keys d.
Proof.
  induction d as [|[k' v] d IH]; cbn [dict_get].
  - split; [intros _; apply not_elem_of_nil | done].
  - rewrite keys_cons, not_elem_of_cons. destruct (decide (k = k')) as [->|Hne].
    + split; [done | by intros [? _]].
    + rewrite IH. tauto.
Qed.

Lemma dict_get_Some_elem k v d : dict_get k d = Some v → (k, v) ∈ d.
Proof.
  induction d as [|[k' v'] d IH]; cbn [dict_get]; [done|].
  destruct (decide (k = k')) as [-> |].
  - intros [= ->]. apply elem_of_cons. by left.
  - intros Hg. apply elem_of_cons. right. by apply IH.
Qed.

Lemma elem_keys k v (d : dict) : (k, v) ∈ d → k ∈ keys d.
Proof. intros Hin. apply list_elem_of_fmap. by exists (k, v). Qed.

Lemma keys_elem k (d : dict) : k ∈ keys d → ∃ v, (k, v) ∈ d.
Proof. intros ([k' v] & -> & Hin)%list_elem_of_fmap. by exists v. Qed.

Lemma dict_get_elem_NoDup k v d :
  NoDup (keys d) → (k, v) ∈ d → dict_get k d = Some v.
Proof.
  induction d as [|[k' v'] d IH]; intros Hnd Hin; [by apply elem_of_nil in Hin|].
  rewrite keys_cons in Hnd. apply NoDup_cons in Hnd as [Hk' Hnd].
  cbn [dict_get]. apply elem_of_cons in Hin as [[= -> ->]|Hin].
  - by rewrite decide_True.
  - rewrite decide_False; [by apply IH|].
    intros ->. apply Hk'. by eapply elem_keys.
Qed.

Lemma dict_get_set_eq k v d : dict_get k (dict_set k v d) = Some v.
Proof.
  induction d as [|[k' v'] d IH]; cbn [dict_set dict_get].
  - by rewrite decide_True.
  - destruct (decide (k = k')) as [-> |Hne]; cbn [dict_get].
    + by rewrite decide_True.
    + by rewrite decide_False.
Qed.

Lemma dict_get_set_ne k k' v d : k ≠ k' → dict_get k (dict_set k' v d) = dict_get k d.
Proof.
  intros Hne. induction d as [|[k2 v2] d IH]; cbn [dict_set dict_get].
  - by rewrite decide_False.
  - destruct (decide (k' = k2)) as [-> |Hne2]; cbn [dict_get].
    + by rewrite !decide_False.
    + by rewrite IH.
Qed.

Lemma keys_set x k v d : x ∈ keys (dict_set k v d) ↔ x = k ∨ x ∈ keys d.
Proof.
  destruct (decide (x = k)) as [-> |Hne].
  - split; [by left|]. intros _.
    destruct (decide (k ∈ keys (dict_set k v d))) as [|Hn]; [done|].
    apply dict_get_None in Hn. by rewrite dict_get_set_eq in Hn.
  - split.
    + intros Hin. right.
      destruct (decide (x ∈ keys d)) as [|Hn]; [done|].
      apply dict_get_None in Hn. rewrite <- (dict_get_set_ne x k v d Hne) in Hn.
      by apply dict_get_None in Hn.
    + intros [?|Hin]; [done|].
      destruct (decide (x ∈ keys (dict_set k v d))) as [|Hn]; [done|].
      apply dict_get_None in Hn. rewrite dict_get_set_ne in Hn by done.
      by apply dict_get_None in Hn.
Qed.

Lemma keys_set_NoDup k v d : NoDup (keys d) → NoDup (keys (dict_set k v d)).
Proof.
  induction d as [|[k' v'] d IH]; cbn [dict_set]; intros Hnd.
  - rewrite keys_cons. apply NoDup_singleton.
  - rewrite keys_cons in Hnd. apply NoDup_cons in Hnd as [Hk' Hnd].
    destruct (decide (k = k')) as [-> |Hne]; rewrite keys_cons; apply NoDup_cons.
    + done.
    + split; [|by apply IH]. rewrite keys_set. intros [?|?]; congruence.
Qed.

Lemma keys_remove x k d : x ∈ keys (dict_remove k d) ↔ x ≠ k ∧ x ∈ keys d.
Proof.
  unfold dict_remove, keys. rewrite !list_elem_of_fmap. split.
  - intros ([k' v] & -> & [Hne Hin]%list_elem_of_filter). split; [done|]. by exists (k', v).
  - intros [Hne ([k' v] & -> & Hin)]. exists (k', v). split; [done|].
    by apply list_elem_of_filter.
Qed.

Lemma keys_remove_NoDup k d : NoDup (keys d) → NoDup (keys (dict_remove k d)).
Proof.
  induction d as [|[k' v'] d IH]; intros Hnd; [constructor|].
  rewrite keys_cons in Hnd. apply NoDup_cons in Hnd as [Hk' Hnd].
  unfold dict_remove. rewrite filter_cons. cbn [fst]. destruct (decide (k' ≠ k)).
  - rewrite keys_cons. apply NoDup_cons. split; [|by apply IH].
    intros Hin. apply keys_remove in Hin as [_ ?]. done.
  - by apply IH.
Qed.

Lemma dict_get_remove_ne k k' d : k ≠ k' → dict_get k (dict_remove k' d) = dict_get k d.
Proof.
  intros Hne. induction d as [|[k2 v2] d IH]; [done|].
  unfold dict_remove. rewrite filter_cons. cbn [fst dict_get].
  destruct (decide (k2 ≠ k')) as [Hk|Hk]; cbn [dict_get].
  - by rewrite <- IH.
  - apply dec_stable in Hk as ->. by rewrite decide_False.
Qed.

Lemma dict_get_remove_eq k d : dict_get k (dict_remove k d) = None.
Proof. apply dict_get_None. rewrite keys_remove. by intros [? _]. Qed.

Lemma dict_del_Some k d d' : dict_del k d = Some d' → d' = dict_remove k d.
Proof. unfold dict_del. case_decide; congruence. Qed.

Lemma dict_get_update k other d :
  NoDup (keys other) →
  dict_get k (dict_update other d)
  = match dict_get k other with Some v => Some v | None => dict_get k d end.
Proof.
  unfold dict_update. revert d. induction other as [|[k0 v0] other IH]; intros d Hnd; [done|].
  rewrite keys_cons in Hnd. apply NoDup_cons in Hnd as [Hk0 Hnd].
  cbn [foldl fst snd dict_get]. rewrite IH by done.
  destruct (decide (k = k0)) as [-> |Hne].
  - apply dict_get_None in Hk0. by rewrite Hk0, dict_get_set_eq.
  - by rewrite dict_get_set_ne.
Qed.

(** *** The heap *)

Lemma deref_store_eq l d (h : heap) : deref l (store l d h) = d.
Proof. unfold deref, store. by rewrite lookup_insert_eq. Qed.

Lemma deref_store_ne l l' d (h : heap) : l ≠ l' → deref l (store l' d h) = deref l h.
Proof. intros Hne. unfold deref, store. by rewrite lookup_insert_ne. Qed.

Lemma lookup_store_ne l l' d (h : heap) : l ≠ l' → store l' d h !! l = h !! l.
Proof. intros Hne. unfold store. by rewrite lookup_insert_ne. Qed.

End DictFacts.

(** ** JSONpickleable *)

Module JSONpickleableFacts.
Import PyStr JSONpickleable DictFacts.

Lemma allNotPickled_spec start mro k :
  k ∈ allNotPickled start mro
  ↔ k ∈ start ∨ ∃ c np, c ∈ mro ∧ klass_notPickled c = Some np ∧ k ∈ np.
Proof.
  unfold allNotPickled. revert start.
  induction mro as [|c mro IH]; intros start; cbn [foldl].
  - split; [by left|]. intros [?|(c & np & Hc & _)]; [done|]. by apply elem_of_nil in Hc.
  - rewrite IH. split.
    + intros [Hs|(c' & np & Hc' & Hnp & Hk)].
      * destruct (klass_notPickled c) as [theirs|] eqn:E; [|by left].
        apply elem_of_union in Hs as [?|?]; [by left|].
        right. exists c, theirs. split; [apply elem_of_cons; by left | done].
      * right. exists c', np. split; [apply elem_of_cons; by right | done].
    + intros [Hs|(c' & np & Hc' & Hnp & Hk)].
      * left. destruct (klass_notPickled c); [apply elem_of_union; by left | done].
      * apply elem_of_cons in Hc' as [-> |Hc'].
        -- left. rewrite Hnp. apply elem_of_union. by right.
        -- right. by exists c', np.
Qed.

Lemma allNotPickled_somewhere self mine k :
  self_notPickled self = Some mine →
  k ∈ allNotPickled mine (obj_mro self) ↔ notPickled_somewhere self k.
Proof.
  intros Hmine. rewrite allNotPickled_spec. unfold notPickled_somewhere. split; [|by right].
  intros [Hk|?]; [|done]. unfold self_notPickled in Hmine.
  destruct (obj_mro self) as [|c mro]; [done|].
  exists c, mine. split; [apply elem_of_cons; by left | done].
Qed.

Section facts.
Context `{Libs}.

(** *** [__getstate__] *)

Lemma function_not_module v :
  is_function v && negb (is_module_function v) = true → ∃ src, v = VFunction false src.
Proof. destruct v as [| |[] src| | |]; cbn; try done. by exists src. Qed.

(** A turn of the loop changes no dict but the state, whether it returns
    or raises. *)
Lemma getstate_item_frame np st h del kv l :
  l ≠ st → res_state (getstate_item np st h del kv) !! l = h !! l.
Proof.
  intros Hl. destruct kv as [key val]. unfold getstate_item.
  destruct (decide (key ∈ np)); [done|].
  destruct (VISAObject_test val) as [[]|]; cbn [res_state]; [by apply lookup_store_ne| |done].
  destruct (is_function val && negb (is_module_function val)); [|done].
  destruct (dill_dumps val); cbn [res_state]; [by apply lookup_store_ne | done].
Qed.

Lemma getstate_item_spec np st h del key val del1 h1 :
  getstate_item np st h del (key, val) = Done del1 h1 →
  (∀ l, l ≠ st → h1 !! l = h !! l)
  ∧ (∀ k, k ∈ del1 → k ∈ del ∨ k = key)
  ∧ (∀ k, k ∈ del → k ∈ del1)
  ∧ (key ∈ np → key ∈ del1)
  ∧ (∀ k, k ∈ keys (deref st h) → k ∈ keys (deref st h1))
  ∧ (∀ k, k ∈ keys (deref st h1) →
          k ∈ keys (deref st h) ∨ k = key ∨ synthesized np [(key, val)] k).
Proof.
  unfold getstate_item. destruct (decide (key ∈ np)) as [Hin|Hnin].
  { intros [= <- <-]. split; [done|]. split.
    { intros k [->%elem_of_singleton|?]%elem_of_union; [by right | by left]. }
    split; [intros k Hk; apply elem_of_union; by right|].
    split; [intros _; apply elem_of_union; left; by apply elem_of_singleton|].
    split; [done | by left]. }
  destruct (VISAObject_test val) as [[]|]; [| |done].
  { intros [= <- <-]. split; [intros l Hl; by apply lookup_store_ne|].
    split; [by left|]. split; [done|]. split; [done|]. split.
    - intros k Hk. rewrite deref_store_eq, keys_set. by right.
    - intros k. rewrite deref_store_eq, keys_set. intros [->|?]; [right | ]; by left. }
  destruct (is_function val && negb (is_module_function val)) eqn:Efn.
  { apply function_not_module in Efn as [src ->].
    destruct (dill_dumps _) as [dump|]; [|done].
    intros [= <- <-]. split; [intros l Hl; by apply lookup_store_ne|].
    split.
    { intros k [->%elem_of_singleton|?]%elem_of_union; [by right | by left]. }
    split; [intros k Hk; apply elem_of_union; by right|].
    split; [done|]. split.
    - intros k Hk. rewrite deref_store_eq, keys_set. by right.
    - intros k. rewrite deref_store_eq, keys_set. intros [-> |?]; [|by left].
      right. right. exists key, src. split; [done|]. split; [done|].
      apply list_elem_of_singleton. done. }
  intros [= <- <-]. split; [done|]. split; [by left|]. split; [done|].
  split; [done|]. split; [done | by left].
Qed.

Lemma getstate_loop_frame np st items h del l :
  l ≠ st → res_state (getstate_loop np st items h del) !! l = h !! l.
Proof.
  intros Hl. revert h del. induction items as [|kv items IH]; intros h del;
    cbn [getstate_loop]; [done|].
  pose proof (getstate_item_frame np st h del kv l Hl) as Hstep.
  destruct (getstate_item np st h del kv) as [del' h'|e h']; cbn [res_state] in *;
    [|done].
  by rewrite IH.
Qed.

Lemma getstate_loop_spec np st items h del h1 del1 :
  getstate_loop np st items h del = Done del1 h1 →
  (∀ l, l ≠ st → h1 !! l = h !! l)
  ∧ (∀ k, k ∈ del1 → k ∈ del ∨ k ∈ keys items)
  ∧ (∀ k, k ∈ del → k ∈ del1)
  ∧ (∀ k, k ∈ keys items → k ∈ np → k ∈ del1)
  ∧ (∀ k, k ∈ keys (deref st h) → k ∈ keys (deref st h1))
  ∧ (∀ k, k ∈ keys (deref st h1) →
          k ∈ keys (deref st h) ∨ k ∈ keys items ∨ synthesized np items k).
Proof.
  revert h del. induction items as [|[key val] items IH]; intros h del;
    cbn [getstate_loop].
  { intros [= <- <-]. split; [done|]. split; [by left|]. split; [done|].
    split; [by intros k Hk%elem_of_nil|]. split; [done | by left]. }
  destruct (getstate_item np st h del (key, val)) as [del' h'|e h'] eqn:Estep; [|done].
  intros Hrest.
  destruct (getstate_item_spec _ _ _ _ _ _ _ _ Estep) as (F1 & D1 & D2 & D3 & K1 & K2).
  destruct (IH _ _ Hrest) as (F1' & D1' & D2' & D3' & K1' & K2').
  rewrite keys_cons. repeat split.
  - intros l Hl. by rewrite F1', F1.
  - intros k Hk. destruct (D1' k Hk) as [Hk'|Hk'].
    + destruct (D1 k Hk') as [?| ->]; [by left|]. right. apply elem_of_cons. by left.
    + right. apply elem_of_cons. by right.
  - auto.
  - intros k [-> |Hk]%elem_of_cons Hnp; auto.
  - auto.
  - intros k Hk. destruct (K2' k Hk) as [Hk'|[Hk'|(a & src & -> & Ha & Hin)]].
    + destruct (K2 k Hk') as [?|[-> |(a & src & -> & Ha & Hin)]].
      * by left.
      * right. left. apply elem_of_cons. by left.
      * right. right. exists a, src. split; [done|]. split; [done|].
        apply list_elem_of_singleton in Hin as ->. apply elem_of_cons. by left.
    + right. left. apply elem_of_cons. by right.
    + right. right. exists a, src. split; [done|]. split; [done|].
      apply elem_of_cons. by right.
Qed.

Lemma delete_keys_frame ks st h l :
  l ≠ st → res_state (delete_keys ks st h) !! l = h !! l.
Proof.
  intros Hl. revert h. induction ks as [|k ks IH]; intros h; cbn [delete_keys]; [done|].
  destruct (dict_del k (deref st h)); [|done].
  rewrite IH. by apply lookup_store_ne.
Qed.

Lemma delete_keys_spec ks st h :
  NoDup ks → (∀ k, k ∈ ks → k ∈ keys (deref st h)) →
  ∃ h', delete_keys ks st h = Done tt h'
        ∧ (∀ l, l ≠ st → h' !! l = h !! l)
        ∧ (∀ x, x ∈ keys (deref st h') ↔ x ∈ keys (deref st h) ∧ x ∉ ks).
Proof.
  revert h. induction ks as [|k ks IH]; intros h Hnd Hin; cbn [delete_keys].
  { exists h. split; [done|]. split; [done|]. intros x. split; [|by intros [? _]].
    intros Hx. split; [done|]. apply not_elem_of_nil. }
  apply NoDup_cons in Hnd as [Hk Hnd].
  unfold dict_del. rewrite decide_True by (apply Hin, elem_of_cons; by left).
  destruct (IH (store st (dict_remove k (deref st h)) h) Hnd) as (h' & -> & F & K).
  { intros k' Hk'. rewrite deref_store_eq, keys_remove. split; [by intros ->|].
    apply Hin, elem_of_cons. by right. }
  exists h'. split; [done|]. split.
  - intros l Hl. rewrite F by done. by apply lookup_store_ne.
  - intros x. rewrite K, deref_store_eq, keys_remove, not_elem_of_cons. tauto.
Qed.

(** What [__getstate__] has done when it returns: the state is a new
    dict, and [np], the union it built, holds the [notPickled] sets of the
    classes along the MRO. *)
Lemma getstate_Done self h state h' :
  __getstate__ self h = Done state h' →
  state = fresh (dom h)
  ∧ (∀ l, l ≠ state → h' !! l = h !! l)
  ∧ ∃ np, (∀ k, notPickled_somewhere self k → k ∈ np)
          ∧ ∀ k, k ∈ np → k ∈ keys (deref state h') →
                 synthesized np (deref (obj_dict self) h) k.
Proof.
  unfold __getstate__, Hashable_getstate.
  set (st := fresh (dom h)).
  set (items := filter _ (deref (obj_dict self) h)).
  destruct (instance_notPickled self h) as [[| | | |mine|]|]; [| | | | | |done].
  all: rewrite ?deref_store_eq.
  all: try (destruct items as [|item items'] eqn:Eitems; [|done]; intros [= <- <-];
            split; [done|]; split; [by intros l Hl; apply lookup_store_ne|];
            exists (allNotPickled ∅ (obj_mro self));
            split; [intros k (c & np & ? & ? & ?); apply allNotPickled_spec; right;
                    by exists c, np|];
            rewrite deref_store_eq; by intros k _ Hk%elem_of_nil).
  set (np := allNotPickled mine (obj_mro self)).
  destruct (getstate_loop np st items (store st items h) ∅) as [del1 h1|e h1] eqn:Eloop;
    [|done].
  destruct (getstate_loop_spec _ _ _ _ _ _ _ Eloop) as (F1 & D1 & _ & D3 & K1 & K2).
  rewrite deref_store_eq in K1, K2.
  destruct (delete_keys_spec (elements del1) st h1) as (h2 & -> & F2 & K3).
  { apply NoDup_elements. }
  { intros k Hk%elem_of_elements. apply K1.
    destruct (D1 k Hk) as [Hk'|Hk']; [by apply elem_of_empty in Hk' | done]. }
  intros [= <- <-]. split; [done|]. split.
  { intros l Hl. rewrite F2, F1 by done. by apply lookup_store_ne. }
  exists np. split.
  { intros k (c & np' & ? & ? & ?). apply allNotPickled_spec. right. by exists c, np'. }
  intros k Hnp [Hk Hdel]%K3.
  destruct (K2 k Hk) as [Hk'|[Hk'|(a & src & -> & Ha & Hattr)]].
  - exfalso. apply Hdel, elem_of_elements, D3; done.
  - exfalso. apply Hdel, elem_of_elements, D3; done.
  - exists a, src. split; [done|]. split; [done|].
    by apply list_elem_of_filter in Hattr as [_ ?].
Qed.

(** [__getstate__] changes no dict that was there, whether it returns or
    raises. *)
Lemma getstate_frame self h l :
  is_Some (h !! l) → res_state (__getstate__ self h) !! l = h !! l.
Proof.
  intros Hlive. unfold __getstate__, Hashable_getstate.
  set (st := fresh (dom h)).
  set (items := filter _ (deref (obj_dict self) h)).
  assert (l ≠ st) as Hne.
  { intros Heq. apply (is_fresh (dom h)). fold st. rewrite <- Heq.
    by apply elem_of_dom. }
  destruct (instance_notPickled self h) as [[| | | |mine|]|];
    [| | | | | |cbn [res_state]; by apply lookup_store_ne].
  all: rewrite ?deref_store_eq.
  all: try (destruct items; cbn [res_state]; by apply lookup_store_ne).
  pose proof (getstate_loop_frame (allNotPickled mine (obj_mro self)) st items
                (store st items h) ∅ l Hne) as Hloop.
  destruct (getstate_loop _ st items _ ∅) as [del1 h1|e h1]; cbn [res_state] in *.
  - pose proof (delete_keys_frame (elements del1) st h1 l Hne) as Hdel.
    destruct (delete_keys _ st h1) as [[] h2|e h2]; cbn [res_state] in *;
      rewrite Hdel, Hloop; by apply lookup_store_ne.
  - rewrite Hloop. by apply lookup_store_ne.
Qed.

(** C3 (amended). [__getstate__] leaves the instance's own [__dict__] as
    it was, whether it returns or raises.  When it returns, a name from
    the [notPickled] set of the instance's class or of a class along its
    MRO is a key of the state only as the key [a + "_dilled"] that
    [__getstate__] itself puts in for a function-valued attribute [a] that
    is in none of those sets; so when no such name ends in "_dilled", the
    state has none of them as a key. *)
Theorem getstate_drops_notPickled (self : obj) (h : heap) :
  (is_Some (h !! obj_dict self) →
   res_state (__getstate__ self h) !! obj_dict self = h !! obj_dict self)
  ∧ ∀ state h',
      __getstate__ self h = Done state h' →
      (∀ k, notPickled_somewhere self k → k ∈ keys (deref state h') →
            ∃ a src, k = a +:+ "_dilled"
                     ∧ ¬ notPickled_somewhere self a
                     ∧ (a, VFunction false src) ∈ deref (obj_dict self) h)
      ∧ ((∀ k, notPickled_somewhere self k → ¬ ends_with k "_dilled") →
          ∀ k, notPickled_somewhere self k → k ∉ keys (deref state h')).
Proof.
  split; [apply getstate_frame|]. intros state h' Hrun.
  destruct (getstate_Done _ _ _ _ Hrun) as (_ & _ & np & Hnp & Hsyn).
  assert (∀ k, notPickled_somewhere self k → k ∈ keys (deref state h') →
               ∃ a src, k = a +:+ "_dilled"
                        ∧ ¬ notPickled_somewhere self a
                        ∧ (a, VFunction false src) ∈ deref (obj_dict self) h) as Hkeys.
  { intros k Hk Hin. destruct (Hsyn k (Hnp k Hk) Hin) as (a & src & -> & Ha & Hattr).
    exists a, src. split; [done|]. split; [|done]. intros Hsome. by apply Ha, Hnp. }
  split; [exact Hkeys|].
  intros Hnames k Hk Hin. destruct (Hkeys k Hk Hin) as (a & src & -> & _).
  apply (Hnames _ Hk). by exists a.
Qed.

(** *** The restoring loop *)

Lemma dilled_key_split key :
  slice_from (-7) key = "_dilled" → key = slice_to (-7) key +:+ "_dilled".
Proof. intros <-. symmetry. apply PyStrFacts.slice_split. Qed.

(** What a turn that returns has done to the dict at [l]. *)
Lemma restore_item_Done missing l h key val h1 :
  restore_item missing l h (key, val) = Done tt h1 →
  (is_HardwareReference val = true
   ∧ h1 = store l (dict_set key VNone (deref l h)) h)
  ∨ (is_HardwareReference val = false
     ∧ ∃ b f, val = VBytes b ∧ dill_loads b = Some f
              ∧ key = slice_to (-7) key +:+ "_dilled"
              ∧ h1 = store l (dict_remove key
                                (dict_set (slice_to (-7) key) f (deref l h))) h)
  ∨ (is_HardwareReference val = false
     ∧ slice_from (-7) key ≠ "_dilled" ∧ h1 = h).
Proof.
  unfold restore_item. destruct (is_HardwareReference val) eqn:Ehw.
  { intros [= <-]. by left. }
  destruct (String.eqb_spec (slice_from (-7) key) "_dilled") as [Hd|Hd].
  - destruct val as [|b| | | |]; try done.
    destruct (dill_loads b) as [f|] eqn:Ef; [|done].
    rewrite deref_store_eq.
    destruct (dict_del key _) as [d|] eqn:Edel; [|done].
    apply dict_del_Some in Edel as ->.
    intros [= <-]. right. left. split; [done|]. exists b, f.
    split; [done|]. split; [done|]. split; [by apply dilled_key_split|].
    unfold store. by rewrite insert_insert_eq.
  - intros [= <-]. right. right. done.
Qed.

Lemma restore_item_frame missing l h kv h1 l' :
  restore_item missing l h kv = Done tt h1 → l' ≠ l → h1 !! l' = h !! l'.
Proof.
  destruct kv as [key val].
  intros [(_ & ->)|[(_ & b & f & _ & _ & _ & ->)|(_ & _ & ->)]]%restore_item_Done Hne;
    [by apply lookup_store_ne | by apply lookup_store_ne | done].
Qed.

Lemma restore_item_NoDup missing l h kv h1 :
  restore_item missing l h kv = Done tt h1 →
  NoDup (keys (deref l h)) → NoDup (keys (deref l h1)).
Proof.
  destruct kv as [key val].
  intros [(_ & ->)|[(_ & b & f & _ & _ & _ & ->)|(_ & _ & ->)]]%restore_item_Done Hnd;
    rewrite ?deref_store_eq; [| |done].
  - by apply keys_set_NoDup.
  - by apply keys_remove_NoDup, keys_set_NoDup.
Qed.

(** A turn on another key, that is not the [_dilled] companion of [k]
    carrying bytes, leaves [k] alone. *)
Lemma restore_item_other missing l h key val h1 k :
  restore_item missing l h (key, val) = Done tt h1 →
  key ≠ k → (key = k +:+ "_dilled" → val = VNone) →
  dict_get k (deref l h1) = dict_get k (deref l h).
Proof.
  intros [(_ & ->)|[(_ & b & f & -> & _ & Hkey & ->)|(_ & _ & ->)]]%restore_item_Done
    Hne Hcomp; rewrite ?deref_store_eq; [| |done].
  - by rewrite dict_get_set_ne.
  - rewrite dict_get_remove_ne by done. apply dict_get_set_ne.
    intros ->. by specialize (Hcomp Hkey).
Qed.

(** A turn moves no [HardwareReference] in that was not to be visited
    later. *)
Lemma restore_item_hw missing l h key val h1 rest :
  (∀ b v, dill_loads b = Some v → is_HardwareReference v = false) →
  restore_item missing l h (key, val) = Done tt h1 →
  (∀ k v, dict_get k (deref l h) = Some v → is_HardwareReference v = true →
          (k, v) ∈ (key, val) :: rest) →
  (∀ k v, dict_get k (deref l h1) = Some v → is_HardwareReference v = true →
          (k, v) ∈ rest).
Proof.
  intros Hdill Hstep Hinv k v.
  assert (∀ k v, k ≠ key → dict_get k (deref l h) = Some v →
                 is_HardwareReference v = true → (k, v) ∈ rest) as Hold.
  { intros k' v' Hne Hg Hv. specialize (Hinv k' v' Hg Hv).
    apply elem_of_cons in Hinv as [[= ? ?]|?]; done. }
  apply restore_item_Done in Hstep
    as [(_ & ->)|[(Hval & b & f & -> & Hf & Hkey & ->)|(Hval & _ & ->)]];
    rewrite ?deref_store_eq.
  - destruct (decide (k = key)) as [->|Hne].
    + rewrite dict_get_set_eq. by intros [= <-].
    + rewrite dict_get_set_ne by done. by apply Hold.
  - destruct (decide (k = key)) as [->|Hne]; [by rewrite dict_get_remove_eq|].
    rewrite dict_get_remove_ne by done.
    destruct (decide (k = slice_to (-7) key)) as [->|Hne'].
    + rewrite dict_get_set_eq. intros [= <-] Hv. by rewrite (Hdill _ _ Hf) in Hv.
    + rewrite dict_get_set_ne by done. by apply Hold.
  - intros Hg Hv. specialize (Hinv k v Hg Hv).
    apply elem_of_cons in Hinv as [[= -> ->]|?]; [congruence | done].
Qed.

Lemma restore_items_app missing pre post l h :
  restore_items missing (pre ++ post) l h
  = match restore_items missing pre l h with
    | Done _ h' => restore_items missing post l h'
    | Raised e h' => Raised e h'
    end.
Proof.
  revert h. induction pre as [|kv pre IH]; intros h; cbn [app restore_items]; [done|].
  destruct (restore_item missing l h kv) as [[] h'|]; [apply IH | done].
Qed.

Lemma restore_items_frame missing items l h h1 l' :
  restore_items missing items l h = Done tt h1 → l' ≠ l → h1 !! l' = h !! l'.
Proof.
  revert h. induction items as [|kv items IH]; intros h; cbn [restore_items].
  { by intros [= <-]. }
  destruct (restore_item missing l h kv) as [[] h'|] eqn:Estep; [|done].
  intros Hrest Hne. rewrite (IH _ Hrest Hne). by eapply restore_item_frame.
Qed.

Lemma restore_items_NoDup missing items l h h1 :
  restore_items missing items l h = Done tt h1 →
  NoDup (keys (deref l h)) → NoDup (keys (deref l h1)).
Proof.
  revert h. induction items as [|kv items IH]; intros h; cbn [restore_items].
  { by intros [= <-]. }
  destruct (restore_item missing l h kv) as [[] h'|] eqn:Estep; [|done].
  intros Hrest Hnd. apply (IH _ Hrest). by eapply restore_item_NoDup.
Qed.

Lemma restore_items_quiet missing items l h h1 k :
  restore_items missing items l h = Done tt h1 →
  (∀ k' v', (k', v') ∈ items → k' ≠ k ∧ (k' = k +:+ "_dilled" → v' = VNone)) →
  dict_get k (deref l h1) = dict_get k (deref l h).
Proof.
  revert h. induction items as [|[key val] items IH]; intros h; cbn [restore_items].
  { by intros [= <-]. }
  destruct (restore_item missing l h (key, val)) as [[] h'|] eqn:Estep; [|done].
  intros Hrest Hq.
  rewrite (IH _ Hrest) by (intros k' v' Hin; apply Hq, elem_of_cons; by right).
  destruct (Hq key val) as [Hne Hcomp]; [apply elem_of_cons; by left|].
  by eapply restore_item_other.
Qed.

Lemma restore_items_hw missing items l h h1 :
  (∀ b v, dill_loads b = Some v → is_HardwareReference v = false) →
  restore_items missing items l h = Done tt h1 →
  (∀ k v, dict_get k (deref l h) = Some v → is_HardwareReference v = true →
          (k, v) ∈ items) →
  no_HardwareReference (deref l h1).
Proof.
  intros Hdill. revert h. induction items as [|[key val] items IH]; intros h;
    cbn [restore_items].
  { intros [= <-] Hinv k v Hg. destruct (is_HardwareReference v) eqn:Ev; [|done].
    by apply Hinv, elem_of_nil in Hg. }
  destruct (restore_item missing l h (key, val)) as [[] h'|] eqn:Estep; [|done].
  intros Hrest Hinv. apply (IH _ Hrest). by eapply restore_item_hw.
Qed.

(** The fate of one key of a duplicate-free item list whose [_dilled]
    companion, if any, carries [None]. *)
Lemma restore_items_key missing items l h h1 k v :
  NoDup (keys items) → (k, v) ∈ items →
  (∀ k' v', (k', v') ∈ items → k' = k +:+ "_dilled" → v' = VNone) →
  restore_items missing items l h = Done tt h1 →
  (is_HardwareReference v = true → dict_get k (deref l h1) = Some VNone)
  ∧ (v = VNone → dict_get k (deref l h) = Some VNone →
     dict_get k (deref l h1) = Some VNone).
Proof.
  intros Hnd Hin Hcomp Hrun.
  apply list_elem_of_split in Hin as (pre & post & ->).
  unfold keys in Hnd. rewrite fmap_app, fmap_cons in Hnd. cbn [fst] in Hnd.
  apply NoDup_app in Hnd as (_ & Hpre & [Hpost _]%NoDup_cons).
  assert (∀ part, part = pre ∨ part = post →
            ∀ k' v', (k', v') ∈ part →
                     k' ≠ k ∧ (k' = k +:+ "_dilled" → v' = VNone)) as Hquiet.
  { intros part Hpart k' v' Hin'. split.
    - intros ->. apply elem_keys in Hin'. destruct Hpart as [-> | ->]; [|done].
      apply (Hpre k Hin'). apply elem_of_cons. by left.
    - apply Hcomp. destruct Hpart as [-> | ->].
      + apply elem_of_app. by left.
      + apply elem_of_app. right. apply elem_of_cons. by right. }
  rewrite restore_items_app in Hrun.
  destruct (restore_items missing pre l h) as [[] h_pre|] eqn:Epre; [|done].
  cbn [restore_items] in Hrun.
  destruct (restore_item missing l h_pre (k, v)) as [[] h_k|] eqn:Ek; [|done].
  rewrite (restore_items_quiet _ _ _ _ _ k Hrun (Hquiet post (or_intror eq_refl))).
  pose proof (restore_items_quiet _ _ _ _ _ k Epre (Hquiet pre (or_introl eq_refl)))
    as Hsame.
  apply restore_item_Done in Ek
    as [(_ & ->)|[(Hv & b & f & -> & _)|(Hv & _ & ->)]]; rewrite ?deref_store_eq.
  - split; intros; apply dict_get_set_eq.
  - split; [done|]. done.
  - split; [congruence|]. intros _ Hg. by rewrite Hsame.
Qed.

(** *** [for a in notPickled: d[a] = None] *)

Lemma set_none_list_spec (ks : list string) l h :
  let h' := foldl (fun h a => store l (dict_set a VNone (deref l h)) h) h ks in
  (∀ l', l' ≠ l → h' !! l' = h !! l')
  ∧ (∀ k, dict_get k (deref l h')
          = if decide (k ∈ ks) then Some VNone else dict_get k (deref l h))
  ∧ (NoDup (keys (deref l h)) → NoDup (keys (deref l h'))).
Proof.
  cbv zeta. revert h. induction ks as [|a ks IH]; intros h; cbn [foldl].
  { split; [done|]. split; [|done]. intros k. rewrite decide_False; [done|].
    apply not_elem_of_nil. }
  destruct (IH (store l (dict_set a VNone (deref l h)) h)) as (F & G & N).
  split; [|split].
  - intros l' Hl'. rewrite F by done. by apply lookup_store_ne.
  - intros k. rewrite G, deref_store_eq.
    destruct (decide (k ∈ ks)) as [Hin|Hnin].
    + rewrite decide_True; [done|]. apply elem_of_cons. by right.
    + destruct (decide (k = a)) as [->|Hne].
      * rewrite dict_get_set_eq, decide_True; [done|]. apply elem_of_cons. by left.
      * rewrite dict_get_set_ne by done. rewrite decide_False; [done|].
        rewrite not_elem_of_cons. done.
  - intros Hnd. apply N. rewrite deref_store_eq. by apply keys_set_NoDup.
Qed.

Lemma set_none_spec np l h :
  (∀ l', l' ≠ l → set_none np l h !! l' = h !! l')
  ∧ (∀ k, dict_get k (deref l (set_none np l h))
          = if decide (k ∈ np) then Some VNone else dict_get k (deref l h))
  ∧ (NoDup (keys (deref l h)) → NoDup (keys (deref l (set_none np l h)))).
Proof.
  destruct (set_none_list_spec (elements np) l h) as (F & G & N).
  split; [exact F|]. split; [|exact N].
  intros k. unfold set_none. rewrite G.
  destruct (decide (k ∈ np)) as [Hin|Hnin].
  - rewrite decide_True; [done|]. by apply elem_of_elements.
  - rewrite decide_False; [done|]. by rewrite elem_of_elements.
Qed.

(** *** The two ways of restoring *)

Lemma setstate_spec self state h h' :
  NoDup (keys (deref state h)) →
  __setstate__ self state h = Done tt h' →
  (∀ np a, self_notPickled self = Some np → a ∈ np →
           dict_get a (deref (obj_dict self) h') = Some VNone)
  ∧ (∀ k x, dict_get k (deref state h) = Some (VHardwareReference x) →
            (k +:+ "_dilled") ∉ keys (deref state h) →
            dict_get k (deref (obj_dict self) h') = Some VNone)
  ∧ ((∀ b v, dill_loads b = Some v → is_HardwareReference v = false) →
     obj_dict self ≠ state → deref (obj_dict self) h = [] →
     no_HardwareReference (deref (obj_dict self) h')).
Proof.
  intros Hnd. unfold __setstate__.
  destruct (restore_items KeyError (deref state h) state h) as [[] h1|] eqn:Eloop; [|done].
  destruct (self_notPickled self) as [np|] eqn:Enp; [|done].
  intros [= <-]. unfold Hashable_setstate. rewrite deref_store_eq.
  destruct (set_none_spec np state h1) as (F2 & G2 & N2).
  pose proof (restore_items_NoDup _ _ _ _ _ Eloop Hnd) as Hnd1.
  specialize (N2 Hnd1).
  assert (∀ k, dict_get k (dict_update (deref state (set_none np state h1))
                                       (deref (obj_dict self) (set_none np state h1)))
               = if decide (k ∈ np) then Some VNone
                 else match dict_get k (deref state h1) with
                      | Some v => Some v
                      | None => dict_get k (deref (obj_dict self) (set_none np state h1))
                      end) as Hget.
  { intros k. rewrite dict_get_update, G2 by done. by destruct (decide (k ∈ np)). }
  split; [|split].
  - intros np' a [= <-] Ha. by rewrite Hget, decide_True.
  - intros k x Hk Hcomp. rewrite Hget. destruct (decide (k ∈ np)); [done|].
    apply dict_get_Some_elem in Hk.
    assert (∀ k' v', (k', v') ∈ deref state h → k' = k +:+ "_dilled" → v' = VNone)
      as Hcomp'.
    { intros k' v' Hin ->. destruct Hcomp. by eapply elem_keys. }
    destruct (restore_items_key _ _ _ _ _ _ _ Hnd Hk Hcomp' Eloop) as [Hhw _].
    by rewrite Hhw.
  - intros Hdill Hne Hfresh k v. rewrite Hget. destruct (decide (k ∈ np)).
    { by intros [= <-]. }
    pose proof (restore_items_hw _ _ _ _ _ Hdill Eloop) as Hno.
    destruct (dict_get k (deref state h1)) as [v1|] eqn:Ev1.
    + intros [= <-]. eapply Hno; [|done].
      intros k' v' Hg _. by apply dict_get_Some_elem.
    + unfold deref at 1. rewrite F2 by done.
      rewrite (restore_items_frame _ _ _ _ _ _ Eloop Hne).
      fold (deref (obj_dict self) h). by rewrite Hfresh.
Qed.

Lemma fromJSONcheck_spec cls json h o h0 o' h' :
  restore json h = Done o h0 →
  NoDup (keys (deref (obj_dict o) h0)) →
  _fromJSONcheck cls json h = Done o' h' →
  o' = o
  ∧ (∀ np a, klass_notPickled cls = Some np → a ∈ np →
             (a +:+ "_dilled") ∉ keys (deref (obj_dict o) h0) →
             dict_get a (deref (obj_dict o) h') = Some VNone)
  ∧ (∀ k x, dict_get k (deref (obj_dict o) h0) = Some (VHardwareReference x) →
            (k +:+ "_dilled") ∉ keys (deref (obj_dict o) h0) →
            dict_get k (deref (obj_dict o) h') = Some VNone)
  ∧ ((∀ b v, dill_loads b = Some v → is_HardwareReference v = false) →
     no_HardwareReference (deref (obj_dict o) h')).
Proof.
  intros Hres Hnd. unfold _fromJSONcheck. rewrite Hres.
  destruct (negb (isinstance o cls) && negb (type_name o =? klass_name cls)%string);
    [done|].
  destruct (klass_notPickled cls) as [np|] eqn:Enp; [|done].
  set (l := obj_dict o). fold l in Hnd.
  destruct (set_none_spec np l h0) as (F1 & G1 & N1). specialize (N1 Hnd).
  set (h1 := set_none np l h0) in *.
  destruct (restore_items AttributeError (deref l h1) l h1) as [[] h2|] eqn:Eloop; [|done].
  intros [= <- <-]. split; [done|].
  assert (∀ k, (k +:+ "_dilled") ∉ keys (deref l h0) →
               ∀ k' v', (k', v') ∈ deref l h1 → k' = k +:+ "_dilled" → v' = VNone)
    as Hcomp.
  { intros k Hk k' v' Hin ->. apply (dict_get_elem_NoDup _ _ _ N1) in Hin.
    rewrite G1 in Hin. destruct (decide (k +:+ "_dilled" ∈ np)); [congruence|].
    apply dict_get_Some_elem, elem_keys in Hin. done. }
  assert (∀ k, k ∈ np → (k +:+ "_dilled") ∉ keys (deref l h0) →
               dict_get k (deref l h2) = Some VNone) as Hnone.
  { intros k Hk Hk'.
    assert (dict_get k (deref l h1) = Some VNone) as Hg by (by rewrite G1, decide_True).
    destruct (restore_items_key _ _ _ _ _ _ _ N1 (dict_get_Some_elem _ _ _ Hg)
                (Hcomp k Hk') Eloop) as [_ Hkeep].
    by apply Hkeep. }
  split; [|split].
  - intros np' a [= <-]. apply Hnone.
  - intros k x Hk Hk'. destruct (decide (k ∈ np)) as [Hin|Hnin]; [by apply Hnone|].
    assert (dict_get k (deref l h1) = Some (VHardwareReference x)) as Hg
      by (by rewrite G1, decide_False).
    destruct (restore_items_key _ _ _ _ _ _ _ N1 (dict_get_Some_elem _ _ _ Hg)
                (Hcomp k Hk') Eloop) as [Hhw _].
    by apply Hhw.
  - intros Hdill. eapply restore_items_hw; [done | exact Eloop |].
    intros k v Hg _. by apply dict_get_Some_elem.
Qed.

(** C10 (amended).  [__setstate__], when it returns on a duplicate-free
    state: every name in the class's [notPickled] is an attribute with value
    [None]; a key whose stored value was a [HardwareReference] is [None]
    unless the state also has that key's [_dilled] companion; and, if
    [dill.loads] yields no [HardwareReference] and the object was new, no
    attribute holds one.
    [_fromJSONcheck], when it returns on a duplicate-free restored object:
    it returns that object, with the same three guarantees, the first one
    for the names whose [_dilled] companion the restored object did not
    carry. *)
Theorem restored_object_guarantees :
  (∀ self state h h',
      NoDup (keys (deref state h)) →
      __setstate__ self state h = Done tt h' →
      (∀ np a, self_notPickled self = Some np → a ∈ np →
               dict_get a (deref (obj_dict self) h') = Some VNone)
      ∧ (∀ k x, dict_get k (deref state h) = Some (VHardwareReference x) →
                (k +:+ "_dilled") ∉ keys (deref state h) →
                dict_get k (deref (obj_dict self) h') = Some VNone)
      ∧ ((∀ b v, dill_loads b = Some v → is_HardwareReference v = false) →
         obj_dict self ≠ state → deref (obj_dict self) h = [] →
         no_HardwareReference (deref (obj_dict self) h')))
  ∧ (∀ cls json h o h0 o' h',
      restore json h = Done o h0 →
      NoDup (keys (deref (obj_dict o) h0)) →
      _fromJSONcheck cls json h = Done o' h' →
      o' = o
      ∧ (∀ np a, klass_notPickled cls = Some np → a ∈ np →
                 (a +:+ "_dilled") ∉ keys (deref (obj_dict o) h0) →
                 dict_get a (deref (obj_dict o) h') = Some VNone)
      ∧ (∀ k x, dict_get k (deref (obj_dict o) h0) = Some (VHardwareReference x) →
                (k +:+ "_dilled") ∉ keys (deref (obj_dict o) h0) →
                dict_get k (deref (obj_dict o) h') = Some VNone)
      ∧ ((∀ b v, dill_loads b = Some v → is_HardwareReference v = false) →
         no_HardwareReference (deref (obj_dict o) h'))).
Proof. split; [exact setstate_spec | exact fromJSONcheck_spec]. Qed.

End facts.

(** *** A bench *)

(** The live laser is dropped from the state, the gain is kept. *)
Example getstate_of_bench :
  ∃ h', @__getstate__ Example.libs Example.bench Example.bench_heap = Done 2%positive h'
        ∧ deref 2 h' = [("gain", VObject "int" ["object"] "3")].
Proof. eexists. split; vm_compute; reflexivity. Qed.

(** Restoring the one document the example unpickler knows: the placeholder
    and the laser come back as [None]. *)
Example fromJSONcheck_of_bench :
  ∃ o h', @_fromJSONcheck Example.libs (mkKlass "Bench" (Some {["laser"]})) "{bench}" ∅
          = Done o h'
          ∧ deref (obj_dict o) h'
            = [("scope", VNone); ("gain", VObject "int" ["object"] "3");
               ("laser", VNone)].
Proof. eexists _, _. split; vm_compute; reflexivity. Qed.

Lemma getstate_drops_notPickled_witness :
  is_Some (Example.bench_heap !! obj_dict Example.bench)
  ∧ @__getstate__ Example.libs Example.bench Example.bench_heap
    = Done 2%positive
        (res_state (@__getstate__ Example.libs Example.bench Example.bench_heap))
  ∧ res_state (@__getstate__ Example.libs Example.bench Example.bench_heap)
      !! obj_dict Example.bench
    = Example.bench_heap !! obj_dict Example.bench
  ∧ ((∀ k, notPickled_somewhere Example.bench k → ¬ ends_with k "_dilled") →
     ∀ k, notPickled_somewhere Example.bench k →
          k ∉ keys (deref 2 (res_state (@__getstate__ Example.libs Example.bench
                                           Example.bench_heap)))).
Proof.
  assert (is_Some (Example.bench_heap !! obj_dict Example.bench)) as Hlive
    by (eexists; vm_compute; reflexivity).
  assert (@__getstate__ Example.libs Example.bench Example.bench_heap
          = Done 2%positive
              (res_state (@__getstate__ Example.libs Example.bench Example.bench_heap)))
    as Hrun by (vm_compute; reflexivity).
  split; [exact Hlive|]. split; [exact Hrun|].
  destruct (@getstate_drops_notPickled Example.libs Example.bench Example.bench_heap)
    as [Hsame Hstate].
  split; [exact (Hsame Hlive)|].
  exact (proj2 (Hstate _ _ Hrun)).
Defined.

(** C3 as stated fails: with [notPickled = {"f_dilled"}] and a lambda in
    attribute [f], the state [__getstate__] returns is
    [{"f_dilled": dill.dumps(f)}], whose key is in [notPickled]. *)
Lemma dilled_key_in_notPickled :
  notPickled_somewhere Example.lambda_bench "f_dilled"
  ∧ ∃ state h',
      @__getstate__ Example.libs Example.lambda_bench Example.lambda_heap
      = Done state h'
      ∧ deref state h' = [("f_dilled", VBytes "lambda x: x")]
      ∧ "f_dilled" ∈ keys (deref state h').
Proof.
  split.
  - exists (mkKlass "Bench" (Some {["f_dilled"]})), {["f_dilled"]}.
    split; [apply elem_of_cons; by left|]. split; [reflexivity|].
    by apply elem_of_singleton.
  - exists 2%positive,
      (res_state (@__getstate__ Example.libs Example.lambda_bench Example.lambda_heap)).
    split; [vm_compute; reflexivity|].
    assert (deref 2 (res_state (@__getstate__ Example.libs Example.lambda_bench
                                              Example.lambda_heap))
            = [("f_dilled", VBytes "lambda x: x")]) as Hstate
      by (vm_compute; reflexivity).
    split; [exact Hstate|]. rewrite Hstate. apply list_elem_of_here.
Qed.

Lemma restored_object_guarantees_witness :
  let h := Example.stored_heap Example.scope_state in
  let h' := res_state (@__setstate__ Example.libs Example.bench 2 h) in
  NoDup (keys (deref 2 h))
  ∧ @__setstate__ Example.libs Example.bench 2 h = Done tt h'
  ∧ dict_get "scope" (deref 2 h) = Some (VHardwareReference "Reference to a Scope")
  ∧ (("scope" +:+ "_dilled") ∉ keys (deref 2 h))
  ∧ dict_get "scope" (deref (obj_dict Example.bench) h') = Some VNone.
Proof.
  cbv zeta.
  assert (NoDup (keys (deref 2 (Example.stored_heap Example.scope_state)))) as Hnd.
  { change (NoDup ["scope"; "gain"]%string).
    apply (bool_decide_unpack _). vm_compute. exact I. }
  assert (@__setstate__ Example.libs Example.bench 2
            (Example.stored_heap Example.scope_state)
          = Done tt (res_state (@__setstate__ Example.libs Example.bench 2
                                  (Example.stored_heap Example.scope_state)))) as Hrun
    by (vm_compute; reflexivity).
  assert (dict_get "scope" (deref 2 (Example.stored_heap Example.scope_state))
          = Some (VHardwareReference "Reference to a Scope")) as Hscope
    by (vm_compute; reflexivity).
  assert (("scope" +:+ "_dilled") ∉ keys (deref 2 (Example.stored_heap Example.scope_state)))
    as Hcomp.
  { change ("scope_dilled" ∉ ["scope"; "gain"]%string).
    apply (bool_decide_unpack _). vm_compute. exact I. }
  split; [exact Hnd|]. split; [exact Hrun|]. split; [exact Hscope|].
  split; [exact Hcomp|].
  exact (proj1 (proj2 (proj1 (@restored_object_guarantees Example.libs)
                         Example.bench 2%positive _ _ Hnd Hrun)) _ _ Hscope Hcomp).
Defined.

(** C10 as stated fails: a stored state
    [{"scope": HardwareReference, "scope_dilled": <dill dump>}] restores
    [scope] from the dump after the placeholder was turned into [None], so
    the attribute whose stored value was a placeholder ends up holding a
    function. *)
Lemma placeholder_overwritten_by_dilled :
  let h := Example.stored_heap Example.clashing_state in
  dict_get "scope" (deref 2 h) = Some (VHardwareReference "Reference to a Scope")
  ∧ ∃ h', @__setstate__ Example.libs Example.bench 2 h = Done tt h'
          ∧ dict_get "scope" (deref (obj_dict Example.bench) h')
            = Some (VFunction false "lambda: 0").
Proof.
  cbv zeta. split; [vm_compute; reflexivity|].
  eexists. split; vm_compute; reflexivity.
Qed.

End JSONpickleableFacts.

(** ** The sweep counter: calls of several steps *)

Module ProgressWriterMore.
Import ProgressWriter ProgressWriterFacts.

(** *** Several steps in one call *)

Lemma updateSteps_count n st :
  length (currentPnt st) = length (size st) →
  ∃ st', updateSteps n st = Done tt st'
         ∧ length (currentPnt st') = length (size st')
         ∧ size st' = size st ∧ totalSize st' = totalSize st
         ∧ ofTotal st' = ofTotal st + Z.of_nat n
         ∧ serving st' = serving st ∧ printing st' = printing st
         ∧ out st' = out st
         ∧ (completed st' = true
            ↔ completed st = true
              ∨ ofTotal st < totalSize st ≤ ofTotal st + Z.of_nat n).
Proof.
  revert st. induction n as [|n IH]; intros st Hl; cbn [updateSteps].
  { exists st. repeat split; try done; try lia. - by left. - intros [?|?]; [done | lia]. }
  rewrite updateOneInternal_step by done.
  destruct (IH (step_state st) (step_state_length st Hl))
    as (st' & -> & Hl' & Hs & Ht & Ho & Hsv & Hp & Hout & Hc).
  exists st'. cbn [step_state size totalSize ofTotal serving printing out completed] in *.
  split; [done|]. split; [done|]. split; [done|]. split; [done|].
  split; [lia|]. split; [done|]. split; [done|]. split; [done|].
  rewrite Hc. destruct (Z.eqb_spec (ofTotal st + 1) (totalSize st)) as [Heq|Hne].
  - split; [intros _|by left]. destruct (completed st); [by left | right; lia].
  - split.
    + intros [?|?]; [by left | right; lia].
    + intros [?|?]; [by left | right; lia].
Qed.

Lemma updateSteps_at_count sz k n st :
  Forall int64_size sz → 0 ≤ k → at_count sz k st →
  ∃ st', updateSteps n st = Done tt st' ∧ at_count sz (k + Z.of_nat n) st'.
Proof.
  intros Hsz. revert k st. induction n as [|n IH]; intros k st Hk Hat; cbn [updateSteps].
  { exists st. split; [done|]. by replace (k + Z.of_nat 0) with k by lia. }
  rewrite updateOneInternal_step.
  2:{ destruct Hat as (-> & -> & _). apply mixed_radix_length. }
  destruct (IH (k + 1) (step_state st) ltac:(lia) (step_at_count sz k st Hsz Hk Hat))
    as (st' & -> & Hat').
  exists st'. split; [done|].
  by replace (k + Z.of_nat (S n)) with (k + 1 + Z.of_nat n) by lia.
Qed.

Lemma mixed_radix_shift sz k m :
  Forall (fun s => 1 ≤ s) sz →
  mixed_radix sz (k + m * prod sz) = mixed_radix sz k.
Proof.
  intros Hsz. revert m. induction Hsz as [|s sz Hs Hsz IH]; intros m; [done|].
  cbn [mixed_radix prod fold_right]. fold (prod sz).
  pose proof (prod_pos sz Hsz) as Hp.
  replace (k + m * (s * prod sz)) with (k + (m * s) * prod sz) by lia.
  rewrite IH. f_equal.
  rewrite Z.div_add by lia. apply Z.mod_add. lia.
Qed.

Lemma step_state_same_counter s s' :
  same_counter s s' → same_counter (step_state s) (step_state s').
Proof.
  unfold same_counter. cbn [step_state size currentPnt totalSize ofTotal completed
                            serving printing].
  intros (-> & -> & -> & -> & -> & -> & ->). done.
Qed.

Lemma updateSteps_same_counter n s s' :
  length (currentPnt s) = length (size s) → same_counter s s' →
  ∃ r r', updateSteps n s = Done tt r ∧ updateSteps n s' = Done tt r'
          ∧ same_counter r r'.
Proof.
  revert s s'. induction n as [|n IH]; intros s s' Hl Hsame; cbn [updateSteps].
  { by exists s, s'. }
  assert (length (currentPnt s') = length (size s')) as Hl'.
  { destruct Hsame as (-> & -> & _). done. }
  rewrite !updateOneInternal_step by done.
  apply IH; [by apply step_state_length | by apply step_state_same_counter].
Qed.

Lemma updateSteps_add a b st :
  updateSteps (a + b) st
  = match updateSteps a st with
    | Done _ st' => updateSteps b st'
    | Raised e st' => Raised e st'
    end.
Proof.
  revert st. induction a as [|a IH]; intros st; cbn [Nat.add updateSteps]; [done|].
  destruct (updateOneInternal st) as [[] st'|]; [apply IH | done].
Qed.

Lemma prod_zero l : 0 ∈ l → prod l = 0.
Proof.
  induction l as [|s l IH]; intros Hin; [by apply elem_of_nil in Hin|].
  cbn [prod fold_right]. fold (prod l).
  apply elem_of_cons in Hin as [<-|Hin]; [lia|]. rewrite IH by done. lia.
Qed.

Section clock.
Context `{Clock}.

Lemma update_count_spec st steps :
  length (currentPnt st) = length (size st) →
  completed st = false →
  let st' := res_state (update steps st) in
  length (currentPnt st') = length (size st')
  ∧ size st' = size st ∧ totalSize st' = totalSize st
  ∧ ofTotal st' = ofTotal st + Z.max 0 steps
  ∧ (completed st' = true
     ↔ ofTotal st < totalSize st ≤ ofTotal st + Z.max 0 steps)
  ∧ (page_renders st ∨ completed st' = true → update steps st = Done tt st').
Proof.
  intros Hl Hc. cbv zeta. unfold update. rewrite Hc.
  destruct (updateSteps_count (Z.to_nat steps) st Hl)
    as (st1 & -> & Hl1 & Hs & Ht & Ho & Hsv & _ & _ & Hcomp).
  pose proof (report_same_counter st1) as (E1 & E2 & E3 & E4 & E5 & _).
  rewrite E1, E2, E3, E4, E5, Hs, Ht, Ho, Hcomp, Hc.
  replace (Z.of_nat (Z.to_nat steps)) with (Z.max 0 steps) by lia.
  split; [by rewrite Hl1, Hs|]. split; [done|]. split; [done|]. split; [done|].
  split.
  { split; [intros [?|?]; [done|done] | intros ?; by right]. }
  intros Hok. apply not_raised, report_Done.
  destruct Hok as [Hp|[?|Hdone]]; [|done|].
  - destruct (serving st1) eqn:Es; [|tauto]. right. right. right.
    apply Hp. by rewrite <- Hsv.
  - left. apply Hcomp. right. lia.
Qed.

Lemma update_init_spec nm swp rs sp steps :
  Forall (fun s => 1 ≤ s) (sizes_of swp) →
  prod (sizes_of swp) < 2 ^ 63 →
  0 ≤ steps →
  let st' := res_state (update steps (init nm swp rs sp)) in
  currentPnt st' = mixed_radix (sizes_of swp) steps
  ∧ ofTotal st' = steps
  ∧ (completed st' = true ↔ prod (sizes_of swp) ≤ steps)
  ∧ ((rs = true → ∀ s, tims_error s = None) →
     __init__ nm swp rs sp = Done tt (init nm swp rs sp)
     ∧ update steps (init nm swp rs sp) = Done tt st').
Proof.
  intros Hpos Hfit Hsteps. cbv zeta.
  destruct (init_at_count nm swp rs sp Hpos Hfit) as [Hat Hc].
  pose proof (prod_pos _ Hpos) as Hp.
  pose proof (init_length nm swp rs sp) as Hl.
  destruct (update_count_spec (init nm swp rs sp) steps Hl Hc)
    as (_ & _ & _ & Ho & Hcomp & Hret).
  unfold update in *. rewrite Hc in *.
  destruct (updateSteps_at_count _ 0 (Z.to_nat steps) _ (fits_int64 _ Hpos Hfit)
              ltac:(lia) Hat) as (st1 & Hrun & Hat1).
  rewrite Hrun in *.
  pose proof (report_same_counter st1) as (_ & E2 & _ & _).
  rewrite E2. destruct Hat1 as (_ & -> & _ & _). destruct Hat as (_ & _ & Ht & Ho0).
  rewrite Ht, Ho0 in Hcomp. rewrite Ho0 in Ho.
  replace (0 + Z.of_nat (Z.to_nat steps)) with steps by lia.
  split; [done|]. split; [lia|]. split; [rewrite Hcomp; lia|].
  intros Hclock. split.
  - apply init_Done. destruct rs; [right; right; by apply Hclock | by left].
  - apply Hret. left. intros Hs.
    destruct (init_counters nm swp rs sp) as (_ & _ & _ & _ & _ & Hsv & _).
    rewrite Hsv in Hs. by apply Hclock.
Qed.

(** *** The counter is periodic *)

(** X3.  The counter is periodic in the number of points: from a new
    reporter whose sizes are all at least 1 and whose number of points
    fits int64, [update(k + m * prod(swpSize))] leaves the same
    [currentPnt] as [update(k)]. *)
Theorem counter_is_periodic nm swp rs sp k m :
  Forall (fun s => 1 ≤ s) (sizes_of swp) →
  prod (sizes_of swp) < 2 ^ 63 →
  0 ≤ k → 0 ≤ m →
  currentPnt (res_state (update (k + m * prod (sizes_of swp)) (init nm swp rs sp)))
  = currentPnt (res_state (update k (init nm swp rs sp))).
Proof.
  intros Hpos Hfit Hk Hm. pose proof (prod_pos _ Hpos) as Hp.
  destruct (update_init_spec nm swp rs sp (k + m * prod (sizes_of swp)) Hpos Hfit)
    as (-> & _); [nia|].
  destruct (update_init_spec nm swp rs sp k Hpos Hfit Hk) as (-> & _).
  by apply mixed_radix_shift.
Qed.

(** *** What a call writes *)

Lemma updateSteps_out n st :
  out (res_state (updateSteps n st)) = out st
  ∧ serving (res_state (updateSteps n st)) = serving st
  ∧ printing (res_state (updateSteps n st)) = printing st.
Proof.
  revert st. induction n as [|n IH]; intros st; cbn [updateSteps]; [done|].
  unfold updateOneInternal.
  destruct (odometer _ _ _ _) as [[] cur|e cur]; [|done].
  destruct (IH (mk (name st) (size st) cur (totalSize st) (ofTotal st + 1)
                   (if ofTotal st + 1 =? totalSize st then true else completed st)
                   (serving st) (printing st) (out st))) as (-> & -> & ->).
  done.
Qed.

Lemma report_out st :
  ∃ written,
    out (res_state (report st)) = out st ++ written
    ∧ length written
      = if raised (report st) then 0%nat
        else (Nat.b2n (serving st) + Nat.b2n (printing st))%nat.
Proof.
  unfold report. destruct (completed st).
  { destruct st as [nm sz cur T n c [] [] o]; cbn; rewrite <- ?app_assoc; cbn [app];
      first [ by eexists [_; _] | by eexists [_] | (exists []; by rewrite app_nil_r) ]. }
  destruct (serving st) eqn:Es.
  - unfold writeHtml. rewrite Es.
    destruct (if totalSize st =? 0 then None else tims_error st); cbn [res_state raised].
    { exists []. by rewrite app_nil_r. }
    destruct st as [nm sz cur T n c sv [] o]; cbn; rewrite <- ?app_assoc; cbn [app];
      first [ by eexists [_; _] | by eexists [_] ].
  - cbn [res_state raised].
    destruct st as [nm sz cur T n c sv [] o]; cbn;
      first [ by eexists [_] | (exists []; by rewrite app_nil_r) ].
Qed.

(** X4.  A call of [update] writes once, at its end and whatever
    [steps] is: a call that returns has added one output for each
    channel that is on (the page when serving, a line when printing), and
    a call that raises has added none. *)
Theorem update_writes_once st steps :
  ∃ written,
    out (res_state (update steps st)) = out st ++ written
    ∧ length written
      = if raised (update steps st) then 0%nat
        else (Nat.b2n (serving st) + Nat.b2n (printing st))%nat.
Proof.
  unfold update. destruct (completed st).
  { exists []. by rewrite app_nil_r. }
  destruct (updateSteps_out (Z.to_nat steps) st) as (Hout & Hsv & Hp).
  destruct (updateSteps (Z.to_nat steps) st) as [[] st1|e st1]; cbn [res_state raised] in *.
  2:{ exists []. by rewrite app_nil_r. }
  rewrite <- Hout, <- Hsv, <- Hp. apply report_out.
Qed.

(** *** Two calls against one *)

(** X5.  Steps add up: when [update(a)] returns and has not completed
    the sweep, [update(b)] after it leaves the same counter ([size],
    [currentPnt], [totalSize], [ofTotal], [completed] and the channels) as
    the one call [update(a + b)], whether these return or raise; and they
    both return when no page is to be written or the clock never makes the
    expected completion time fail to format.  The two runs differ in what
    was written on the way only. *)
Theorem update_in_two_calls st a b st1 :
  length (currentPnt st) = length (size st) →
  0 ≤ a → 0 ≤ b →
  update a st = Done tt st1 → completed st1 = false →
  same_counter (res_state (update b st1)) (res_state (update (a + b) st))
  ∧ (page_renders st →
     ∃ st2 st12, update b st1 = Done tt st2 ∧ update (a + b) st = Done tt st12).
Proof.
  intros Hl Ha Hb. unfold update at 1.
  destruct (completed st) eqn:Hc; [done|].
  destruct (updateSteps_count (Z.to_nat a) st Hl) as (sA & HrunA & HlA & _).
  rewrite HrunA. intros HrepA Hc1.
  pose proof (report_same_counter sA) as HsameA. rewrite HrepA in HsameA.
  cbn [res_state] in HsameA.
  destruct (updateSteps_same_counter (Z.to_nat b) sA st1 HlA HsameA)
    as (sB & sB1 & HrunB & HrunB1 & HsameB).
  assert (update b st1 = report sB1) as ->.
  { unfold update. by rewrite Hc1, HrunB1. }
  assert (update (a + b) st = report sB) as ->.
  { unfold update. rewrite Hc.
    replace (Z.to_nat (a + b)) with (Z.to_nat a + Z.to_nat b)%nat by lia.
    by rewrite updateSteps_add, HrunA, HrunB. }
  split.
  - eapply same_counter_trans; [apply same_counter_sym, report_same_counter|].
    eapply same_counter_trans; [apply same_counter_sym, HsameB|].
    apply report_same_counter.
  - intros Hp.
    destruct (updateSteps_count (Z.to_nat b) sA HlA) as (sB' & HrunB' & _ & _ & _ & _ & HsvB & _).
    rewrite HrunB in HrunB'. injection HrunB' as <-.
    destruct (updateSteps_count (Z.to_nat a) st Hl) as (sA' & HrunA' & _ & _ & _ & _ & HsvA & _).
    rewrite HrunA in HrunA'. injection HrunA' as <-.
    assert (page_renders sB) as HpB.
    { unfold page_renders in *. rewrite HsvB, HsvA. exact Hp. }
    assert (page_renders sB1) as HpB1
      by (eapply page_renders_same_counter; [exact HsameB | exact HpB]).
    exists (res_state (report sB1)), (res_state (report sB)).
    split; apply not_raised, report_Done_renders; done.
Qed.

(** *** A sweep with an empty dimension *)

(** X6.  A sweep with a dimension of size 0 has no last point: every
    [update()] on its reporter returns, [completed] is never set, and so
    no call ever raises or writes the end message. *)
Theorem zero_dimension_never_completes nm swp rs sp (n : N) :
  0 ∈ sizes_of swp →
  ∃ st', calls n (init nm swp rs sp) = Done tt st' ∧ completed st' = false.
Proof.
  intros Hzero.
  destruct (init_counters nm swp rs sp) as (_ & _ & Ht & Ho & Hc & _).
  pose proof (init_length nm swp rs sp) as Hl.
  rewrite np_prod_wrap, prod_zero in Ht by done.
  change (wrap64 0) with 0 in Ht.
  cut (∃ st', calls n (init nm swp rs sp) = Done tt st' ∧ completed st' = false
              ∧ length (currentPnt st') = length (size st')
              ∧ totalSize st' = 0 ∧ 0 ≤ ofTotal st').
  { intros (st' & ? & ? & _). by exists st'. }
  induction n as [|n IH] using N.peano_ind.
  - exists (init nm swp rs sp). split; [done|]. split; [done|]. split; [done|].
    split; [done | lia].
  - destruct IH as (s & Hcalls & Hcs & Hls & Hts & Hos).
    rewrite calls_succ, Hcalls.
    rewrite update1_Done; [|done|done|tauto].
    eexists. split; [reflexivity|].
    destruct (update_count_spec s 1 Hls Hcs) as (Hl' & _ & Ht' & Ho' & Hc' & _).
    split; [|split; [done|split; [congruence|lia]]].
    destruct (completed (res_state (update 1 s))); [|done].
    destruct (proj1 Hc' eq_refl). lia.
Qed.

(** *** One call, by the numbers *)

(** X1.  A call [update(steps)] on a reporter that is not completed, with
    as many counter digits as dimensions, leaves the counter advanced
    whether it returns or raises: it keeps [size] and [totalSize], adds
    [max(0, steps)] to [ofTotal] (a negative [steps] runs the loop zero
    times), and sets [completed] exactly when [totalSize] lies in the range
    of counts it walked through.  It returns when no page is to be written
    or the clock never makes the expected completion time fail to format,
    and whenever it completes the sweep. *)
Theorem update_counts st steps :
  length (currentPnt st) = length (size st) →
  completed st = false →
  let st' := res_state (update steps st) in
  length (currentPnt st') = length (size st')
  ∧ size st' = size st ∧ totalSize st' = totalSize st
  ∧ ofTotal st' = ofTotal st + Z.max 0 steps
  ∧ (completed st' = true
     ↔ ofTotal st < totalSize st ≤ ofTotal st + Z.max 0 steps)
  ∧ (page_renders st ∨ completed st' = true → update steps st = Done tt st').
Proof. apply update_count_spec. Qed.

(** X2.  One call from the start: on a new reporter whose sizes are all at
    least 1 and whose number of points fits int64, [update(steps)] with
    [steps >= 0] leaves [currentPnt] the mixed-radix numeral of [steps] in
    bases [swpSize] (wrapped around past the last point) and
    [ofTotal = steps], whether it returns or raises; [completed] is set
    exactly when [steps] reaches the number of points, also when it
    overshoots it.  The constructor and the call return when [runServer]
    is off or the clock never makes the expected completion time fail to
    format. *)
Theorem update_from_start nm swp rs sp steps :
  Forall (fun s => 1 ≤ s) (sizes_of swp) →
  prod (sizes_of swp) < 2 ^ 63 →
  0 ≤ steps →
  let st' := res_state (update steps (init nm swp rs sp)) in
  currentPnt st' = mixed_radix (sizes_of swp) steps
  ∧ ofTotal st' = steps
  ∧ (completed st' = true ↔ prod (sizes_of swp) ≤ steps)
  ∧ ((rs = true → ∀ s, tims_error s = None) →
     __init__ nm swp rs sp = Done tt (init nm swp rs sp)
     ∧ update steps (init nm swp rs sp) = Done tt st').
Proof. apply update_init_spec. Qed.

(** *** When the page does not render *)


End clock.

#[local] Existing Instance Example.steady.

Lemma update_counts_witness :
  let st := init "sweep" (Sizes [2; 3]) true false in
  let st' := res_state (update 4 st) in
  length (currentPnt st) = length (size st)
  ∧ completed st = false
  ∧ page_renders st
  ∧ ofTotal st' = ofTotal st + Z.max 0 4
  ∧ update 4 st = Done tt st'.
Proof.
  cbv zeta.
  assert (page_renders (init "sweep" (Sizes [2; 3]) true false)) as Hp
    by (intros _ s; reflexivity).
  assert (length (currentPnt (init "sweep" (Sizes [2; 3]) true false))
          = length (size (init "sweep" (Sizes [2; 3]) true false))) as Hl
    by (vm_compute; reflexivity).
  assert (completed (init "sweep" (Sizes [2; 3]) true false) = false) as Hc
    by (vm_compute; reflexivity).
  split; [exact Hl|]. split; [exact Hc|]. split; [exact Hp|].
  destruct (update_counts (init "sweep" (Sizes [2; 3]) true false) 4 Hl Hc)
    as (_ & _ & _ & Ho & _ & Hret).
  split; [exact Ho|]. apply Hret. left. exact Hp.
Defined.

Lemma update_from_start_witness :
  let st' := res_state (update 8 (init "sweep" (Sizes [2; 3]) true true)) in
  Forall (fun s => 1 ≤ s) (sizes_of (Sizes [2; 3]))
  ∧ prod (sizes_of (Sizes [2; 3])) < 2 ^ 63
  ∧ 0 ≤ 8
  ∧ (∀ s, @tims_error Example.steady s = None)
  ∧ currentPnt st' = mixed_radix (sizes_of (Sizes [2; 3])) 8
  ∧ ofTotal st' = 8
  ∧ update 8 (init "sweep" (Sizes [2; 3]) true true) = Done tt st'.
Proof.
  cbv zeta.
  assert (Forall (fun s => 1 ≤ s) (sizes_of (Sizes [2; 3]))) as Hpos
    by (repeat constructor; lia).
  assert (prod (sizes_of (Sizes [2; 3])) < 2 ^ 63) as Hfit by reflexivity.
  assert (0 ≤ 8) as Hsteps by discriminate.
  split; [exact Hpos|]. split; [exact Hfit|]. split; [exact Hsteps|].
  split; [reflexivity|].
  destruct (update_from_start "sweep" (Sizes [2; 3]) true true 8 Hpos Hfit Hsteps)
    as (Hcur & Ho & _ & Hret).
  split; [exact Hcur|]. split; [exact Ho|].
  exact (proj2 (Hret (fun _ _ => eq_refl))).
Defined.

Lemma counter_is_periodic_witness :
  Forall (fun s => 1 ≤ s) (sizes_of (Sizes [2; 3]))
  ∧ prod (sizes_of (Sizes [2; 3])) < 2 ^ 63
  ∧ 0 ≤ 1 ∧ 0 ≤ 2
  ∧ currentPnt (res_state (update (1 + 2 * prod (sizes_of (Sizes [2; 3])))
                                  (init "sweep" (Sizes [2; 3]) false false)))
    = currentPnt (res_state (update 1 (init "sweep" (Sizes [2; 3]) false false))).
Proof.
  assert (Forall (fun s => 1 ≤ s) (sizes_of (Sizes [2; 3]))) as Hpos
    by (repeat constructor; lia).
  assert (prod (sizes_of (Sizes [2; 3])) < 2 ^ 63) as Hfit by reflexivity.
  assert (0 ≤ 1) as Hk by discriminate.
  assert (0 ≤ 2) as Hm by discriminate.
  split; [exact Hpos|]. split; [exact Hfit|]. split; [exact Hk|]. split; [exact Hm|].
  exact (counter_is_periodic "sweep" (Sizes [2; 3]) false false 1 2 Hpos Hfit Hk Hm).
Defined.

Lemma update_in_two_calls_witness :
  let st := init "sweep" (Sizes [2; 3]) true true in
  let st1 := res_state (update 2 st) in
  length (currentPnt st) = length (size st)
  ∧ 0 ≤ 2 ∧ 0 ≤ 3
  ∧ update 2 st = Done tt st1
  ∧ completed st1 = false
  ∧ page_renders st
  ∧ same_counter (res_state (update 3 st1)) (res_state (update (2 + 3) st))
  ∧ ∃ st2 st12, update 3 st1 = Done tt st2 ∧ update (2 + 3) st = Done tt st12.
Proof.
  cbv zeta.
  assert (0 ≤ 2) as Ha by discriminate.
  assert (0 ≤ 3) as Hb by discriminate.
  assert (page_renders (init "sweep" (Sizes [2; 3]) true true)) as Hp
    by (intros _ s; reflexivity).
  assert (length (currentPnt (init "sweep" (Sizes [2; 3]) true true))
          = length (size (init "sweep" (Sizes [2; 3]) true true))) as Hl
    by (vm_compute; reflexivity).
  assert (update 2 (init "sweep" (Sizes [2; 3]) true true)
          = Done tt (res_state (update 2 (init "sweep" (Sizes [2; 3]) true true))))
    as Hrun by (vm_compute; reflexivity).
  assert (completed (res_state (update 2 (init "sweep" (Sizes [2; 3]) true true)))
          = false) as Hc1 by (vm_compute; reflexivity).
  split; [exact Hl|]. split; [exact Ha|]. split; [exact Hb|].
  split; [exact Hrun|]. split; [exact Hc1|]. split; [exact Hp|].
  destruct (update_in_two_calls (init "sweep" (Sizes [2; 3]) true true) 2 3 _
              Hl Ha Hb Hrun Hc1) as [Hsame Hret].
  split; [exact Hsame | exact (Hret Hp)].
Defined.

Lemma zero_dimension_never_completes_witness :
  (0 ∈ sizes_of (Sizes [2; 0; 3]))
  ∧ ∃ st', calls 10 (init "sweep" (Sizes [2; 0; 3]) true true) = Done tt st'
           ∧ completed st' = false.
Proof.
  assert (0 ∈ sizes_of (Sizes [2; 0; 3])) as Hzero.
  { apply elem_of_cons. right. apply elem_of_cons. left. reflexivity. }
  split; [exact Hzero|].
  exact (zero_dimension_never_completes "sweep" (Sizes [2; 0; 3]) true true 10 Hzero).
Defined.


End ProgressWriterMore.

(** ** The file functions: frames, round trips, missing files *)

Module FilesMore.
Import PyStr PyStrFacts Files FilesFacts.

Section files.
Context `{Pathlib}.

Section pickle.
Context {V : Type} `{Pickle V} `{Gzip}.

(** *** Saving leaves the other files alone; loading leaves all of them *)

(** X8.  The pickle functions touch one file at most: [savePickle] and
    [savePickleGzip] change no file but the one at their own resolved
    path, whether they return or raise; [loadPickle] and [loadPickleGzip]
    change no file at all; and none of them moves [fileDir]. *)
Theorem pickle_functions_frame (f : string) (v : V) (e : env) (q : string) :
  (q ≠ resolve (joinpath (fileDir e) f) →
   files (res_state (savePickle f v e)) !! q = files e !! q)
  ∧ (q ≠ resolve (joinpath (fileDir e) (_gzfilename f)) →
     files (res_state (savePickleGzip f v e)) !! q = files e !! q)
  ∧ files (res_state (loadPickle f e)) = files e
  ∧ files (res_state (loadPickleGzip f e)) = files e
  ∧ fileDir (res_state (savePickle f v e)) = fileDir e
  ∧ fileDir (res_state (savePickleGzip f v e)) = fileDir e.
Proof.
  destruct (save_frame f e (fun b => b) v) as [Hdir Hother].
  destruct (save_frame (_gzfilename f) e compress v) as [Hdirz Hotherz].
  split; [apply Hother|]. split; [apply Hotherz|].
  split; [|split; [|split; [exact Hdir | exact Hdirz]]].
  - unfold loadPickle.
    destruct (read_files (resolve (joinpath (fileDir e) f)) e) as [Hf _].
    destruct (read _ e) as [data e'|]; [|done].
    by destruct (loads data).
  - unfold loadPickleGzip.
    destruct (read_files (resolve (joinpath (fileDir e) (_gzfilename f))) e) as [Hf _].
    destruct (read _ e) as [data e'|]; [|done].
    destruct (decompress data) as [raw|]; [|done]. by destruct (loads raw).
Qed.

(** *** Loading what is not there *)


(** *** Saving where no file can be made *)

(** X23.  A save needs the directory that is to hold the file, and a path
    that is no directory.  Where no regular file is in the place of
    [fileDir] or above it: when the resolved path is a directory, or is
    [fileDir] or a directory above it, [savePickle] raises
    IsADirectoryError; when nothing is at the resolved path and its parent
    is none of these directories, it raises FileNotFoundError
    (NotADirectoryError when a regular file is above the path).  Either way
    [os.makedirs] has made [fileDir], and no file has changed. *)
Theorem save_where_no_file_can_be (f : string) (v : V) (e : env) :
  let p := joinpath (fileDir e) f in
  let rp := resolve p in
  let ds := made (fileDir e) e in
  files e !! resolve (fileDir e) = None →
  blocked (files e) (resolve (fileDir e)) (parents (resolve (fileDir e))) = None →
  (rp ∈ ds →
   ∃ e1, savePickle f v e = Raised (IsADirectoryError rp) e1
         ∧ files e1 = files e
         ∧ log e1 = log e ++ [Makedirs (fileDir e); Touch rp])
  ∧ ((rp ∉ ds) → files e !! rp = None → (parent rp ∉ ds) →
     ∃ e1, savePickle f v e = Raised (no_directory p rp e) e1
           ∧ files e1 = files e
           ∧ log e1 = log e ++ [Makedirs (fileDir e)]).
Proof.
  cbv zeta. intros Hfile Hclear. split.
  - intros Hdir. unfold savePickle, _makeFileExist. rewrite makedirs_clear by done.
    unfold touch. cbn [fileDir files dirs log logged].
    rewrite decide_True by done.
    destruct (dumps v) as [data|].
    + rewrite write_directory by done. eexists. split; [done|]. split; [done|].
      cbn [log logged]. by rewrite <- app_assoc.
    + rewrite write_directory by done. eexists. split; [done|]. split; [done|].
      cbn [log logged]. by rewrite <- app_assoc.
  - intros Hnd Hnone Hparent. unfold savePickle, _makeFileExist.
    rewrite makedirs_clear by done. unfold touch. cbn [fileDir files dirs log logged].
    rewrite decide_False by done. rewrite Hnone.
    rewrite decide_False by done. eexists. split; [reflexivity|]. done.
Qed.

(** *** Round trips *)

Lemma makeable_after_save f (v : V) e :
  makeable f e → makeable f (res_state (savePickle f v e)).
Proof.
  intros Hmake. pose proof Hmake as (Hfile & Hclear & Hnd & _). cbv zeta in *.
  destruct (makeFileExist_makeable f e Hmake) as (e0 & Hrun & Hdir0 & Hnd0 & Hf0 & Hother0 & _).
  destruct (makeFileExist_Done _ _ _ _ Hrun) as (_ & _ & _ & Hdirs0 & _).
  set (rp := resolve (joinpath (fileDir e) f)) in *.
  assert (resolve (fileDir e) ≠ rp) as Hne.
  { intros Heq. apply Hnd. unfold made. rewrite Heq.
    apply elem_of_union. left. apply elem_of_union. left. by apply elem_of_singleton. }
  assert (∀ a anc, blocked (files e) a anc = None → rp ∉ anc →
                   ∀ data, blocked (<[rp := data]> (files e0)) a anc = None) as Hblocked.
  { intros a anc. revert a. induction anc as [|b anc IH]; intros a Hb Hnotin data;
      [done|].
    cbn [blocked] in *. apply not_elem_of_cons in Hnotin as [Hne' Hnotin].
    rewrite lookup_insert_ne by done. rewrite Hother0 by done.
    destruct (files e !! b); [done|]. by apply IH. }
  assert (∀ data, makeable f (mkEnv (fileDir e0) (<[rp := data]> (files e0)) (dirs e0)
                                    (log e0 ++ [Write rp data]))) as Hafter.
  { intros data. unfold makeable. cbn [fileDir files dirs]. rewrite Hdir0. fold rp.
    rewrite lookup_insert_ne by done. rewrite Hother0 by done.
    split; [done|]. split; [|split].
    - apply Hblocked; [done|]. intros Hin. apply Hnd. unfold made.
      apply elem_of_union. left. apply elem_of_union. right.
      by apply elem_of_list_to_set.
    - unfold made in *. cbn [dirs]. rewrite Hdirs0.
      intros [Hin|Hin]%elem_of_union; [by apply Hnd, elem_of_union; left|].
      by apply Hnd.
    - left. rewrite lookup_insert_eq. by eexists. }
  unfold savePickle. rewrite Hrun.
  destruct (dumps v) as [data|].
  - rewrite write_existing by (done || by eexists). apply Hafter.
  - rewrite write_existing by (done || by eexists). apply Hafter.
Qed.

(** X10.  Saving twice under one name keeps the last: where a file can
    be made under the name, whatever the first [savePickle] did (it may
    have raised in [pickle.dump] and left an empty file), a second
    [savePickle] of a value that pickles to [data2] returns, the file holds
    [data2], and [loadPickle] gives what [pickle] loads from [data2]. *)
Theorem last_save_wins (f : string) (v1 v2 : V) (data2 : bytes) (e : env) :
  makeable f e → dumps v2 = Some data2 →
  ∃ e2 e3,
    savePickle f v2 (res_state (savePickle f v1 e)) = Done tt e2
    ∧ files e2 !! resolve (joinpath (fileDir e) f) = Some data2
    ∧ loadPickle f e2 = match loads data2 with
                         | Some v' => Done v' e3
                         | None => Raised UnpicklingError e3
                         end.
Proof.
  intros Hmake Hd.
  pose proof (makeable_after_save f v1 e Hmake) as Hmake1.
  assert (fileDir (res_state (savePickle f v1 e)) = fileDir e) as Hdir1
    by apply (save_frame f e (fun b => b) v1).
  destruct (pickle_round_trip f v2 data2 _ Hmake1 Hd)
    as (e2 & e3 & Hsave & _ & Hfile & Hload & _).
  rewrite Hdir1 in Hfile. by exists e2, e3.
Qed.

(** X11.  [savePickleGzip] then [loadPickleGzip], under any two names
    with the same [.gz] form (so with or without the suffix): where a file
    can be made under that name, for a value that pickles to [data], and
    when [gzip] undoes its own compression of [data], the save returns and
    the load gives what [pickle] loads from [data]. *)
Theorem gzip_round_trip (f g : string) (v : V) (data : bytes) (e : env) :
  _gzfilename g = _gzfilename f →
  makeable (_gzfilename f) e →
  dumps v = Some data → decompress (compress data) = Some data →
  ∃ e1 e2,
    savePickleGzip f v e = Done tt e1
    ∧ loadPickleGzip g e1 = match loads data with
                            | Some v' => Done v' e2
                            | None => Raised UnpicklingError e2
                            end.
Proof.
  intros Hname Hmake Hd Hz.
  destruct (save_makeable (_gzfilename f) e compress v data Hmake Hd) as [e1 Hsave].
  destruct (save_Done (_gzfilename f) e compress v e1 Hsave)
    as (data' & Hd' & Hdir & Hfile & _).
  assert (data' = data) as -> by congruence.
  exists e1, (logged (Read (resolve (joinpath (fileDir e) (_gzfilename f)))) e1).
  split; [exact Hsave|].
  unfold loadPickleGzip, read. rewrite Hname, Hdir, Hfile, Hz.
  by destruct (loads data).
Qed.

End pickle.
End files.


Lemma save_where_no_file_can_be_witness :
  files Example.empty_env !! "/data" = None
  ∧ blocked (files Example.empty_env) "/data" ["/"] = None
  ∧ (∃ e1, @savePickle Example.posix _ Example.raw_pickle "" [Byte.x01] Example.empty_env
           = Raised (IsADirectoryError "/data") e1
           ∧ files e1 = ∅)
  ∧ (∃ e1, @savePickle Example.posix _ Example.raw_pickle "sub/run1.pkl" [Byte.x01]
             Example.empty_env
           = Raised (FileNotFoundError "/data/sub/run1.pkl") e1
           ∧ files e1 = ∅ ∧ log e1 = [Makedirs "/data"]).
Proof.
  assert (files Example.empty_env !! "/data" = None) as Hfile by reflexivity.
  assert (blocked (files Example.empty_env) "/data" ["/"] = None) as Hclear by reflexivity.
  split; [exact Hfile|]. split; [exact Hclear|].
  split.
  - destruct (@save_where_no_file_can_be Example.posix _ Example.raw_pickle ""
                [Byte.x01] Example.empty_env Hfile Hclear) as [Hdir _].
    destruct Hdir as (e1 & Hrun & Hfiles & _).
    + apply (bool_decide_unpack _). vm_compute. exact I.
    + exists e1. split; [exact Hrun | exact Hfiles].
  - destruct (@save_where_no_file_can_be Example.posix _ Example.raw_pickle
                "sub/run1.pkl" [Byte.x01] Example.empty_env Hfile Hclear) as [_ Hmissing].
    destruct Hmissing as (e1 & Hrun & Hfiles & Hlog).
    + apply (bool_decide_unpack _). vm_compute. exact I.
    + reflexivity.
    + apply (bool_decide_unpack _). vm_compute. exact I.
    + exists e1. split; [exact Hrun|]. split; [exact Hfiles | exact Hlog].
Defined.

Lemma last_save_wins_witness :
  let v2 := [Byte.x02; Byte.x03] in
  @makeable Example.posix "run1.pkl" Example.empty_env
  ∧ @dumps _ Example.raw_pickle v2 = Some v2
  ∧ ∃ e2 e3,
      @savePickle Example.posix _ Example.raw_pickle "run1.pkl" v2
        (res_state (@savePickle Example.posix _ Example.raw_pickle "run1.pkl"
                      [Byte.x01] Example.empty_env))
      = Done tt e2
      ∧ @loadPickle Example.posix _ Example.raw_pickle "run1.pkl" e2 = Done v2 e3.
Proof.
  cbv zeta.
  assert (@makeable Example.posix "run1.pkl" Example.empty_env) as Hmake.
  { split; [vm_compute; reflexivity|]. split; [vm_compute; reflexivity|]. split.
    - apply (bool_decide_unpack _). vm_compute. exact I.
    - right. apply (bool_decide_unpack _). vm_compute. exact I. }
  split; [exact Hmake|]. split; [reflexivity|].
  destruct (@last_save_wins Example.posix _ Example.raw_pickle "run1.pkl"
              [Byte.x01] [Byte.x02; Byte.x03] [Byte.x02; Byte.x03] Example.empty_env
              Hmake eq_refl) as (e2 & e3 & Hsave & _ & Hload).
  exists e2, e3. split; [exact Hsave | exact Hload].
Defined.

Lemma gzip_round_trip_witness :
  let v := [Byte.x01; Byte.x02] in
  _gzfilename "run1.gz" = _gzfilename "run1"
  ∧ @makeable Example.posix (_gzfilename "run1") Example.empty_env
  ∧ @dumps _ Example.raw_pickle v = Some v
  ∧ @decompress Example.stored_gzip (@compress Example.stored_gzip v) = Some v
  ∧ ∃ e1 e2,
      @savePickleGzip Example.posix _ Example.raw_pickle Example.stored_gzip
        "run1" v Example.empty_env = Done tt e1
      ∧ @loadPickleGzip Example.posix _ Example.raw_pickle Example.stored_gzip
          "run1.gz" e1 = Done v e2.
Proof.
  cbv zeta.
  assert (@makeable Example.posix (_gzfilename "run1") Example.empty_env) as Hmake.
  { split; [vm_compute; reflexivity|]. split; [vm_compute; reflexivity|]. split.
    - apply (bool_decide_unpack _). vm_compute. exact I.
    - right. apply (bool_decide_unpack _). vm_compute. exact I. }
  split; [reflexivity|]. split; [exact Hmake|].
  split; [reflexivity|]. split; [reflexivity|].
  destruct (@gzip_round_trip Example.posix _ Example.raw_pickle Example.stored_gzip
              "run1" "run1.gz" [Byte.x01; Byte.x02] [Byte.x01; Byte.x02]
              Example.empty_env eq_refl Hmake eq_refl eq_refl)
    as (e1 & e2 & Hsave & Hload).
  exists e1, e2. split; [exact Hsave | exact Hload].
Defined.

End FilesMore.

(** ** Pickled states, entry by entry *)

Module JSONpickleableMore.
Import PyStr PyStrFacts JSONpickleable Pickled DictFacts JSONpickleableFacts.

Lemma app_str_inj_l a b suf : a +:+ suf = b +:+ suf → a = b.
Proof.
  revert b. induction a as [|c a IH]; intros [|c' b] Heq; [done| | |].
  - apply (f_equal String.length) in Heq. rewrite app_str_nil, app_str_cons in Heq.
    cbn [String.length] in Heq. rewrite length_app_str in Heq. lia.
  - apply (f_equal String.length) in Heq. rewrite app_str_nil, app_str_cons in Heq.
    cbn [String.length] in Heq. rewrite length_app_str in Heq. lia.
  - rewrite !app_str_cons in Heq. injection Heq as -> Heq. f_equal. by apply IH.
Qed.

Lemma dict_get_filter_key (P : string → bool) k (d : dict) :
  dict_get k (filter (fun kv => P kv.1 = false) d)
  = if P k then None else dict_get k d.
Proof.
  induction d as [|[k' v] d IH]; [by destruct (P k)|].
  rewrite filter_cons. cbn [fst dict_get].
  destruct (decide (P k' = false)) as [Hk'|Hk']; cbn [dict_get].
  - destruct (decide (k = k')) as [->|Hne]; [by rewrite Hk' | done].
  - destruct (decide (k = k')) as [->|Hne]; [|done].
    rewrite IH. by destruct (P k').
Qed.

Lemma keys_filter_NoDup (P : string * pyval → Prop) `{∀ x, Decision (P x)} (d : dict) :
  NoDup (keys d) → NoDup (keys (filter P d)).
Proof.
  induction d as [|[k v] d IH]; intros Hnd; [constructor|].
  rewrite keys_cons in Hnd. apply NoDup_cons in Hnd as [Hk Hnd].
  rewrite filter_cons. destruct (decide (P (k, v))); [|by apply IH].
  rewrite keys_cons. apply NoDup_cons. split; [|by apply IH].
  intros Hin. apply Hk. apply keys_elem in Hin as [v' Hin].
  apply list_elem_of_filter in Hin as [_ Hin]. by eapply elem_keys.
Qed.

Section more.
Context `{Libs}.

(** *** Values of the state [__getstate__] builds *)

Lemma VISAObject_test_Some v b : VISAObject_test v = Some b → is_VISAObject v = b.
Proof.
  unfold VISAObject_test, is_VISAObject.
  destruct (String.eqb (class_name v) "VISAObject"); [by intros [= <-]|].
  destruct (is_class v); [done|]. by intros [= <-].
Qed.

Lemma VISAObject_test_plain v :
  is_class v = false → VISAObject_test v = Some (is_VISAObject v).
Proof.
  intros Hv. unfold VISAObject_test, is_VISAObject. rewrite Hv.
  by destruct (String.eqb (class_name v) "VISAObject").
Qed.

(** What a turn of the loop that returns has done. *)
Lemma getstate_item_Done np st h del key val del1 h1 :
  getstate_item np st h del (key, val) = Done del1 h1 →
  (key ∈ np ∧ del1 = {[key]} ∪ del ∧ h1 = h)
  ∨ ((key ∉ np) ∧ is_VISAObject val = true ∧ del1 = del
     ∧ h1 = store st (dict_set key
                        (VHardwareReference ("Reference to a " +:+ class_name val))
                        (deref st h)) h)
  ∨ ((key ∉ np) ∧ is_VISAObject val = false
     ∧ is_function val && negb (is_module_function val) = true
     ∧ ∃ dump, dill_dumps val = Some dump ∧ del1 = {[key]} ∪ del
               ∧ h1 = store st (dict_set (key +:+ "_dilled") (VBytes dump)
                                         (deref st h)) h)
  ∨ ((key ∉ np) ∧ is_VISAObject val = false
     ∧ is_function val && negb (is_module_function val) = false
     ∧ del1 = del ∧ h1 = h).
Proof.
  unfold getstate_item. destruct (decide (key ∈ np)) as [Hnp|Hnp].
  { intros [= <- <-]. by left. }
  destruct (VISAObject_test val) as [[]|] eqn:Etest; [| |done].
  { apply VISAObject_test_Some in Etest. intros [= <- <-]. right. by left. }
  apply VISAObject_test_Some in Etest.
  destruct (is_function val && negb (is_module_function val)) eqn:Efn.
  - destruct (dill_dumps val) as [dump|] eqn:Edump; [|done].
    intros [= <- <-]. right. right. left. split; [done|]. split; [done|].
    split; [done|]. by exists dump.
  - intros [= <- <-]. right. right. by right.
Qed.

Lemma getstate_item_get_other np st h del key val del1 h1 k :
  getstate_item np st h del (key, val) = Done del1 h1 →
  k ≠ key → k ≠ key +:+ "_dilled" →
  dict_get k (deref st h1) = dict_get k (deref st h).
Proof.
  intros [(_ & _ & ->)|[(_ & _ & _ & ->)|[(_ & _ & _ & dump & _ & _ & ->)|(_ & _ & _ & _ & ->)]]]%getstate_item_Done
    Hk Hkd; rewrite ?deref_store_eq; [done | | | done];
    by rewrite dict_get_set_ne.
Qed.

Lemma getstate_item_get_key np st h del key val del1 h1 :
  getstate_item np st h del (key, val) = Done del1 h1 →
  ¬ ends_with key "_dilled" →
  dict_get key (deref st h1)
  = if decide (key ∈ np) then dict_get key (deref st h)
    else if is_VISAObject val
         then Some (VHardwareReference ("Reference to a " +:+ class_name val))
         else dict_get key (deref st h).
Proof.
  intros [(Hnp & _ & ->)|[(Hnp & Hv & _ & ->)|[(Hnp & Hv & _ & dump & _ & _ & ->)|(Hnp & Hv & _ & _ & ->)]]]%getstate_item_Done
    Hend; rewrite ?deref_store_eq.
  - by rewrite decide_True.
  - by rewrite decide_False, Hv, dict_get_set_eq.
  - rewrite decide_False, Hv by done. apply dict_get_set_ne.
    intros Heq. apply Hend. by exists key.
  - by rewrite decide_False, Hv.
Qed.

Lemma getstate_item_get_dilled np st h del key val del1 h1 :
  getstate_item np st h del (key, val) = Done del1 h1 →
  dilled_attr np key val →
  is_Some (dill_dumps val)
  ∧ dict_get (key +:+ "_dilled") (deref st h1) = VBytes <$> dill_dumps val.
Proof.
  intros [(Hnp & _)|[(_ & Hv & _)|[(_ & _ & _ & dump & Hdump & _ & ->)|(_ & _ & Hf & _)]]]%getstate_item_Done
    (Hnp' & Hv' & Hf'); [done | congruence | | congruence].
  rewrite Hdump, deref_store_eq, dict_get_set_eq. split; [by eexists | done].
Qed.

Lemma getstate_item_del np st h del key val del1 h1 k :
  getstate_item np st h del (key, val) = Done del1 h1 →
  k ∈ del1 ↔ k ∈ del ∨ (k = key ∧ (key ∈ np ∨ dilled_attr np key val)).
Proof.
  unfold dilled_attr.
  intros [(Hnp & -> & _)|[(Hnp & Hv & -> & _)|[(Hnp & Hv & Hf & dump & _ & -> & _)|(Hnp & Hv & Hf & -> & _)]]]%getstate_item_Done.
  - rewrite elem_of_union, elem_of_singleton. tauto.
  - split; [by left|]. intros [?|(_ & [?|(_ & ? & _)])]; [done | done | congruence].
  - rewrite elem_of_union, elem_of_singleton. tauto.
  - split; [by left|]. intros [?|(_ & [?|(_ & _ & ?)])]; [done | done | congruence].
Qed.

Lemma getstate_item_NoDup np st h del kv del1 h1 :
  getstate_item np st h del kv = Done del1 h1 →
  NoDup (keys (deref st h)) → NoDup (keys (deref st h1)).
Proof.
  destruct kv as [key val].
  intros [(_ & _ & ->)|[(_ & _ & _ & ->)|[(_ & _ & _ & dump & _ & _ & ->)|(_ & _ & _ & _ & ->)]]]%getstate_item_Done
    Hnd; rewrite ?deref_store_eq; [done | | | done]; by apply keys_set_NoDup.
Qed.

Lemma getstate_loop_app np st pre post h del del1 h1 :
  getstate_loop np st (pre ++ post) h del = Done del1 h1 →
  ∃ del' h', getstate_loop np st pre h del = Done del' h'
             ∧ getstate_loop np st post h' del' = Done del1 h1.
Proof.
  revert h del. induction pre as [|kv pre IH]; intros h del; cbn [app getstate_loop].
  { intros Hrun. by exists del, h. }
  destruct (getstate_item np st h del kv) as [del' h'|e h']; [|done]. apply IH.
Qed.

Lemma getstate_loop_get_other np st items h del del1 h1 k :
  getstate_loop np st items h del = Done del1 h1 →
  (∀ k', k' ∈ keys items → k' ≠ k ∧ k' +:+ "_dilled" ≠ k) →
  dict_get k (deref st h1) = dict_get k (deref st h).
Proof.
  revert h del. induction items as [|[key val] items IH]; intros h del;
    cbn [getstate_loop].
  { by intros [= _ <-]. }
  destruct (getstate_item np st h del (key, val)) as [del' h'|e h'] eqn:Estep; [|done].
  intros Hrest Hq. rewrite (IH _ _ Hrest).
  - destruct (Hq key) as [? ?]; [rewrite keys_cons; apply elem_of_cons; by left|].
    by eapply getstate_item_get_other.
  - intros k' Hk'. apply Hq. rewrite keys_cons. apply elem_of_cons. by right.
Qed.

Lemma getstate_loop_del np st items h del del1 h1 k :
  getstate_loop np st items h del = Done del1 h1 →
  k ∈ del1 ↔ k ∈ del ∨ ∃ v, (k, v) ∈ items ∧ (k ∈ np ∨ dilled_attr np k v).
Proof.
  revert h del. induction items as [|[key val] items IH]; intros h del;
    cbn [getstate_loop].
  { intros [= <- _]. split; [by left|]. intros [?|(v & Hin & _)]; [done|].
    by apply elem_of_nil in Hin. }
  destruct (getstate_item np st h del (key, val)) as [del' h'|e h'] eqn:Estep; [|done].
  intros Hrest. rewrite (IH _ _ Hrest), (getstate_item_del _ _ _ _ _ _ _ _ k Estep). split.
  - intros [[?|(-> & Hc)]|(v & Hin & Hc)].
    + by left.
    + right. exists val. split; [apply elem_of_cons; by left | done].
    + right. exists v. split; [apply elem_of_cons; by right | done].
  - intros [?|(v & Hin & Hc)]; [by left; left|].
    apply elem_of_cons in Hin as [[= -> ->]|Hin].
    + left. right. done.
    + right. by exists v.
Qed.

(** The loop on a duplicate-free item list none of whose keys ends in
    "_dilled". *)
Lemma getstate_loop_values np st items h del del1 h1 k v :
  getstate_loop np st items h del = Done del1 h1 →
  NoDup (keys items) →
  (∀ k', k' ∈ keys items → ¬ ends_with k' "_dilled") →
  (k, v) ∈ items →
  dict_get k (deref st h1)
  = (if decide (k ∈ np) then dict_get k (deref st h)
     else if is_VISAObject v
          then Some (VHardwareReference ("Reference to a " +:+ class_name v))
          else dict_get k (deref st h))
  ∧ (dilled_attr np k v →
     is_Some (dill_dumps v)
     ∧ dict_get (k +:+ "_dilled") (deref st h1) = VBytes <$> dill_dumps v).
Proof.
  intros Hrun Hnd Hnames Hin.
  apply list_elem_of_split in Hin as (pre & post & ->).
  assert (¬ ends_with k "_dilled") as Hk.
  { apply Hnames. unfold keys. rewrite fmap_app, fmap_cons.
    apply elem_of_app. right. apply elem_of_cons. by left. }
  unfold keys in Hnd. rewrite fmap_app, fmap_cons in Hnd. cbn [fst] in Hnd.
  apply NoDup_app in Hnd as (_ & Hpre & [Hpost _]%NoDup_cons).
  assert (∀ part, part = pre ∨ part = post →
            ∀ k', k' ∈ keys part →
                  (k' ≠ k ∧ k' +:+ "_dilled" ≠ k)
                  ∧ (k' ≠ k +:+ "_dilled" ∧ k' +:+ "_dilled" ≠ k +:+ "_dilled"))
    as Hquiet.
  { intros part Hpart k' Hk'.
    assert (k' ≠ k) as Hne.
    { intros ->. destruct Hpart as [-> | ->]; [|done].
      apply (Hpre k Hk'). apply elem_of_cons. by left. }
    assert (¬ ends_with k' "_dilled") as Hk'end.
    { apply Hnames. unfold keys. rewrite fmap_app, fmap_cons.
      destruct Hpart as [-> | ->]; apply elem_of_app; [by left|].
      right. apply elem_of_cons. by right. }
    split; [split; [done|]|split].
    - intros Heq. apply Hk. by exists k'.
    - intros ->. apply Hk'end. by exists k.
    - intros Heq. by apply app_str_inj_l in Heq. }
  apply getstate_loop_app in Hrun as (del_a & h_a & Hpre_run & Hrun).
  cbn [getstate_loop] in Hrun.
  destruct (getstate_item np st h_a del_a (k, v)) as [del_b h_b|e h_b] eqn:Estep; [|done].
  split.
  - rewrite (getstate_loop_get_other _ _ _ _ _ _ _ k Hrun)
      by (intros k' Hk'; apply (Hquiet post (or_intror eq_refl) k' Hk')).
    rewrite (getstate_item_get_key _ _ _ _ _ _ _ _ Estep) by done.
    rewrite (getstate_loop_get_other _ _ _ _ _ _ _ k Hpre_run)
      by (intros k' Hk'; apply (Hquiet pre (or_introl eq_refl) k' Hk')).
    done.
  - intros Hd.
    rewrite (getstate_loop_get_other _ _ _ _ _ _ _ (k +:+ "_dilled") Hrun)
      by (intros k' Hk'; apply (Hquiet post (or_intror eq_refl) k' Hk')).
    by eapply getstate_item_get_dilled.
Qed.

Lemma getstate_loop_NoDup np st items h del del1 h1 :
  getstate_loop np st items h del = Done del1 h1 →
  NoDup (keys (deref st h)) → NoDup (keys (deref st h1)).
Proof.
  revert h del. induction items as [|kv items IH]; intros h del; cbn [getstate_loop].
  { by intros [= _ <-]. }
  destruct (getstate_item np st h del kv) as [del' h'|e h'] eqn:Estep; [|done].
  intros Hrest Hnd. apply (IH _ _ Hrest). by eapply getstate_item_NoDup.
Qed.

(** The loop returns when no value it looks at is a class and [dill]
    dumps the functions it is handed. *)
Lemma getstate_loop_returns np st items h del :
  (∀ k v, (k, v) ∈ items →
          is_class v = false
          ∧ (is_function v && negb (is_module_function v) = true →
             is_Some (dill_dumps v))) →
  ∃ del1 h1, getstate_loop np st items h del = Done del1 h1.
Proof.
  revert h del. induction items as [|[key val] items IH]; intros h del Hgood;
    cbn [getstate_loop]; [by eexists _, _|].
  destruct (Hgood key val) as [Hcls Hdump]; [apply elem_of_cons; by left|].
  assert (∃ del' h', getstate_item np st h del (key, val) = Done del' h')
    as (del' & h' & ->).
  { unfold getstate_item. destruct (decide (key ∈ np)); [by eexists _, _|].
    rewrite (VISAObject_test_plain _ Hcls).
    destruct (is_VISAObject val); [by eexists _, _|].
    destruct (is_function val && negb (is_module_function val)); [|by eexists _, _].
    destruct (Hdump eq_refl) as [dump ->]. by eexists _, _. }
  apply IH. intros k v Hin. apply (Hgood k v). apply elem_of_cons. by right.
Qed.

(** The loop raises when it comes to a value that is a class, under a
    name that is not left out. *)
Lemma getstate_loop_class np st items h del k v :
  (k, v) ∈ items → (k ∉ np) → VISAObject_test v = None →
  raised (getstate_loop np st items h del) = true.
Proof.
  intros Hin Hk Hv. revert h del.
  induction items as [|[key val] items IH]; intros h del; cbn [getstate_loop].
  { by apply elem_of_nil in Hin. }
  destruct (getstate_item np st h del (key, val)) as [del' h'|e h'] eqn:Estep; [|done].
  apply elem_of_cons in Hin as [[= <- <-]|Hin]; [|by apply IH].
  exfalso. unfold getstate_item in Estep.
  rewrite decide_False, Hv in Estep by done. done.
Qed.

Lemma delete_keys_values ks st h :
  NoDup ks → (∀ k, k ∈ ks → k ∈ keys (deref st h)) →
  ∃ h', delete_keys ks st h = Done tt h'
        ∧ (∀ k, dict_get k (deref st h')
                = if decide (k ∈ ks) then None else dict_get k (deref st h))
        ∧ (NoDup (keys (deref st h)) → NoDup (keys (deref st h'))).
Proof.
  revert h. induction ks as [|k0 ks IH]; intros h Hnd Hin; cbn [delete_keys].
  { exists h. split; [done|]. split; [|done]. intros k.
    rewrite decide_False; [done | apply not_elem_of_nil]. }
  apply NoDup_cons in Hnd as [Hk0 Hnd].
  unfold dict_del. rewrite decide_True by (apply Hin, elem_of_cons; by left).
  destruct (IH (store st (dict_remove k0 (deref st h)) h) Hnd) as (h' & -> & V & N).
  { intros k' Hk'. rewrite deref_store_eq, keys_remove. split; [by intros ->|].
    apply Hin, elem_of_cons. by right. }
  exists h'. split; [done|]. split.
  - intros k. rewrite V, deref_store_eq.
    destruct (decide (k ∈ ks)) as [Hks|Hks].
    + rewrite decide_True; [done | apply elem_of_cons; by right].
    + destruct (decide (k = k0)) as [->|Hne].
      * rewrite dict_get_remove_eq, decide_True; [done | apply elem_of_cons; by left].
      * rewrite dict_get_remove_ne by done. rewrite decide_False; [done|].
        rewrite not_elem_of_cons. done.
  - intros Hd. apply N. rewrite deref_store_eq. by apply keys_remove_NoDup.
Qed.

(** [__getstate__] with a set under [self.notPickled], as the loop and the
    deletions that follow it. *)
Lemma getstate_unfold (self : obj) (h : heap) (own : gset string) :
  instance_notPickled self h = Some (VSet own) →
  let st := fresh (dom h) in
  let items := filter (fun kv => stripped (klass_name <$> obj_mro self) kv.1 = false)
                      (deref (obj_dict self) h) in
  __getstate__ self h
  = match getstate_loop (allNotPickled own (obj_mro self)) st items
            (store st items h) ∅ with
    | Raised e h => Raised e h
    | Done keys_to_delete h =>
      match delete_keys (elements keys_to_delete) st h with
      | Done _ h => Done st h
      | Raised e h => Raised e h
      end
    end.
Proof.
  intros Hown. cbv zeta. unfold __getstate__, Hashable_getstate. rewrite Hown.
  by rewrite deref_store_eq.
Qed.

Lemma getstate_state_spec (self : obj) (h : heap) (own : gset string)
    (state : positive) (h' : heap) :
  let attrs := deref (obj_dict self) h in
  let np := allNotPickled own (obj_mro self) in
  let mro := klass_name <$> obj_mro self in
  NoDup (keys attrs) →
  (∀ k, k ∈ keys attrs → ¬ ends_with k "_dilled") →
  instance_notPickled self h = Some (VSet own) →
  __getstate__ self h = Done state h' →
  NoDup (keys (deref state h'))
  ∧ (∀ k, dict_get k (deref state h') = state_entry np mro attrs k)
  ∧ (∀ k v, dict_get k attrs = Some v → stripped mro k = false →
            dilled_attr np k v → is_Some (dill_dumps v)).
Proof.
  intros attrs np mro Hnd Hnames Hown.
  rewrite (getstate_unfold self h own Hown). cbv zeta.
  set (st := fresh (dom h)).
  fold attrs. fold mro. fold np.
  set (items := filter (fun kv => stripped mro kv.1 = false) attrs).
  assert (NoDup (keys items)) as Hnd_items by (by apply keys_filter_NoDup).
  assert (∀ k, dict_get k items = if stripped mro k then None else dict_get k attrs)
    as Hitems by (intros k; apply dict_get_filter_key).
  assert (∀ k', k' ∈ keys items → ¬ ends_with k' "_dilled") as Hnames_items.
  { intros k' [v Hin]%keys_elem. apply Hnames.
    apply list_elem_of_filter in Hin as [_ Hin]. by eapply elem_keys. }
  destruct (getstate_loop np st items (store st items h) ∅) as [del1 h1|e h1] eqn:Eloop;
    [|done].
  destruct (getstate_loop_spec _ _ _ _ _ _ _ Eloop) as (_ & D1 & _ & _ & K1 & K2).
  pose proof (fun k v => getstate_loop_values _ _ _ _ _ _ _ k v Eloop Hnd_items Hnames_items)
    as Hval.
  pose proof (fun k => getstate_loop_del _ _ _ _ _ _ _ k Eloop) as Hdel.
  pose proof (getstate_loop_NoDup _ _ _ _ _ _ _ Eloop) as HndL.
  rewrite deref_store_eq in K1, K2, Hval, HndL.
  destruct (delete_keys_values (elements del1) st h1) as (h2 & -> & V & N).
  { apply NoDup_elements. }
  { intros k Hk%elem_of_elements. apply K1.
    destruct (D1 k Hk) as [Hk'|Hk']; [by apply elem_of_empty in Hk' | done]. }
  intros [= <- <-]. split; [by apply N, HndL|].
  assert (∀ k, k ∈ elements del1
               ↔ ∃ v, (k, v) ∈ items ∧ (k ∈ np ∨ dilled_attr np k v)) as Hdel'.
  { intros k. rewrite elem_of_elements, Hdel. split; [|by right].
    intros [Hk|?]; [by apply elem_of_empty in Hk | done]. }
  split.
  2:{ intros k v Hk Hs Hd.
      assert ((k, v) ∈ items) as Hin.
      { apply dict_get_Some_elem. by rewrite Hitems, Hs. }
      by apply (Hval k v Hin). }
  intros k. rewrite V. unfold state_entry.
  destruct (dict_get k attrs) as [v|] eqn:Ek.
  - (* an attribute of the instance *)
    destruct (stripped mro k) eqn:Es; cbn [orb].
    { (* stripped by Hashable: not an item, and not a synthesized key *)
      assert (k ∉ keys items) as Hnot
        by (apply dict_get_None; by rewrite Hitems, Es).
      destruct (decide (k ∈ elements del1)); [done|].
      apply dict_get_None. intros Hk.
      destruct (K2 k Hk) as [?|[?|(a & src & -> & _)]]; [done | done |].
      apply (Hnames (a +:+ "_dilled")); [|by exists a].
      apply dict_get_Some_elem in Ek. by eapply elem_keys. }
    assert ((k, v) ∈ items) as Hin.
    { apply dict_get_Some_elem. by rewrite Hitems, Es. }
    destruct (Hval k v Hin) as [Hget _].
    assert (dict_get k items = Some v) as Hk0 by (by rewrite Hitems, Es).
    rewrite Hk0 in Hget.
    assert (∀ v', (k, v') ∈ items → v' = v) as Huniq.
    { intros v' Hin'. apply (dict_get_elem_NoDup _ _ _ Hnd_items) in Hin'. congruence. }
    destruct (decide (k ∈ np)) as [Hnp|Hnp].
    { rewrite bool_decide_eq_true_2 by done.
      rewrite decide_True; [done|]. apply Hdel'. exists v. split; [done | by left]. }
    rewrite bool_decide_eq_false_2 by done.
    destruct (is_VISAObject v) eqn:Ev.
    { rewrite decide_False; [done|]. intros (v' & Hin' & [?|(_ & Hv' & _)])%Hdel'; [done|].
      rewrite (Huniq v' Hin') in Hv'. congruence. }
    destruct (is_function v && negb (is_module_function v)) eqn:Ef.
    { rewrite decide_True; [done|]. apply Hdel'. exists v. split; [done|]. by right. }
    rewrite decide_False; [done|].
    intros (v' & Hin' & [?|(_ & _ & Hf')])%Hdel'; [done|].
    rewrite (Huniq v' Hin') in Hf'. congruence.
  - (* not an attribute *)
    assert (k ∉ keys items) as Hnot.
    { apply dict_get_None. rewrite Hitems. by destruct (stripped mro k). }
    rewrite decide_False.
    2:{ intros (v' & Hin' & _)%Hdel'. by apply elem_keys in Hin'. }
    destruct (String.eqb_spec (slice_from (-7) k) "_dilled") as [Hd|Hd].
    + apply dilled_key_split in Hd. set (a := slice_to (-7) k) in *.
      destruct (dict_get a attrs) as [f|] eqn:Ea.
      * destruct (negb (stripped mro a) && negb (bool_decide (a ∈ np))
                  && negb (is_VISAObject f)
                  && (is_function f && negb (is_module_function f))) eqn:Ekept.
        -- apply andb_true_iff in Ekept as [Ekept Hfn].
           apply andb_true_iff in Ekept as [Ekept Hvisa%negb_true_iff].
           apply andb_true_iff in Ekept as [Hs%negb_true_iff Hnp%negb_true_iff].
           apply bool_decide_eq_false in Hnp.
           assert ((a, f) ∈ items) as Hin.
           { apply dict_get_Some_elem. by rewrite Hitems, Hs. }
           destruct (Hval a f Hin) as [_ Hdilled].
           rewrite Hd. by apply Hdilled.
        -- apply dict_get_None. intros Hk.
           destruct (K2 k Hk) as [?|[?|(a' & src & Heq & Ha' & Hin')]]; [done | done |].
           rewrite Hd in Heq. apply app_str_inj_l in Heq as <-.
           assert (dict_get a items = Some (VFunction false src)) as Hg
             by (by apply dict_get_elem_NoDup).
           rewrite Hitems in Hg. destruct (stripped mro a) eqn:Es; [done|].
           rewrite Ea in Hg. injection Hg as ->.
           rewrite (bool_decide_eq_false_2 _ Ha') in Ekept. cbn in Ekept. done.
      * apply dict_get_None. intros Hk.
        destruct (K2 k Hk) as [?|[?|(a' & src & Heq & Ha' & Hin')]]; [done | done |].
        rewrite Hd in Heq. apply app_str_inj_l in Heq as <-.
        assert (dict_get a items = Some (VFunction false src)) as Hg
          by (by apply dict_get_elem_NoDup).
        rewrite Hitems, Ea in Hg. by destruct (stripped mro a).
    + apply dict_get_None. intros Hk.
      destruct (K2 k Hk) as [?|[?|(a' & src & -> & _)]]; [done | done |].
      apply Hd. apply (slice_from_neg_spec 7 _ "_dilled" eq_refl ltac:(lia)).
      by exists a'.
Qed.

(** [__getstate__] returns when no attribute is a class and [dill] dumps
    the function attributes. *)
Lemma getstate_returns (self : obj) (h : heap) (own : gset string) :
  instance_notPickled self h = Some (VSet own) →
  (∀ k v, (k, v) ∈ deref (obj_dict self) h →
          is_class v = false
          ∧ (is_function v && negb (is_module_function v) = true →
             is_Some (dill_dumps v))) →
  ∃ state h', __getstate__ self h = Done state h'.
Proof.
  intros Hown Hgood. rewrite (getstate_unfold self h own Hown). cbv zeta.
  set (st := fresh (dom h)). set (items := filter _ _).
  set (np := allNotPickled own (obj_mro self)).
  destruct (getstate_loop_returns np st items (store st items h) ∅)
    as (del1 & h1 & Eloop).
  { intros k v [_ Hin]%list_elem_of_filter. by apply (Hgood k v). }
  rewrite Eloop.
  destruct (getstate_loop_spec _ _ _ _ _ _ _ Eloop) as (_ & D1 & _ & _ & K1 & _).
  rewrite deref_store_eq in K1.
  destruct (delete_keys_values (elements del1) st h1) as (h2 & -> & _).
  { apply NoDup_elements. }
  { intros k Hk%elem_of_elements. apply K1.
    destruct (D1 k Hk) as [Hk'|Hk']; [by apply elem_of_empty in Hk' | done]. }
  by eexists _, _.
Qed.

(** *** What [__setstate__] makes of a state *)

Lemma dilled_suffix a : slice_from (-7) (a +:+ "_dilled") = "_dilled".
Proof. apply (slice_from_neg_spec 7 _ "_dilled" eq_refl ltac:(lia)). by exists a. Qed.

Lemma dilled_stem a : slice_to (-7) (a +:+ "_dilled") = a.
Proof. apply (slice_to_neg_app 7 a "_dilled" eq_refl ltac:(lia)). Qed.

Lemma tidy_no_companion S k :
  tidy S → k ∈ keys S → (k +:+ "_dilled") ∉ keys S.
Proof.
  intros [_ Ht] Hk [v Hin]%keys_elem.
  destruct (Ht _ _ Hin (dilled_suffix k)) as [_ Hstem].
  by rewrite dilled_stem in Hstem.
Qed.

Lemma restore_items_progress missing items l h :
  NoDup (keys items) →
  (∀ k, k ∈ keys items → k ∈ keys (deref l h)) →
  (∀ k v, (k, v) ∈ items → is_HardwareReference v = false →
          slice_from (-7) k = "_dilled" →
          ∃ b f, v = VBytes b ∧ dill_loads b = Some f) →
  ∃ h1, restore_items missing items l h = Done tt h1.
Proof.
  revert h. induction items as [|[key val] items IH]; intros h Hnd Hin Hgood;
    cbn [restore_items]; [by exists h|].
  rewrite keys_cons in Hnd. apply NoDup_cons in Hnd as [Hkey Hnd].
  assert (∀ k v, (k, v) ∈ items → is_HardwareReference v = false →
                 slice_from (-7) k = "_dilled" →
                 ∃ b f, v = VBytes b ∧ dill_loads b = Some f) as Hgood'.
  { intros k v Hkv. apply Hgood, elem_of_cons. by right. }
  assert (∀ k, k ∈ keys items → k ∈ keys (deref l h) ∧ k ≠ key) as Hin'.
  { intros k Hk. split; [apply Hin; rewrite keys_cons; apply elem_of_cons; by right|].
    by intros ->. }
  unfold restore_item. destruct (is_HardwareReference val) eqn:Ehw.
  { apply IH; [done | | done]. intros k Hk. rewrite deref_store_eq, keys_set.
    right. by apply Hin'. }
  destruct (String.eqb_spec (slice_from (-7) key) "_dilled") as [Hd|Hd].
  2:{ apply IH; [done | | done]. intros k Hk. by apply Hin'. }
  destruct (Hgood key val) as (b & f & -> & ->); [apply elem_of_cons; by left|done..|].
  rewrite deref_store_eq. unfold dict_del. rewrite decide_True.
  2:{ rewrite keys_set. right. apply Hin. rewrite keys_cons. apply elem_of_cons. by left. }
  apply IH; [done | | done]. intros k Hk.
  rewrite deref_store_eq, keys_remove, keys_set. destruct (Hin' k Hk). auto.
Qed.

Lemma restore_items_plain missing items l h h1 k v :
  NoDup (keys items) → (k, v) ∈ items →
  is_HardwareReference v = false → slice_from (-7) k ≠ "_dilled" →
  (k +:+ "_dilled") ∉ keys items →
  restore_items missing items l h = Done tt h1 →
  dict_get k (deref l h1) = dict_get k (deref l h).
Proof.
  intros Hnd Hin Hhw Hplain Hcomp Hrun.
  apply list_elem_of_split in Hin as (pre & post & ->).
  unfold keys in Hnd, Hcomp. rewrite fmap_app, fmap_cons in Hnd, Hcomp.
  cbn [fst] in Hnd, Hcomp.
  apply NoDup_app in Hnd as (_ & Hpre & [Hpost _]%NoDup_cons).
  rewrite elem_of_app, elem_of_cons in Hcomp.
  assert (∀ part, part = pre ∨ part = post →
            ∀ k' v', (k', v') ∈ part →
                     k' ≠ k ∧ (k' = k +:+ "_dilled" → v' = VNone)) as Hquiet.
  { intros part Hpart k' v' Hin'. apply elem_keys in Hin'. split.
    - intros ->. destruct Hpart as [-> | ->]; [|done].
      apply (Hpre k Hin'). apply elem_of_cons. by left.
    - intros ->. destruct Hcomp. destruct Hpart as [-> | ->]; [by left | right; by right]. }
  rewrite restore_items_app in Hrun.
  destruct (restore_items missing pre l h) as [[] h_pre|] eqn:Epre; [|done].
  cbn [restore_items] in Hrun.
  destruct (restore_item missing l h_pre (k, v)) as [[] h_k|] eqn:Ek; [|done].
  rewrite (restore_items_quiet _ _ _ _ _ k Hrun (Hquiet post (or_intror eq_refl))).
  rewrite <- (restore_items_quiet _ _ _ _ _ k Epre (Hquiet pre (or_introl eq_refl))).
  apply restore_item_Done in Ek
    as [(Hv & _)|[(_ & b & f & _ & _ & Hkey & _)|(_ & _ & ->)]]; [congruence | | done].
  destruct Hplain. rewrite Hkey at 1. apply dilled_suffix.
Qed.

Lemma restore_items_dilled missing items l h h1 a b :
  NoDup (keys items) → (a +:+ "_dilled", VBytes b) ∈ items →
  a ∉ keys items → ((a +:+ "_dilled") +:+ "_dilled") ∉ keys items →
  restore_items missing items l h = Done tt h1 →
  dict_get a (deref l h1) = dill_loads b
  ∧ dict_get (a +:+ "_dilled") (deref l h1) = None.
Proof.
  intros Hnd Hin Ha Hdd Hrun.
  assert (a ≠ a +:+ "_dilled") as Hne.
  { intros Heq. symmetry in Heq. by apply app_str_neq in Heq. }
  apply list_elem_of_split in Hin as (pre & post & ->).
  unfold keys in Hnd, Ha, Hdd. rewrite fmap_app, fmap_cons in Hnd, Ha, Hdd.
  cbn [fst] in Hnd, Ha, Hdd.
  apply NoDup_app in Hnd as (_ & Hpre & [Hpost _]%NoDup_cons).
  rewrite elem_of_app, elem_of_cons in Ha, Hdd.
  assert (∀ part, part = pre ∨ part = post →
            ∀ k' v', (k', v') ∈ part →
                     (k' ≠ a ∧ (k' = a +:+ "_dilled" → v' = VNone))
                     ∧ (k' ≠ a +:+ "_dilled"
                        ∧ (k' = (a +:+ "_dilled") +:+ "_dilled" → v' = VNone)))
    as Hquiet.
  { intros part Hpart k' v' Hin'. apply elem_keys in Hin'.
    assert (k' ≠ a +:+ "_dilled") as Hk'.
    { intros ->. destruct Hpart as [-> | ->]; [|done].
      apply (Hpre _ Hin'). apply elem_of_cons. by left. }
    split; [split|split].
    - intros ->. destruct Ha. destruct Hpart as [-> | ->]; [by left | right; by right].
    - by intros ->.
    - done.
    - intros ->. destruct Hdd. destruct Hpart as [-> | ->]; [by left | right; by right]. }
  rewrite restore_items_app in Hrun.
  destruct (restore_items missing pre l h) as [[] h_pre|] eqn:Epre; [|done].
  cbn [restore_items] in Hrun.
  destruct (restore_item missing l h_pre (a +:+ "_dilled", VBytes b)) as [[] h_k|] eqn:Ek;
    [|done].
  rewrite !(restore_items_quiet _ _ _ _ _ _ Hrun)
    by (intros k' v' Hin'; apply (Hquiet post (or_intror eq_refl) k' v' Hin')).
  apply restore_item_Done in Ek
    as [(Hv & _)|[(_ & b' & f & [= <-] & Hf & _ & ->)|(_ & Hno & _)]]; [done | |].
  - rewrite dilled_stem, deref_store_eq. split.
    + by rewrite dict_get_remove_ne, dict_get_set_eq.
    + apply dict_get_remove_eq.
  - destruct Hno. apply dilled_suffix.
Qed.

Lemma restore_items_values missing S l h :
  tidy S → deref l h = S →
  ∃ h1, restore_items missing S l h = Done tt h1
        ∧ (∀ l', l' ≠ l → h1 !! l' = h !! l')
        ∧ NoDup (keys (deref l h1))
        ∧ ∀ k, dict_get k (deref l h1) = after_restore S k.
Proof.
  intros Htidy Hh. pose proof Htidy as [Hnd Ht].
  destruct (restore_items_progress missing S l h Hnd) as [h1 Hrun].
  { intros k Hk. by rewrite Hh. }
  { intros k v Hin _ Hd. by apply (Ht k v Hin Hd). }
  exists h1. split; [done|].
  split; [intros l' Hl'; by eapply restore_items_frame|].
  split; [eapply restore_items_NoDup; [done | by rewrite Hh]|].
  intros k. unfold after_restore.
  destruct (dict_get k S) as [v|] eqn:Ek.
  - pose proof (dict_get_Some_elem _ _ _ Ek) as Hin.
    pose proof (tidy_no_companion S k Htidy (elem_keys _ _ _ Hin)) as Hcomp.
    destruct (is_HardwareReference v) eqn:Ehw.
    + assert (∀ k' v', (k', v') ∈ S → k' = k +:+ "_dilled" → v' = VNone) as Hc.
      { intros k' v' Hin' ->. destruct Hcomp. by eapply elem_keys. }
      by destruct (restore_items_key _ _ _ _ _ _ _ Hnd Hin Hc Hrun) as [-> _].
    + destruct (String.eqb_spec (slice_from (-7) k) "_dilled") as [Hd|Hd].
      * destruct (Ht k v Hin Hd) as [(b & f & -> & Hf) Hstem].
        pose proof (dilled_key_split k Hd) as Hk. rewrite Hk in Hin, Hcomp.
        destruct (restore_items_dilled _ _ _ _ _ _ _ Hnd Hin Hstem Hcomp Hrun) as [_ Hgone].
        by rewrite Hk.
      * rewrite (restore_items_plain _ _ _ _ _ _ _ Hnd Hin Ehw Hd Hcomp Hrun).
        by rewrite Hh.
  - assert (k ∉ keys S) as Hk by (by apply dict_get_None).
    destruct (dict_get (k +:+ "_dilled") S) as [v|] eqn:Ed.
    + pose proof (dict_get_Some_elem _ _ _ Ed) as Hin.
      destruct (Ht _ _ Hin (dilled_suffix k)) as [(b & f & -> & Hf) _].
      assert (((k +:+ "_dilled") +:+ "_dilled") ∉ keys S) as Hdd.
      { apply tidy_no_companion; [done|]. by eapply elem_keys. }
      by destruct (restore_items_dilled _ _ _ _ _ _ _ Hnd Hin Hk Hdd Hrun) as [-> _].
    + rewrite (restore_items_quiet _ _ _ _ _ k Hrun).
      * rewrite Hh, Ek. done.
      * intros k' v' Hin'. apply elem_keys in Hin'. split; [by intros ->|].
        intros ->. apply dict_get_None in Ed. done.
Qed.

Lemma setstate_state_spec (self : obj) (state : positive) (h : heap) (mine : gset string) :
  tidy (deref state h) →
  self_notPickled self = Some mine →
  obj_dict self ≠ state →
  ∃ h', __setstate__ self state h = Done tt h'
        ∧ (∀ l, l ≠ state → l ≠ obj_dict self → h' !! l = h !! l)
        ∧ ∀ k, dict_get k (deref (obj_dict self) h')
               = if decide (k ∈ mine) then Some VNone
                 else match after_restore (deref state h) k with
                      | Some v => Some v
                      | None => dict_get k (deref (obj_dict self) h)
                      end.
Proof.
  intros Htidy Hmine Hne. unfold __setstate__.
  destruct (restore_items_values KeyError (deref state h) state h Htidy eq_refl)
    as (h1 & -> & F1 & N1 & V1).
  rewrite Hmine. destruct (set_none_spec mine state h1) as (F2 & G2 & N2).
  eexists. split; [reflexivity|]. unfold Hashable_setstate. split.
  - intros l Hl Hl'. rewrite lookup_store_ne by done. by rewrite F2, F1.
  - intros k. rewrite deref_store_eq, dict_get_update, G2 by (by apply N2).
    destruct (decide (k ∈ mine)); [done|]. rewrite V1.
    destruct (after_restore (deref state h) k); [done|].
    unfold deref. by rewrite F2, F1.
Qed.

(** *** From [__getstate__] to [__setstate__] *)

Lemma delete_keys_Done ks st h h' :
  delete_keys ks st h = Done tt h' →
  (∀ l, l ≠ st → h' !! l = h !! l)
  ∧ ∀ k, dict_get k (deref st h')
         = if decide (k ∈ ks) then None else dict_get k (deref st h).
Proof.
  revert h. induction ks as [|k0 ks IH]; intros h; cbn [delete_keys].
  { intros [= <-]. split; [done|]. intros k.
    rewrite decide_False; [done | apply not_elem_of_nil]. }
  destruct (dict_del k0 (deref st h)) as [d|] eqn:Edel; [|done].
  apply dict_del_Some in Edel as ->. intros [F V]%IH. split.
  - intros l Hl. rewrite F by done. by apply lookup_store_ne.
  - intros k. rewrite V, deref_store_eq.
    destruct (decide (k ∈ ks)) as [Hks|Hks].
    + rewrite decide_True; [done | apply elem_of_cons; by right].
    + destruct (decide (k = k0)) as [->|Hne].
      * rewrite dict_get_remove_eq, decide_True; [done | apply elem_of_cons; by left].
      * rewrite dict_get_remove_ne by done. rewrite decide_False; [done|].
        rewrite not_elem_of_cons. done.
Qed.

Lemma getstate_loop_visa np st items h del del1 h1 :
  getstate_loop np st items h del = Done del1 h1 →
  (∀ k v, dict_get k (deref st h) = Some v → is_VISAObject v = true →
          (k, v) ∈ items ∨ k ∈ del) →
  ∀ k v, dict_get k (deref st h1) = Some v → is_VISAObject v = true → k ∈ del1.
Proof.
  revert h del. induction items as [|[key val] items IH]; intros h del;
    cbn [getstate_loop].
  { intros [= <- <-] Hinv k v Hg Hv. destruct (Hinv k v Hg Hv) as [Hin|?]; [|done].
    by apply elem_of_nil in Hin. }
  destruct (getstate_item np st h del (key, val)) as [del' h'|e h'] eqn:Estep; [|done].
  intros Hrest Hinv. apply (IH _ _ Hrest). intros k v.
  assert (dict_get k (deref st h) = Some v → is_VISAObject v = true →
          k ≠ key ∨ is_VISAObject val = false →
          (k, v) ∈ items ∨ k ∈ del) as Hold.
  { intros Hg Hv Hcase. destruct (Hinv k v Hg Hv) as [Hin|?]; [|by right].
    apply elem_of_cons in Hin as [[= -> ->]|?]; [|by left].
    destruct Hcase; [done | congruence]. }
  apply getstate_item_Done in Estep
    as [(Hnp & -> & ->)|[(Hnp & Hval & -> & ->)|[(Hnp & Hval & _ & dump & _ & -> & ->)|(Hnp & Hval & _ & -> & ->)]]];
    rewrite ?deref_store_eq.
  - intros Hg Hv. destruct (decide (k = key)) as [->|Hne].
    + right. apply elem_of_union. left. by apply elem_of_singleton.
    + destruct (Hold Hg Hv) as [?|?]; [by left | by left |].
      right. apply elem_of_union. by right.
  - destruct (decide (k = key)) as [->|Hne].
    + rewrite dict_get_set_eq. by intros [= <-].
    + rewrite dict_get_set_ne by done. intros Hg Hv. apply Hold; [done | done | by left].
  - destruct (decide (k = key +:+ "_dilled")) as [->|Hne].
    + rewrite dict_get_set_eq. by intros [= <-].
    + rewrite dict_get_set_ne by done. intros Hg Hv.
      destruct (Hold Hg Hv) as [?|?]; [by right | by left |].
      right. apply elem_of_union. by right.
  - intros Hg Hv. apply Hold; [done | done | by right].
Qed.

(** X14.  No instrument reaches the pickled state: whenever
    [__getstate__] returns, no value of the state is a VISAObject, whatever
    the attributes are called and whatever [notPickled] holds. *)
Theorem getstate_no_VISAObject (self : obj) (h : heap) (state : positive) (h' : heap) :
  __getstate__ self h = Done state h' →
  ∀ k v, dict_get k (deref state h') = Some v → is_VISAObject v = false.
Proof.
  unfold __getstate__, Hashable_getstate.
  set (st := fresh (dom h)). set (items := filter _ _).
  destruct (instance_notPickled self h) as [[| | | |own|]|]; [| | | | | |done].
  all: rewrite ?deref_store_eq.
  all: try (destruct items; [|done]; intros [= <- <-] k v;
            by rewrite deref_store_eq).
  set (np := allNotPickled own (obj_mro self)).
  destruct (getstate_loop np st items (store st items h) ∅) as [del1 h1|e h1] eqn:Eloop;
    [|done].
  pose proof (getstate_loop_visa _ _ _ _ _ _ _ Eloop) as Hvisa.
  destruct (delete_keys (elements del1) st h1) as [[] h2|] eqn:Edel; [|done].
  intros [= <- <-] k v. destruct (delete_keys_Done _ _ _ _ Edel) as [_ V].
  rewrite V. destruct (decide (k ∈ elements del1)) as [|Hk]; [done|].
  intros Hg. destruct (is_VISAObject v) eqn:Ev; [|done].
  destruct Hk. apply elem_of_elements. apply (Hvisa) with (v := v); [|done..].
  intros k' v' Hg' _. left. rewrite deref_store_eq in Hg'.
  by apply dict_get_Some_elem.
Qed.

(** X24.  A class among the attributes stops [__getstate__]: when an
    attribute that [Hashable] does not strip and no [notPickled] set
    names holds a class (not one called VISAObject), asking that value's
    class for its MRO is a call without its argument and [__getstate__]
    raises; the instance's own dict is as it was. *)
Theorem getstate_class_attribute_raises (self : obj) (h : heap) (own : gset string)
    (k : string) (v : pyval) :
  instance_notPickled self h = Some (VSet own) →
  (k, v) ∈ deref (obj_dict self) h →
  stripped (klass_name <$> obj_mro self) k = false →
  k ∉ allNotPickled own (obj_mro self) →
  is_class v = true → class_name v ≠ "VISAObject" →
  raised (__getstate__ self h) = true
  ∧ (is_Some (h !! obj_dict self) →
     res_state (__getstate__ self h) !! obj_dict self = h !! obj_dict self).
Proof.
  intros Hown Hin Hs Hnp Hcls Hname. split; [|apply getstate_frame].
  rewrite (getstate_unfold self h own Hown). cbv zeta.
  set (st := fresh (dom h)). set (items := filter _ _).
  assert (VISAObject_test v = None) as Htest.
  { unfold VISAObject_test. rewrite Hcls.
    by destruct (String.eqb_spec (class_name v) "VISAObject"). }
  pose proof (getstate_loop_class (allNotPickled own (obj_mro self)) st items
                (store st items h) ∅ k v) as Hloop.
  destruct (getstate_loop _ st items _ ∅) as [del1 h1|e h1]; [|done].
  discriminate Hloop; [|done..]. by apply list_elem_of_filter.
Qed.

Section round_trip.
Variables (mine np : gset string) (mro : list string) (attrs S : dict).
Hypothesis Hnames : ∀ k, k ∈ keys attrs → ¬ ends_with k "_dilled".
Hypothesis Hdill :
  ∀ k f, dict_get k attrs = Some f → stripped mro k = false → dilled_attr np k f →
         ∃ dump, dill_dumps f = Some dump ∧ dill_loads dump = Some f.
Hypothesis HS : ∀ k, dict_get k S = state_entry np mro attrs k.

Lemma attr_not_dilled k v :
  dict_get k attrs = Some v → slice_from (-7) k ≠ "_dilled".
Proof.
  intros Hg Hd. apply (Hnames k).
  - apply dict_get_Some_elem in Hg. by eapply elem_keys.
  - apply (slice_from_neg_spec 7 _ "_dilled" eq_refl ltac:(lia)). done.
Qed.

Lemma dilled_not_attr a : dict_get (a +:+ "_dilled") attrs = None.
Proof.
  apply dict_get_None. intros Hin. apply (Hnames _ Hin). by exists a.
Qed.

Lemma state_entry_dilled a :
  state_entry np mro attrs (a +:+ "_dilled")
  = match dict_get a attrs with
    | Some f =>
      if negb (stripped mro a) && negb (bool_decide (a ∈ np))
         && negb (is_VISAObject f)
         && (is_function f && negb (is_module_function f))
      then VBytes <$> dill_dumps f else None
    | None => None
    end.
Proof.
  unfold state_entry. rewrite dilled_not_attr, dilled_suffix, dilled_stem.
  by rewrite String.eqb_refl.
Qed.

Lemma kept_dilled a f :
  negb (stripped mro a) && negb (bool_decide (a ∈ np))
  && negb (is_VISAObject f)
  && (is_function f && negb (is_module_function f)) = true →
  stripped mro a = false ∧ dilled_attr np a f.
Proof.
  intros Ekept.
  apply andb_true_iff in Ekept as [Ekept Hfn].
  apply andb_true_iff in Ekept as [Ekept Hvisa%negb_true_iff].
  apply andb_true_iff in Ekept as [Hs%negb_true_iff Hnp%negb_true_iff].
  apply bool_decide_eq_false in Hnp. done.
Qed.

Lemma state_tidy : NoDup (keys S) → tidy S.
Proof.
  intros Hnd. split; [done|]. intros k v Hin Hd.
  apply (dict_get_elem_NoDup _ _ _ Hnd) in Hin. rewrite HS in Hin.
  pose proof (dilled_key_split k Hd) as Hk. set (a := slice_to (-7) k) in *.
  rewrite Hk, state_entry_dilled in Hin.
  destruct (dict_get a attrs) as [f|] eqn:Ea; [|done].
  destruct (negb (stripped mro a) && negb (bool_decide (a ∈ np))
            && negb (is_VISAObject f)
            && (is_function f && negb (is_module_function f))) eqn:Ekept; [|done].
  destruct (kept_dilled a f Ekept) as [Hs Hd'].
  destruct (Hdill a f Ea Hs Hd') as (dump & Hdump & Hload).
  rewrite Hdump in Hin. injection Hin as <-.
  split.
  - by exists dump, f.
  - apply dict_get_None. rewrite HS. unfold state_entry.
    destruct Hd' as (Hnp & Hvisa & Hfn).
    by rewrite Ea, Hs, (bool_decide_eq_false_2 _ Hnp), Hvisa, Hfn.
Qed.

Lemma after_restore_state k :
  after_restore S k
  = match dict_get k attrs with
    | Some v =>
      if stripped mro k || bool_decide (k ∈ np) then None
      else if is_VISAObject v || is_HardwareReference v then Some VNone
      else Some v
    | None => None
    end.
Proof.
  unfold after_restore. rewrite !HS, state_entry_dilled. unfold state_entry.
  destruct (dict_get k attrs) as [v|] eqn:Ek.
  - pose proof (attr_not_dilled k v Ek) as Hplain.
    destruct (stripped mro k || bool_decide (k ∈ np)) eqn:Edrop.
    { apply orb_true_iff in Edrop as [->| ->]; cbn; [done|].
      by rewrite andb_false_r. }
    pose proof Edrop as Edrop'.
    apply orb_false_iff in Edrop as [Hs Hnp]. rewrite Hs, Hnp. cbn [negb andb].
    destruct (is_VISAObject v) eqn:Ev; cbn [orb negb andb]; [done|].
    destruct (is_function v && negb (is_module_function v)) eqn:Ef.
    + destruct (Hdill k v Ek Hs) as (dump & -> & Hload).
      { split; [by apply bool_decide_eq_false in Hnp | done]. }
      cbn [fmap option_fmap option_map]. rewrite Hload.
      by destruct v as [| |[] src| | |].
    + destruct (is_HardwareReference v); [done|].
      destruct (String.eqb_spec (slice_from (-7) k) "_dilled"); done.
  - destruct (String.eqb_spec (slice_from (-7) k) "_dilled") as [Hd|Hd]; [|done].
    destruct (dict_get (slice_to (-7) k) attrs) as [f|]; [|done].
    destruct (negb _ && _ && _ && _); [|done].
    destruct (dill_dumps f); cbn [fmap option_fmap option_map is_HardwareReference];
      [|done].
    destruct (String.eqb_spec (slice_from (-7) k) "_dilled"); done.
Qed.

End round_trip.

Lemma getstate_setstate_spec (self twin : obj) (h : heap) (own mine : gset string)
    (state : positive) (h1 : heap) :
  let attrs := deref (obj_dict self) h in
  NoDup (keys attrs) →
  (∀ k, k ∈ keys attrs → ¬ ends_with k "_dilled") →
  (∀ k f dump, dict_get k attrs = Some f →
               is_function f && negb (is_module_function f) = true →
               dill_dumps f = Some dump → dill_loads dump = Some f) →
  instance_notPickled self h = Some (VSet own) →
  self_notPickled self = Some mine →
  obj_mro twin = obj_mro self →
  h !! obj_dict twin = Some [] →
  __getstate__ self h = Done state h1 →
  ∃ h2,
    __setstate__ twin state h1 = Done tt h2
    ∧ ∀ k, dict_get k (deref (obj_dict twin) h2)
           = restored_entry mine (allNotPickled own (obj_mro self))
                            (klass_name <$> obj_mro self) attrs k.
Proof.
  intros attrs Hnd Hnames Hdill Hown Hmine Hmro Hnew Hget.
  destruct (getstate_state_spec self h own state h1 Hnd Hnames Hown Hget)
    as (HndS & HS & Hdumped).
  fold attrs in HS, Hdumped.
  destruct (getstate_Done _ _ _ _ Hget) as (Hfresh & Hframe & _).
  assert (obj_dict twin ≠ state) as Hne.
  { intros Heq. apply (is_fresh (dom h)). rewrite <- Hfresh, <- Heq.
    apply elem_of_dom. by eexists. }
  assert (∀ k f, dict_get k attrs = Some f →
                 stripped (klass_name <$> obj_mro self) k = false →
                 dilled_attr (allNotPickled own (obj_mro self)) k f →
                 ∃ dump, dill_dumps f = Some dump ∧ dill_loads dump = Some f) as Hdill'.
  { intros k f Hk Hs Hd. destruct (Hdumped k f Hk Hs Hd) as [dump Hdump].
    exists dump. split; [done|]. apply (Hdill k f dump Hk); [|done]. by destruct Hd as (_ & _ & ?). }
  pose proof (state_tidy _ _ _ _ Hnames Hdill' HS HndS) as Htidy.
  assert (self_notPickled twin = Some mine) as Hmine'.
  { unfold self_notPickled in *. by rewrite Hmro. }
  destruct (setstate_state_spec twin state h1 mine Htidy Hmine' Hne) as (h2 & Hset & _ & V).
  exists h2. split; [done|].
  intros k. rewrite V. unfold restored_entry.
  destruct (decide (k ∈ mine)) as [Hk|Hk].
  { by rewrite bool_decide_eq_true_2. }
  rewrite bool_decide_eq_false_2 by done.
  rewrite (after_restore_state _ _ _ _ Hnames Hdill' HS).
  assert (deref (obj_dict twin) h1 = []) as ->.
  { unfold deref. by rewrite Hframe, Hnew. }
  destruct (dict_get k attrs) as [v|]; [|done].
  destruct (stripped _ k || bool_decide (k ∈ _)); [done|].
  by destruct (is_VISAObject v || is_HardwareReference v).
Qed.

(** X16.  [__getstate__] then [__setstate__] on a new instance of the
    same class, for an instance with distinct attribute names none of
    which ends in "_dilled" and a set under [self.notPickled], where
    [dill] loads back what it dumps of the function attributes.  Whenever
    [__getstate__] returns, [__setstate__] returns too, and the new
    instance holds [None] under every name of its class's [notPickled];
    nothing under a name [Hashable] strips or that the union of the
    [notPickled] sets holds; [None] where the original held an instrument
    or a placeholder; and the original's value everywhere else, functions
    that are not module-level included.  And [__getstate__] does return
    when no attribute holds a class and [dill] dumps the function
    attributes. *)
Theorem getstate_setstate_round_trip (self twin : obj) (h : heap) (own mine : gset string) :
  let attrs := deref (obj_dict self) h in
  NoDup (keys attrs) →
  (∀ k, k ∈ keys attrs → ¬ ends_with k "_dilled") →
  (∀ k f dump, dict_get k attrs = Some f →
               is_function f && negb (is_module_function f) = true →
               dill_dumps f = Some dump → dill_loads dump = Some f) →
  instance_notPickled self h = Some (VSet own) →
  self_notPickled self = Some mine →
  obj_mro twin = obj_mro self →
  h !! obj_dict twin = Some [] →
  (∀ state h1,
      __getstate__ self h = Done state h1 →
      ∃ h2,
        __setstate__ twin state h1 = Done tt h2
        ∧ ∀ k, dict_get k (deref (obj_dict twin) h2)
               = restored_entry mine (allNotPickled own (obj_mro self))
                                (klass_name <$> obj_mro self) attrs k)
  ∧ ((∀ k v, (k, v) ∈ attrs →
             is_class v = false
             ∧ (is_function v && negb (is_module_function v) = true →
                is_Some (dill_dumps v))) →
     ∃ state h1, __getstate__ self h = Done state h1).
Proof.
  intros attrs Hnd Hnames Hdill Hown Hmine Hmro Hnew. split.
  - intros state h1 Hget.
    exact (getstate_setstate_spec self twin h own mine state h1
             Hnd Hnames Hdill Hown Hmine Hmro Hnew Hget).
  - exact (getstate_returns self h own Hown).
Qed.

(** *** When restoring fails *)

Lemma restore_item_frame_any missing l h kv l' :
  l' ≠ l → res_state (restore_item missing l h kv) !! l' = h !! l'.
Proof.
  intros Hne. destruct kv as [key val]. unfold restore_item.
  destruct (is_HardwareReference val); cbn [res_state].
  { by apply lookup_store_ne. }
  destruct (String.eqb (slice_from (-7) key) "_dilled"); [|done].
  destruct val as [|b| | | |]; try done.
  destruct (dill_loads b) as [f|]; [|done].
  destruct (dict_del key _); cbn [res_state];
    repeat rewrite lookup_store_ne by done; done.
Qed.

Lemma restore_items_frame_any missing items l h l' :
  l' ≠ l → res_state (restore_items missing items l h) !! l' = h !! l'.
Proof.
  intros Hne. revert h. induction items as [|kv items IH]; intros h;
    cbn [restore_items]; [done|].
  pose proof (restore_item_frame_any missing l h kv l' Hne) as Hstep.
  destruct (restore_item missing l h kv) as [[] h1|e h1]; cbn [res_state] in *.
  - by rewrite IH.
  - done.
Qed.

Lemma restore_items_bad missing items l h k v :
  (k, v) ∈ items →
  slice_from (-7) k = "_dilled" →
  is_HardwareReference v = false →
  (∀ b, v = VBytes b → dill_loads b = None) →
  raised (restore_items missing items l h) = true.
Proof.
  intros Hin Hk Hv Hbad. revert h.
  induction items as [|[key val] items IH]; intros h; cbn [restore_items].
  { by apply elem_of_nil in Hin. }
  destruct (restore_item missing l h (key, val)) as [[] h1|e h1] eqn:Estep; [|done].
  apply elem_of_cons in Hin as [[= <- <-]|Hin]; [|by apply IH].
  exfalso. unfold restore_item in Estep. rewrite Hv, Hk in Estep.
  destruct v as [|b| | | |]; try done. by rewrite (Hbad b eq_refl) in Estep.
Qed.

(** X17.  A state that [__setstate__] cannot restore: if some key that
    ends in "_dilled" carries a value that is neither a placeholder nor
    bytes [dill] can load, [__setstate__] raises, and the instance's own
    dict, as every dict but the state handed in, is as it was. *)
Theorem setstate_bad_entry_raises (self : obj) (state : positive) (h : heap)
    (k : string) (v : pyval) :
  (k, v) ∈ deref state h →
  slice_from (-7) k = "_dilled" →
  is_HardwareReference v = false →
  (∀ b, v = VBytes b → dill_loads b = None) →
  ∃ e h', __setstate__ self state h = Raised e h'
          ∧ ∀ l, l ≠ state → h' !! l = h !! l.
Proof.
  intros Hin Hk Hv Hbad. unfold __setstate__.
  pose proof (restore_items_bad KeyError _ state h k v Hin Hk Hv Hbad) as Hr.
  pose proof (restore_items_frame_any KeyError (deref state h) state h) as Hf.
  destruct (restore_items KeyError (deref state h) state h) as [[] h1|e h1]; [done|].
  exists e, h1. split; [done|]. intros l Hl. by apply Hf.
Qed.

(** *** [_fromJSONcheck], entry by entry *)

Lemma keys_dict_get k (d : dict) : k ∈ keys d ↔ is_Some (dict_get k d).
Proof.
  destruct (dict_get k d) as [v|] eqn:E.
  - split; [by eexists|]. intros _. apply dict_get_Some_elem in E. by eapply elem_keys.
  - apply dict_get_None in E. split; [done | by intros [? ?]].
Qed.

(** X18.  What [_fromJSONcheck] hands out, entry by entry: when the
    unpickler restores an object of the class (or of a class of that
    name) whose dict has distinct keys, loadable bytes under its "_dilled"
    keys and nothing under their stems, and no name of the class's
    [notPickled] ends in "_dilled" or has a "_dilled" entry, the call
    returns that object; no other dict changed; and the object holds
    [None] under every name of [notPickled], and elsewhere what the
    restoring loop makes of its entries: [None] for a placeholder, the
    loaded function under the stem of a "_dilled" key, the value itself
    otherwise. *)
Theorem fromJSONcheck_values (cls : klass) (json : string) (h : heap) (o : obj)
    (h0 : heap) (np : gset string) :
  let D := deref (obj_dict o) h0 in
  restore json h = Done o h0 →
  isinstance o cls = true ∨ type_name o = klass_name cls →
  klass_notPickled cls = Some np →
  tidy D →
  (∀ a, a ∈ np → ¬ ends_with a "_dilled" ∧ (a +:+ "_dilled") ∉ keys D) →
  ∃ h', _fromJSONcheck cls json h = Done o h'
        ∧ (∀ l, l ≠ obj_dict o → h' !! l = h0 !! l)
        ∧ ∀ k, dict_get k (deref (obj_dict o) h')
               = if decide (k ∈ np) then Some VNone else after_restore D k.
Proof.
  intros D Hres Hcls Hnp [Hnd Ht] Hnames. unfold _fromJSONcheck. rewrite Hres.
  assert (negb (isinstance o cls)
          && negb (String.eqb (type_name o) (klass_name cls)) = false) as ->.
  { destruct Hcls as [-> | ->]; [done|]. rewrite String.eqb_refl. apply andb_false_r. }
  rewrite Hnp. cbv zeta.
  destruct (set_none_spec np (obj_dict o) h0) as (F & G & N).
  set (h1 := set_none np (obj_dict o) h0) in *. fold D in G, N.
  set (D' := deref (obj_dict o) h1) in *.
  assert (∀ a, a ∈ np → slice_from (-7) a ≠ "_dilled") as Hplain.
  { intros a Ha Hd. apply (proj1 (Hnames a Ha)).
    by apply (slice_from_neg_spec 7 _ "_dilled" eq_refl ltac:(lia)). }
  assert (tidy D') as Htidy.
  { split; [by apply N|]. intros k v Hin Hd.
    apply (dict_get_elem_NoDup _ _ _ (N Hnd)) in Hin. rewrite G in Hin.
    destruct (decide (k ∈ np)) as [Hk|Hk]; [by destruct (Hplain k Hk)|].
    apply dict_get_Some_elem in Hin. destruct (Ht k v Hin Hd) as [Hv Hstem].
    split; [done|]. rewrite keys_dict_get, G.
    destruct (decide (slice_to (-7) k ∈ np)) as [Hs|Hs].
    - destruct (proj2 (Hnames _ Hs)). rewrite <- (dilled_key_split k Hd).
      by eapply elem_keys.
    - by rewrite <- keys_dict_get. }
  destruct (restore_items_values AttributeError D' (obj_dict o) h1 Htidy eq_refl)
    as (h' & -> & F' & _ & V).
  exists h'. split; [done|]. split.
  { intros l Hl. by rewrite F', F. }
  intros k. rewrite V. unfold after_restore. rewrite !G.
  destruct (decide (k ∈ np)) as [Hk|Hk].
  { cbn [is_HardwareReference].
    by destruct (String.eqb_spec (slice_from (-7) k) "_dilled") as [Hd|Hd];
      [destruct (Hplain k Hk)|]. }
  destruct (dict_get k D); [done|].
  destruct (decide ((k +:+ "_dilled") ∈ np)) as [Hkd|Hkd]; [|done].
  destruct (Hplain _ Hkd). apply dilled_suffix.
Qed.

(** *** The two methods in closed form *)

(** X13.  The state [__getstate__] returns, entry by entry: for an
    instance with distinct attribute names none of which ends in
    "_dilled" and a set under [self.notPickled] (the class's, or the
    instance's own), whenever the call returns, the state has distinct
    keys and holds, for an attribute neither stripped by [Hashable] nor in
    the union of that set with the [notPickled] sets along the MRO: a
    placeholder naming the class for an instrument, the [dill] dump under
    the name with "_dilled" appended for a function that is not
    module-level, and the value itself otherwise; and nothing else.  And
    the call does return when no attribute holds a class and [dill] dumps
    the function attributes. *)
Theorem getstate_values (self : obj) (h : heap) (own : gset string) :
  let attrs := deref (obj_dict self) h in
  NoDup (keys attrs) →
  (∀ k, k ∈ keys attrs → ¬ ends_with k "_dilled") →
  instance_notPickled self h = Some (VSet own) →
  (∀ state h',
      __getstate__ self h = Done state h' →
      NoDup (keys (deref state h'))
      ∧ ∀ k, dict_get k (deref state h')
             = state_entry (allNotPickled own (obj_mro self))
                           (klass_name <$> obj_mro self) attrs k)
  ∧ ((∀ k v, (k, v) ∈ attrs →
             is_class v = false
             ∧ (is_function v && negb (is_module_function v) = true →
                is_Some (dill_dumps v))) →
     ∃ state h', __getstate__ self h = Done state h').
Proof.
  intros attrs Hnd Hnames Hown. split.
  - intros state h' Hrun.
    destruct (getstate_state_spec self h own state h' Hnd Hnames Hown Hrun)
      as (HndS & HS & _).
    done.
  - exact (getstate_returns self h own Hown).
Qed.


(** *** Checks that compute *)

Lemma plain_names (d : dict) :
  forallb (fun k => negb (endswith k "_dilled")) (keys d) = true →
  ∀ k, k ∈ keys d → ¬ ends_with k "_dilled".
Proof.
  intros Hall k Hin Hend. apply endswith_spec in Hend.
  rewrite forallb_forall in Hall.
  specialize (Hall k (proj1 (list_elem_of_In _ _) Hin)). by rewrite Hend in Hall.
Qed.

Lemma tidy_intro (S : dict) :
  NoDup (keys S) →
  Forall (fun kv => slice_from (-7) kv.1 = "_dilled" →
                    (∃ b f, kv.2 = VBytes b ∧ dill_loads b = Some f)
                    ∧ slice_to (-7) kv.1 ∉ keys S) S →
  tidy S.
Proof.
  intros Hnd Hall. split; [done|]. intros k v Hin.
  rewrite Forall_forall in Hall. apply (Hall (k, v) Hin).
Qed.

End more.

Lemma getstate_values_witness :
  let h := Scenario.workshop in
  let attrs := deref (obj_dict Example.bench) h in
  NoDup (keys attrs)
  ∧ (∀ k, k ∈ keys attrs → ¬ ends_with k "_dilled")
  ∧ instance_notPickled Example.bench h = Some (VSet {["laser"]})
  ∧ ∃ state h',
      @__getstate__ Example.libs Example.bench h = Done state h'
      ∧ dict_get "laser" (deref state h') = None
      ∧ dict_get "f" (deref state h') = None
      ∧ dict_get "f_dilled" (deref state h') = Some (VBytes "lambda x: x").
Proof.
  cbv zeta.
  assert (NoDup (keys (deref (obj_dict Example.bench) Scenario.workshop))) as Hnd.
  { change (NoDup ["laser"; "gain"; "f"]%string).
    apply (bool_decide_unpack _). vm_compute. exact I. }
  assert (∀ k, k ∈ keys (deref (obj_dict Example.bench) Scenario.workshop) →
               ¬ ends_with k "_dilled") as Hnames.
  { apply plain_names. vm_compute. reflexivity. }
  assert (instance_notPickled Example.bench Scenario.workshop = Some (VSet {["laser"]}))
    as Hown by reflexivity.
  split; [exact Hnd|]. split; [exact Hnames|]. split; [exact Hown|].
  destruct (@getstate_values Example.libs Example.bench Scenario.workshop {["laser"]}
              Hnd Hnames Hown) as [Hvals Hreturns].
  destruct Hreturns as (state & h' & Hrun).
  { intros k v Hin.
    change ((k, v) ∈ [("laser"%string, VObject "Laser" ["VISAObject"; "object"] "GPIB::3");
                      ("gain"%string, VObject "int" ["object"] "3");
                      ("f"%string, VFunction false "lambda x: x")]) in Hin.
    apply elem_of_cons in Hin as [Hin|Hin]; [injection Hin as -> ->; by split|].
    apply elem_of_cons in Hin as [Hin|Hin]; [injection Hin as -> ->; by split|].
    apply elem_of_cons in Hin as [Hin|Hin]; [injection Hin as -> ->|].
    - split; [reflexivity|]. intros _. by eexists.
    - by apply elem_of_nil in Hin. }
  exists state, h'. split; [exact Hrun|].
  destruct (Hvals state h' Hrun) as [_ Hentries].
  rewrite !Hentries. split; [|split]; vm_compute; reflexivity.
Defined.

Lemma getstate_no_VISAObject_witness :
  ∃ state h',
    @__getstate__ Example.libs (mkObj (Example.bench_mro ∅) 1) Scenario.workshop
    = Done state h'
    ∧ ∀ k v, dict_get k (deref state h') = Some v → is_VISAObject v = false.
Proof.
  assert (∃ state h',
            @__getstate__ Example.libs (mkObj (Example.bench_mro ∅) 1) Scenario.workshop
            = Done state h') as (state & h' & Hrun).
  { eexists _, _. vm_compute. reflexivity. }
  exists state, h'. split; [exact Hrun|].
  exact (@getstate_no_VISAObject Example.libs _ _ _ _ Hrun).
Defined.

Lemma getstate_class_attribute_raises_witness :
  let h := Scenario.typed_workshop in
  let kind := VObject "type" ["object"] "<class 'int'>" in
  instance_notPickled Example.bench h = Some (VSet {["laser"]})
  ∧ (("kind", kind) ∈ deref (obj_dict Example.bench) h)
  ∧ is_class kind = true
  ∧ @__getstate__ Example.libs Example.bench h
    = Raised (TypeError "unbound method type.mro() needs an argument")
             (res_state (@__getstate__ Example.libs Example.bench h))
  ∧ res_state (@__getstate__ Example.libs Example.bench h) !! obj_dict Example.bench
    = h !! obj_dict Example.bench.
Proof.
  cbv zeta.
  assert (instance_notPickled Example.bench Scenario.typed_workshop
          = Some (VSet {["laser"]})) as Hown by reflexivity.
  assert (("kind"%string, VObject "type" ["object"] "<class 'int'>")
          ∈ deref (obj_dict Example.bench) Scenario.typed_workshop) as Hin.
  { change (("kind"%string, VObject "type" ["object"] "<class 'int'>")
            ∈ [("gain"%string, VObject "int" ["object"] "3");
               ("kind"%string, VObject "type" ["object"] "<class 'int'>")]).
    apply elem_of_cons. right. apply elem_of_cons. by left. }
  assert ("kind" ∉ allNotPickled {["laser"]} (obj_mro Example.bench)) as Hnp.
  { apply (bool_decide_unpack _). vm_compute. exact I. }
  assert (class_name (VObject "type" ["object"] "<class 'int'>") ≠ "VISAObject")
    as Hname by discriminate.
  split; [exact Hown|]. split; [exact Hin|]. split; [reflexivity|].
  destruct (@getstate_class_attribute_raises Example.libs Example.bench
              Scenario.typed_workshop {["laser"]} _ _ Hown Hin eq_refl Hnp eq_refl Hname)
    as [_ Hsame].
  split; [vm_compute; reflexivity|].
  apply Hsame. eexists. vm_compute. reflexivity.
Defined.


Lemma getstate_setstate_round_trip_witness :
  let h := Scenario.workshop in
  let attrs := deref (obj_dict Example.bench) h in
  NoDup (keys attrs)
  ∧ (∀ k, k ∈ keys attrs → ¬ ends_with k "_dilled")
  ∧ (∀ k f dump, dict_get k attrs = Some f →
                 is_function f && negb (is_module_function f) = true →
                 @dill_dumps Example.libs f = Some dump →
                 @dill_loads Example.libs dump = Some f)
  ∧ instance_notPickled Example.bench h = Some (VSet {["laser"]})
  ∧ self_notPickled Example.bench = Some {["laser"]}
  ∧ obj_mro Scenario.twin = obj_mro Example.bench
  ∧ h !! obj_dict Scenario.twin = Some []
  ∧ ∃ state h1 h2,
      @__getstate__ Example.libs Example.bench h = Done state h1
      ∧ @__setstate__ Example.libs Scenario.twin state h1 = Done tt h2
      ∧ dict_get "laser" (deref (obj_dict Scenario.twin) h2) = Some VNone
      ∧ dict_get "gain" (deref (obj_dict Scenario.twin) h2)
        = Some (VObject "int" ["object"] "3")
      ∧ dict_get "f" (deref (obj_dict Scenario.twin) h2)
        = Some (VFunction false "lambda x: x").
Proof.
  cbv zeta.
  assert (NoDup (keys (deref (obj_dict Example.bench) Scenario.workshop))) as Hnd.
  { change (NoDup ["laser"; "gain"; "f"]%string).
    apply (bool_decide_unpack _). vm_compute. exact I. }
  assert (∀ k, k ∈ keys (deref (obj_dict Example.bench) Scenario.workshop) →
               ¬ ends_with k "_dilled") as Hnames.
  { apply plain_names. vm_compute. reflexivity. }
  assert (∀ k f dump,
            dict_get k (deref (obj_dict Example.bench) Scenario.workshop) = Some f →
            is_function f && negb (is_module_function f) = true →
            @dill_dumps Example.libs f = Some dump →
            @dill_loads Example.libs dump = Some f) as Hdill.
  { intros k f dump _ Hf Hdump. destruct f as [| |[] src| | |]; try discriminate Hf.
    injection Hdump as <-. reflexivity. }
  assert (instance_notPickled Example.bench Scenario.workshop = Some (VSet {["laser"]}))
    as Hown by reflexivity.
  assert (Scenario.workshop !! obj_dict Scenario.twin = Some []) as Hnew
    by (vm_compute; reflexivity).
  split; [exact Hnd|]. split; [exact Hnames|].
  split; [exact Hdill|]. split; [exact Hown|]. split; [reflexivity|].
  split; [reflexivity|]. split; [exact Hnew|].
  destruct (@getstate_setstate_round_trip Example.libs Example.bench Scenario.twin
              Scenario.workshop {["laser"]} {["laser"]} Hnd Hnames Hdill Hown
              eq_refl eq_refl Hnew) as [Hround _].
  assert (@__getstate__ Example.libs Example.bench Scenario.workshop
          = Done 3%positive
              (res_state (@__getstate__ Example.libs Example.bench Scenario.workshop)))
    as Hget by (vm_compute; reflexivity).
  destruct (Hround _ _ Hget) as (h2 & Hset & Hvals).
  eexists _, _, h2. split; [exact Hget|]. split; [exact Hset|].
  rewrite !Hvals. split; [|split]; vm_compute; reflexivity.
Defined.

Lemma setstate_bad_entry_raises_witness :
  let h := Example.stored_heap Scenario.broken_state in
  let v := VObject "str" ["object"] "lambda x: x" in
  (("f_dilled", v) ∈ deref 2 h)
  ∧ slice_from (-7) "f_dilled" = "_dilled"
  ∧ is_HardwareReference v = false
  ∧ (∀ b, v = VBytes b → @dill_loads Example.libs b = None)
  ∧ ∃ e h', @__setstate__ Example.libs Example.bench 2 h = Raised e h'
            ∧ h' !! obj_dict Example.bench = h !! obj_dict Example.bench.
Proof.
  cbv zeta.
  assert (("f_dilled"%string, VObject "str" ["object"] "lambda x: x")
          ∈ deref 2 (Example.stored_heap Scenario.broken_state)) as Hin.
  { change (("f_dilled"%string, VObject "str" ["object"] "lambda x: x")
            ∈ Scenario.broken_state).
    apply elem_of_cons. right. apply elem_of_cons. left. reflexivity. }
  assert (∀ b, VObject "str" ["object"] "lambda x: x" = VBytes b →
               @dill_loads Example.libs b = None) as Hbad
    by (intros b Hb; discriminate Hb).
  split; [exact Hin|]. split; [reflexivity|]. split; [reflexivity|].
  split; [exact Hbad|].
  destruct (@setstate_bad_entry_raises Example.libs Example.bench 2%positive
              (Example.stored_heap Scenario.broken_state) _ _ Hin eq_refl eq_refl Hbad)
    as (e & h' & Hrun & Hframe).
  exists e, h'. split; [exact Hrun|]. apply Hframe. discriminate.
Defined.

Lemma fromJSONcheck_values_witness :
  let bench_class := mkKlass "Bench" (Some {["laser"]}) in
  let o := mkObj (Example.bench_mro {["laser"]}) 1 in
  let h0 := res_state (@restore Example.libs "{bench}" ∅) in
  let D := deref (obj_dict o) h0 in
  @restore Example.libs "{bench}" ∅ = Done o h0
  ∧ (isinstance o bench_class = true ∨ type_name o = klass_name bench_class)
  ∧ klass_notPickled bench_class = Some {["laser"]}
  ∧ @tidy Example.libs D
  ∧ (∀ a, a ∈ ({["laser"]} : gset string) →
          ¬ ends_with a "_dilled" ∧ (a +:+ "_dilled") ∉ keys D)
  ∧ ∃ h', @_fromJSONcheck Example.libs bench_class "{bench}" ∅ = Done o h'
          ∧ dict_get "laser" (deref (obj_dict o) h') = Some VNone
          ∧ dict_get "scope" (deref (obj_dict o) h') = Some VNone
          ∧ dict_get "gain" (deref (obj_dict o) h')
            = Some (VObject "int" ["object"] "3").
Proof.
  cbv zeta.
  set (o := mkObj (Example.bench_mro {["laser"]}) 1).
  set (h0 := res_state (@restore Example.libs "{bench}" ∅)).
  assert (@restore Example.libs "{bench}" ∅ = Done o h0) as Hres
    by (vm_compute; reflexivity).
  assert (isinstance o (mkKlass "Bench" (Some {["laser"]})) = true
          ∨ type_name o = klass_name (mkKlass "Bench" (Some {["laser"]}))) as Hcls
    by (right; reflexivity).
  assert (@tidy Example.libs (deref (obj_dict o) h0)) as Htidy.
  { change (@tidy Example.libs Example.scope_state). apply tidy_intro.
    - apply (bool_decide_unpack _). vm_compute. exact I.
    - apply Forall_cons. split; [intros Hd; vm_compute in Hd; discriminate Hd|].
      apply Forall_cons. split; [intros Hd; vm_compute in Hd; discriminate Hd|].
      apply Forall_nil_2. }
  assert (∀ a, a ∈ ({["laser"]} : gset string) →
               ¬ ends_with a "_dilled" ∧ (a +:+ "_dilled") ∉ keys (deref (obj_dict o) h0))
    as Hnames.
  { intros a Ha. apply elem_of_singleton in Ha. subst a. split.
    - intros Hend. apply endswith_spec in Hend. discriminate Hend.
    - change ("laser_dilled" ∉ ["scope"; "gain"]%string).
      apply (bool_decide_unpack _). vm_compute. exact I. }
  split; [exact Hres|]. split; [exact Hcls|]. split; [reflexivity|].
  split; [exact Htidy|]. split; [exact Hnames|].
  destruct (@fromJSONcheck_values Example.libs (mkKlass "Bench" (Some {["laser"]}))
              "{bench}" ∅ o h0 {["laser"]} Hres Hcls eq_refl Htidy Hnames)
    as (h' & Hrun & _ & Hvals).
  exists h'. split; [exact Hrun|].
  rewrite !Hvals. split; [|split]; vm_compute; reflexivity.
Defined.

End JSONpickleableMore.

(** ** [copy], [save] and [load] *)

Module JSONfileFacts.
Import PyStr PyStrFacts JSONpickleable JSONfile.

Lemma json_name_spec f :
  json_name f = if endswith f ".json" then f else f +:+ ".json".
Proof.
  unfold json_name.
  destruct (String.eqb_spec (slice_from (-5) f) ".json") as [Heq|Hne]; cbn [negb].
  - apply (slice_from_neg_spec 5 f ".json" eq_refl ltac:(lia)), endswith_spec in Heq.
    by rewrite Heq.
  - destruct (endswith f ".json") eqn:E; [|done].
    apply endswith_spec, (slice_from_neg_spec 5 f ".json" eq_refl ltac:(lia)) in E.
    done.
Qed.

Lemma json_name_ends f : ends_with (json_name f) ".json".
Proof.
  rewrite json_name_spec. destruct (endswith f ".json") eqn:E.
  - by apply endswith_spec.
  - by exists f.
Qed.

Lemma json_name_fixed f : json_name f = f ↔ ends_with f ".json".
Proof.
  rewrite json_name_spec. destruct (endswith f ".json") eqn:E.
  - split; [intros _; by apply endswith_spec | done].
  - split.
    + intros Heq. by apply app_str_neq in Heq.
    + intros Hend%endswith_spec. congruence.
Qed.

Lemma json_name_idempotent f : json_name (json_name f) = json_name f.
Proof. apply json_name_fixed, json_name_ends. Qed.

(** Text without a carriage return reads back as written. *)
Lemma universal_newlines_plain s :
  (∀ pre post, s ≠ pre +:+ String "013" post) → universal_newlines s = s.
Proof.
  induction s as [|c s IH]; intros Hcr; cbn [universal_newlines]; [done|].
  destruct (Ascii.eqb_spec c "013") as [->|Hc].
  { by destruct (Hcr "" s). }
  f_equal. apply IH. intros pre post ->. by apply (Hcr (String c pre) post).
Qed.

Section facts.
Context `{Libs} `{Host}.

(** X19.  What [save] writes, [load] reads as [copy] would have made it:
    if the file can be made, [_toJSON] returns [json] and [json] reads
    back as written (it holds no carriage return), then [save] under [f]
    returns, the file [json_name f] holds [json] and no other file
    changed; [load] under any name with the same [json_name] then is
    [_fromJSONcheck] on [json], and for the instance's own class it
    returns or raises as [copy] does. *)
Theorem save_then_load_is_copy (self : obj) (cls : klass) (f g : string)
    (w : world) (json : string) (h1 : heap) :
  creatable (json_name f) = true →
  json_name g = json_name f →
  _toJSON self (objects w) = Done json h1 →
  universal_newlines json = json →
  ∃ w1,
    save self f w = Done tt w1
    ∧ objects w1 = h1
    ∧ texts w1 !! json_name f = Some json
    ∧ (∀ q, q ≠ json_name f → texts w1 !! q = texts w !! q)
    ∧ load cls g w1 = with_texts (texts w1) (_fromJSONcheck cls json h1)
    ∧ load (type_of self) g w1 = with_texts (texts w1) (copy self (objects w)).
Proof.
  intros Hmake Hname Hjson Hplain. unfold save. rewrite Hmake, Hjson.
  eexists. split; [done|]. cbn [objects texts].
  split; [done|]. split; [apply lookup_insert_eq|].
  split.
  { intros q Hq. by rewrite !lookup_insert_ne. }
  assert (∀ c,
            load c g {| objects := h1;
                        texts := <[json_name f := json]>
                                   (<[json_name f := ""]> (texts w)) |}
            = with_texts (<[json_name f := json]> (<[json_name f := ""]> (texts w)))
                         (_fromJSONcheck c json h1)) as Hload.
  { intros c. unfold load. cbn [objects texts].
    by rewrite Hname, lookup_insert_eq, Hplain. }
  split; [apply Hload|].
  rewrite Hload. unfold copy. by rewrite Hjson.
Qed.

(** X20.  [save] opens the file before it asks for the JSON text: when
    the file can be made and [_toJSON] raises, the exception leaves [save]
    and the file is there and empty, whatever it held before; no other
    file changed. *)
Theorem failed_save_leaves_empty_file (self : obj) (f : string) (w : world)
    (e : exn) (h1 : heap) :
  creatable (json_name f) = true →
  _toJSON self (objects w) = Raised e h1 →
  ∃ w1, save self f w = Raised e w1
        ∧ objects w1 = h1
        ∧ texts w1 !! json_name f = Some ""
        ∧ (∀ q, q ≠ json_name f → texts w1 !! q = texts w !! q).
Proof.
  intros Hmake Hjson. unfold save. rewrite Hmake, Hjson.
  eexists. split; [done|]. cbn [texts objects].
  split; [done|]. split; [apply lookup_insert_eq|].
  intros q Hq. by rewrite lookup_insert_ne.
Qed.

(** X21.  [save] and [load] agree on the file name: a name that ends in
    [.json] is used as it is, any other gets [.json] appended, so the
    name they use always ends in [.json], and a name and its normal form
    are one file to both; and [load] of a name whose file is not there
    raises FileNotFoundError with nothing changed. *)
Theorem json_name_normalises (cls : klass) (f : string) (w : world) :
  json_name f = (if endswith f ".json" then f else f +:+ ".json")
  ∧ (¬ ends_with f ".json" → json_name f = f +:+ ".json")
  ∧ ends_with (json_name f) ".json"
  ∧ (json_name f = f ↔ ends_with f ".json")
  ∧ (∀ self, save self (json_name f) w = save self f w)
  ∧ load cls (json_name f) w = load cls f w
  ∧ (texts w !! json_name f = None →
     load cls f w = Raised (FileNotFoundError (json_name f)) w).
Proof.
  split; [apply json_name_spec|]. split.
  { intros Hend. rewrite json_name_spec. destruct (endswith f ".json") eqn:E; [|done].
    by apply endswith_spec in E. }
  split; [apply json_name_ends|]. split; [apply json_name_fixed|].
  split; [|split].
  - intros self. unfold save. by rewrite json_name_idempotent.
  - unfold load. by rewrite json_name_idempotent.
  - intros Hnone. unfold load. by rewrite Hnone.
Qed.

End facts.

Lemma save_then_load_is_copy_witness :
  let bench_class := mkKlass "Bench" (Some {["laser"]}) in
  let w := Scenario.empty_world in
  let h1 := res_state (@_toJSON Scenario.host Example.bench (objects w)) in
  @creatable Scenario.host (json_name "/data/bench") = true
  ∧ json_name "/data/bench.json" = json_name "/data/bench"
  ∧ @_toJSON Scenario.host Example.bench (objects w) = Done "{bench}" h1
  ∧ universal_newlines "{bench}" = "{bench}"
  ∧ ∃ w1,
      @save Scenario.host Example.bench "/data/bench" w = Done tt w1
      ∧ texts w1 !! json_name "/data/bench" = Some "{bench}"
      ∧ @load Example.libs bench_class "/data/bench.json" w1
        = with_texts (texts w1)
            (@copy Example.libs Scenario.host Example.bench (objects w)).
Proof.
  cbv zeta.
  assert (@_toJSON Scenario.host Example.bench (objects Scenario.empty_world)
          = Done "{bench}"
              (res_state (@_toJSON Scenario.host Example.bench
                            (objects Scenario.empty_world)))) as Hjson
    by (vm_compute; reflexivity).
  split; [reflexivity|]. split; [reflexivity|]. split; [exact Hjson|].
  split; [reflexivity|].
  destruct (@save_then_load_is_copy Example.libs Scenario.host Example.bench
              (mkKlass "Bench" (Some {["laser"]})) "/data/bench" "/data/bench.json"
              Scenario.empty_world "{bench}" _ eq_refl eq_refl Hjson eq_refl)
    as (w1 & Hsave & _ & Hfile & _ & _ & Hcopy).
  exists w1. split; [exact Hsave|]. split; [exact Hfile|]. exact Hcopy.
Defined.

Lemma failed_save_leaves_empty_file_witness :
  let w := Scenario.saved_world in
  let h1 := res_state (@_toJSON Scenario.host Scenario.plain (objects w)) in
  @creatable Scenario.host (json_name "/data/bench") = true
  ∧ @_toJSON Scenario.host Scenario.plain (objects w)
    = Raised (AttributeError "notPickled") h1
  ∧ texts w !! json_name "/data/bench" = Some "{bench}"
  ∧ ∃ w1,
      @save Scenario.host Scenario.plain "/data/bench" w
      = Raised (AttributeError "notPickled") w1
      ∧ texts w1 !! json_name "/data/bench" = Some "".
Proof.
  cbv zeta.
  assert (@_toJSON Scenario.host Scenario.plain (objects Scenario.saved_world)
          = Raised (AttributeError "notPickled")
              (res_state (@_toJSON Scenario.host Scenario.plain
                            (objects Scenario.saved_world)))) as Hjson
    by (vm_compute; reflexivity).
  split; [reflexivity|]. split; [exact Hjson|].
  split; [vm_compute; reflexivity|].
  destruct (@failed_save_leaves_empty_file Scenario.host Scenario.plain "/data/bench"
              Scenario.saved_world _ _ eq_refl Hjson) as (w1 & Hsave & _ & Hfile & _).
  exists w1. split; [exact Hsave | exact Hfile].
Defined.

End JSONfileFacts.
